(** * AutomatedFTPDownload: a shallow embedding of automatedFTPDownloader.py

    The script is sequential glue code over an FTP client, a YAML parser,
    the zip and tar libraries and the local file system.  The embedding keeps
    the control flow of every function of the script and threads an explicit
    program state (file system, chronological trace of observable events and
    the logger's [verbose] attribute) through a state-and-exception monad.
    What the script cannot decide by itself (the answers of the FTP servers,
    the YAML parser, the archive libraries, the regular expression engine,
    where the file system lets a file be created and what a buffered handle
    has let through, the environment variables) is a field of the record
    [World]. *)

From Stdlib Require Import ZArith String Ascii List Bool Lia.
From stdpp Require Import base option strings gmap list pretty.
Import ListNotations.
Local Open Scope string_scope.
Local Open Scope Z_scope.
Local Open Scope list_scope.

(** ** Python values *)

(** Scalars as [yaml.safe_load] produces them.  Any other object (a float, a
    list, a nested mapping) is represented by its truth value and its
    [str()]. *)
Inductive pyval :=
| PNone
| PBool (b : bool)
| PInt (z : Z)
| PStr (s : string)
| POther (truth : bool) (repr : string).

Definition truthy (v : pyval) : bool :=
  match v with
  | PNone => false
  | PBool b => b
  | PInt z => negb (z =? 0)
  | PStr s => negb (String.eqb s "")
  | POther t _ => t
  end.

Definition py_str (v : pyval) : string :=
  match v with
  | PNone => "None"
  | PBool true => "True"
  | PBool false => "False"
  | PInt z => pretty z
  | PStr s => s
  | POther _ r => r
  end.

(** ** Python dictionaries with string keys

    Insertion order is observable ([keys()] is iterated by the driver), so a
    dictionary is an association list; [del] keeps the order of the remaining
    items. *)
Definition dict (V : Type) := list (string * V).

Definition dict_keys {V} (d : dict V) : list string := map fst d.

Fixpoint dict_get {V} (k : string) (d : dict V) : option V :=
  match d with
  | [] => None
  | (k', v) :: d' => if String.eqb k k' then Some v else dict_get k d'
  end.

Definition dict_has {V} (k : string) (d : dict V) : bool :=
  existsb (String.eqb k) (dict_keys d).

Definition dict_remove {V} (k : string) (d : dict V) : dict V :=
  List.filter (λ kv, negb (String.eqb k (fst kv))) d.

(** ** The parsed configuration file *)

(** A value of the top-level mapping: a mapping of its own, or anything
    else. *)
Inductive yentry :=
| EMap (fields : dict pyval)
| ENotMap (v : pyval).

Inductive ydoc :=
| DMap (sites : dict yentry)
| DNotMap (v : pyval).

(** ** Exceptions, events, state *)

Inductive exn :=
| KeyError
| TypeError
| AttributeError
| UnboundLocalError
| OSError
| FTPError
| ArchiveError
| ReError
| SystemExit.

(** [except Exception] catches everything but [SystemExit]. *)
Definition is_Exception (e : exn) : bool :=
  match e with SystemExit => false | _ => true end.

Inductive severity := Normal | Warning | Error | CodeBreaker.

(** An argument of [str.format]. *)
Inductive fmtarg :=
| AStr (s : string)
| AVal (v : pyval)
| ABool (b : bool)
| ANat (n : nat)
| AList (l : list string).

(** Observable events, recorded in the order they happen.  A log line is kept
    as the format string of the source and its arguments; the line-number
    and time-stamp columns of the log file are left out. *)
Inductive event :=
| LogLine (sev : severity) (fmt : string) (fargs : list fmtarg)
| Console (fmt : string) (fargs : list fmtarg)
| Printed (fmt : string) (fargs : list fmtarg) (terminal : bool)
| FtpConnect (host : pyval)
| FtpLogin (user : pyval) (password : string)
| FtpCwd (dir : pyval)
| FtpList
| FtpNlst
| FtpRetr (name : string)
| FtpQuit
| FileOpen (path : string)
| FileClose (path : string)
| Sleep.

Inductive node :=
| File (content : string)
| Dir.

Record state := mkState {
  fs : gmap string node;
  trace : list event;
  verbose : bool
}.

Definition set_fs (f : gmap string node → gmap string node) (s : state) : state :=
  mkState (f (fs s)) (trace s) (verbose s).
Definition add_event (e : event) (s : state) : state :=
  mkState (fs s) (trace s ++ [e]) (verbose s).
Definition set_verbose (b : bool) (s : state) : state :=
  mkState (fs s) (trace s) b.

(** ** The monad: state passing with exceptions; the state survives a raise *)

Inductive result (A : Type) :=
| Ret (a : A)
| Raise (e : exn).
Arguments Ret {A} a.
Arguments Raise {A} e.

Definition M (A : Type) : Type := state → result A * state.

Definition ret {A} (a : A) : M A := λ s, (Ret a, s).
Definition raise {A} (e : exn) : M A := λ s, (Raise e, s).
Definition bind {A B} (m : M A) (k : A → M B) : M B :=
  λ s, match m s with
       | (Ret a, s') => k a s'
       | (Raise e, s') => (Raise e, s')
       end.

Notation "x <- m ;; k" := (bind m (λ x, k))
  (at level 100, m at next level, right associativity).
Notation "m ;;; k" := (bind m (λ _, k))
  (at level 100, right associativity).

(** [try: m  except Exception: h] *)
Definition try_except {A} (m : M A) (h : exn → M A) : M A :=
  λ s, match m s with
       | (Raise e, s') => if is_Exception e then h e s' else (Raise e, s')
       | r => r
       end.

Definition get_state : M state := λ s, (Ret s, s).
Definition modify (f : state → state) : M unit := λ s, (Ret tt, f s).
Definition emit (e : event) : M unit := modify (add_event e).

(** [for x in l: acc = f x acc] *)
Fixpoint for_each {A B} (f : A → B → M B) (l : list A) (acc : B) : M B :=
  match l with
  | [] => ret acc
  | x :: l' => acc' <- f x acc ;; for_each f l' acc'
  end.

(** ** Strings *)

Fixpoint contains (pat s : string) : bool :=
  String.prefix pat s ||
  match s with
  | EmptyString => false
  | String _ s' => contains pat s'
  end.

Definition endswith (s suf : string) : bool :=
  let n := String.length s in
  let m := String.length suf in
  (m <=? n)%nat && String.eqb (String.substring (n - m) m s) suf.

(** [posixpath.join] for two components. *)
Definition posix_join (a b : string) : string :=
  if String.prefix "/" b then b
  else if String.eqb a "" || endswith a "/" then a +:+ b
  else a +:+ "/" +:+ b.

(** ** The environment *)

Inductive platform := Windows | Linux | OtherOS.

(** What a remote directory answers: the LIST lines, the NLST names ([None]
    when the command is refused) and, for a name, the blocks the server sends
    for RETR before the transfer ends, with [true] when it ends well. *)
Record RemoteDir := {
  list_lines : option (list string);
  nlst_names : option (list string);
  retr : string → list string * bool
}.

Record FtpServer := {
  welcome : string;
  login_ok : pyval → string → bool;
  cwd : pyval → option RemoteDir;
  quit_ok : bool
}.

(** What an archive library does when it extracts a container: the nodes it
    writes, each with its path, in the order it writes them, and the error
    that ends the extraction, if there is one.  A container that cannot even
    be opened writes nothing and ends with an error. *)
Definition extraction : Type := list (string * node) * option exn.

(** What the script cannot decide by itself.  The fields on the local file
    system say, for a file system [f]:
    - [can_create f p]: whether [open(p, 'wb')] succeeds on a path that is
      not a directory (its parent directory is there, the name is
      acceptable, writing is permitted);
    - [flushed data]: what has reached the disk of the bytes [data] written
      through a buffered handle that has not been closed;
    - [dir_size p]: the size [os.path.getsize] reports for a directory;
    - [regex_compile pattern]: what [re.compile] makes of [pattern], a
      pattern with special characters: nothing when the pattern is not well
      formed, and otherwise the test whether the pattern is found somewhere
      in a string;
    - [zip_extract f content dir], [tar_extract f content dir]: what
      [extractall(dir)] does with a container that holds [content]. *)
Record World := {
  sys_platform : platform;
  os_getcwd : string;
  env_home : string;
  env_userprofile : string;
  env_localappdata : string;
  os_path_join : string → string → string;
  can_create : gmap string node → string → bool;
  flushed : string → string;
  dir_size : string → nat;
  regex_compile : string → option (string → bool);
  yaml_safe_load : string → option ydoc;
  ftp_connect : pyval → option FtpServer;
  is_zipfile : string → bool;
  zip_extract : gmap string node → string → string → extraction;
  is_tarfile : string → bool;
  tar_extract : gmap string node → string → string → extraction
}.

Record logdata := {
  code : Z;
  response : option pyval;
  error : option pyval
}.

Definition data_code (c : Z) : option logdata :=
  Some {| code := c; response := None; error := None |}.

(** The exception object that [loadCredentials] attaches to its log data: it
    is not a [str]. *)
Definition exc_object : pyval := POther true "YAMLError".

Module Logger.

(** ['...' + data[key] + '...']: the key must be there and hold a [str]. *)
Definition details (field : option pyval) : M unit :=
  match field with
  | None => raise KeyError
  | Some (PStr _) => ret tt
  | Some _ => raise TypeError
  end.

(** [Logger.writeLog].  For a ['code-breaker'] entry the details are looked
    up in [data] while the line is built; then the line goes to the log file
    and, with [verbose], the message to the terminal. *)
Definition writeLog (message : string) (fargs : list fmtarg)
    (sev : severity) (data : option logdata) : M unit :=
  (match sev with
   | CodeBreaker =>
       match data with
       | None => raise TypeError
       | Some d =>
           if code d =? 2 then details (response d)
           else if code d =? 3 then details (error d)
           else ret tt
       end
   | _ => ret tt
   end) ;;;
  emit (LogLine sev message fargs) ;;;
  s <- get_state ;;
  if verbose s then emit (Console message fargs) else ret tt.

(** [print] goes through [Logger.write], since [sys.stdout = LOGGER]. *)
Definition print (message : string) (fargs : list fmtarg) : M unit :=
  s <- get_state ;;
  emit (Printed message fargs (verbose s)).

End Logger.
Import Logger.

(** ** File system primitives *)

Definition os_path_exists (p : string) : M bool :=
  s <- get_state ;; ret (bool_decide (is_Some (fs s !! p))).

Definition os_path_isdir (p : string) : M bool :=
  s <- get_state ;;
  ret (match fs s !! p with Some Dir => true | _ => false end).

(** [open(p, 'r').read()] *)
Definition open_read (p : string) : M string :=
  s <- get_state ;;
  match fs s !! p with
  | Some (File c) => ret c
  | _ => raise OSError
  end.

Section Script.

Context (w : World).

(** [open(p, 'wb')]: refused on a directory and wherever the file cannot be
    created; otherwise the file is created, or truncated, at once. *)
Definition open_wb (p : string) : M unit :=
  s <- get_state ;;
  match fs s !! p with
  | Some Dir => raise OSError
  | _ =>
      if can_create w (fs s) p then
        modify (set_fs (insert p (File ""))) ;;; emit (FileOpen p)
      else raise OSError
  end.

(** [file.write(block)] on the buffered handle opened at [p], through which
    [written] has gone so far; the result is what has gone through it now.
    How much of it is on disk is not up to the script. *)
Definition file_write (p : string) (block : string) (written : string)
    : M string :=
  let written := written +:+ block in
  modify (set_fs (insert p (File (flushed w written)))) ;;;
  ret written.

(** [file.close()]: everything written through the handle is on disk. *)
Definition file_close (p : string) (written : string) : M unit :=
  modify (set_fs (insert p (File written))) ;;;
  emit (FileClose p).

Definition os_path_getsize (p : string) : M nat :=
  s <- get_state ;;
  match fs s !! p with
  | Some (File c) => ret (String.length c)
  | Some Dir => ret (dir_size w p)
  | None => raise OSError
  end.

(** [os.path.join(a, b)] where [a] may be [None]. *)
Definition path_join (a : option string) (b : string) : M string :=
  match a with
  | Some a => ret (os_path_join w a b)
  | None => raise TypeError
  end.

(** ** loadCredentials *)

Definition required_keys : list string :=
  ["site"; "user"; "password"; "remote_path"].

Definition getitem {V} (k : string) (d : dict V) : M V :=
  match dict_get k d with
  | Some v => ret v
  | None => raise KeyError
  end.

(** [del d[k]] *)
Definition delitem {V} (k : string) (d : dict V) : M (dict V) :=
  if dict_has k d then ret (dict_remove k d) else raise KeyError.

(** [site.keys()], [site[k]] *)
Definition entry_keys (site : yentry) : M (list string) :=
  match site with
  | EMap f => ret (dict_keys f)
  | ENotMap _ => raise AttributeError
  end.

Definition entry_getitem (k : string) (site : yentry) : M pyval :=
  match site with
  | EMap f => getitem k f
  | ENotMap _ => raise TypeError
  end.

(** [site[k1] and site[k2] and ...], as the truth value [not] takes of
    it. *)
Fixpoint and_chain (site : yentry) (ks : list string) : M bool :=
  match ks with
  | [] => ret true
  | k :: ks' =>
      v <- entry_getitem k site ;;
      if truthy v then and_chain site ks' else ret false
  end.

(** The body of the loop of [loadCredentials]; the two checks are two
    separate [if] statements. *)
Definition check_config (config : string) (ftpConfigs : dict yentry)
    : M (dict yentry) :=
  site <- getitem config ftpConfigs ;;
  ks <- entry_keys site ;;
  ftpConfigs <-
    (if negb (forallb (λ item, existsb (String.eqb item) ks) required_keys)
     then
       writeLog "Key missing from {} site info. Removing faulty config..."
         [AStr config] Warning None ;;;
       delitem config ftpConfigs
     else ret ftpConfigs) ;;
  filled <- and_chain site required_keys ;;
  if negb filled
  then
    writeLog "A value in in {} site info is None (Not present). Removing faulty config..."
      [AStr config] Warning None ;;;
    delitem config ftpConfigs
  else ret ftpConfigs.

Definition loadCredentials (ftpPath : string) : M (dict yentry) :=
  stream <- open_read ftpPath ;;
  ftpConfigs <-
    match yaml_safe_load w stream with
    | Some doc => ret (Some doc)
    | None =>
        writeLog "Error while loading YAML." [] CodeBreaker
          (Some {| code := 3; response := None; error := Some exc_object |}) ;;;
        ret None
    end ;;
  match ftpConfigs with
  | None => raise UnboundLocalError
  | Some (DNotMap _) => raise AttributeError
  | Some (DMap d) => for_each check_config (dict_keys d) d
  end.

(** ** connectToFTP, downloadFiles, disconnectFtp *)

(** The [while True] loop of [connectToFTP] that cuts the welcome message
    at every newline; [cur] is the line read so far. *)
Fixpoint welcome_lines (cur s : string) : list string :=
  match s with
  | EmptyString => [cur]
  | String c s' =>
      if Ascii.eqb c "010" then cur :: welcome_lines "" s'
      else welcome_lines (cur +:+ String c "") s'
  end.

Definition ftp_answer {A} (o : option A) : M A :=
  match o with
  | Some a => ret a
  | None => raise FTPError
  end.

Definition disconnectFtp (ftp : FtpServer) (hostname : pyval) : M unit :=
  writeLog "Disconnecting from {}..." [AVal hostname] Normal None ;;;
  emit FtpQuit ;;;
  (if quit_ok ftp then ret tt else raise FTPError) ;;;
  writeLog "Disconnected from {}." [AVal hostname] Normal None ;;;
  emit Sleep.

(** [ftp.retrbinary("RETR " + filename, file.write)]: every block the server
    sends is handed to [file.write]; the result is what has gone through the
    handle. *)
Definition retrbinary (rd : RemoteDir) (filename path : string) : M string :=
  emit (FtpRetr filename) ;;;
  written <- for_each (file_write path) (fst (retr rd filename)) "" ;;
  if snd (retr rd filename) then ret written else raise FTPError.

(** One round of the download loop. *)
Definition download_one (rd : RemoteDir) (localDownloadPath : option string)
    (filename : string) (filesDownloaded : list string) : M (list string) :=
  if negb (String.eqb filename ".") && negb (String.eqb filename "..") then
    writeLog "Downloading {}..." [AStr filename] Normal None ;;;
    try_except
      (file <- path_join localDownloadPath filename ;;
       open_wb file ;;;
       written <- retrbinary rd filename file ;;
       let filesDownloaded := (filesDownloaded ++ [filename])%list in
       file_close file written ;;;
       ret filesDownloaded)
      (λ _,
         writeLog "{} was actually a directory, skipping..." [AStr filename]
           Normal None ;;;
         ret filesDownloaded)
  else ret filesDownloaded.

Definition downloadFiles (ftp : FtpServer) (hostname sourceDirectory : pyval)
    (localDownloadPath : option string) : M (list string) :=
  emit (FtpCwd sourceDirectory) ;;;
  rd <- ftp_answer (cwd ftp sourceDirectory) ;;
  writeLog "This script will only download files, not directories." []
    Normal None ;;;
  writeLog "Files at {}:" [AVal sourceDirectory] Normal None ;;;
  emit FtpList ;;;
  fileList <- ftp_answer (list_lines rd) ;;
  for_each (λ i _, writeLog i [] Normal None) fileList tt ;;;
  emit FtpNlst ;;;
  fileList <- ftp_answer (nlst_names rd) ;;
  filesDownloaded <- for_each (download_one rd localDownloadPath) fileList [] ;;
  writeLog "{} files successfully downloaded"
    [ANat (length filesDownloaded)] Normal None ;;;
  disconnectFtp ftp hostname ;;;
  ret filesDownloaded.

Definition connectToFTP (siteConfig : yentry) (siteName : string)
    (downloadPath : option string) : M (list string) :=
  hostname <- entry_getitem "site" siteConfig ;;
  username <- entry_getitem "user" siteConfig ;;
  password <- entry_getitem "password" siteConfig ;;
  sourceDirectory <- entry_getitem "remote_path" siteConfig ;;
  writeLog "Connecting to {} at host {}..." [AStr siteName; AVal hostname]
    Normal None ;;;
  emit (FtpConnect hostname) ;;;
  ftp <- ftp_answer (ftp_connect w hostname) ;;
  emit (FtpLogin username (py_str password)) ;;;
  (if login_ok ftp username (py_str password) then ret tt
   else raise FTPError) ;;;
  writeLog "Welcome: " [] Normal None ;;;
  for_each (λ i _, writeLog i [] Normal None)
    (welcome_lines "" (welcome ftp)) tt ;;;
  writeLog "Connected Successfully!" [] Normal None ;;;
  downloadFiles ftp hostname sourceDirectory downloadPath.

(** ** unzipZippedFiles *)

(** Carrying out an extraction: the nodes are written one after the other,
    and the error, if there is one, comes after the nodes written before
    it. *)
Definition extract (x : extraction) : M unit :=
  for_each (λ m _, modify (set_fs (insert (fst m) (snd m)))) (fst x) tt ;;;
  match snd x with
  | None => ret tt
  | Some e => raise e
  end.

(** The directory [extractall(path)] extracts into: without a path, the
    working directory. *)
Definition extract_dir (path : option string) : string :=
  match path with
  | Some d => d
  | None => os_getcwd w
  end.

(** [zipfile.is_zipfile(file)]: [False] for a path that cannot be opened. *)
Definition zipfile_is_zipfile (file : string) : M bool :=
  s <- get_state ;;
  ret (match fs s !! file with
       | Some (File c) => is_zipfile w c
       | _ => false
       end).

(** [tarfile.is_tarfile(file)]: the [OSError] of a path that cannot be
    opened goes through. *)
Definition tarfile_is_tarfile (file : string) : M bool :=
  c <- open_read file ;;
  ret (is_tarfile w c).

(** [with zipfile.ZipFile(file, 'r') as zipObj: zipObj.extractall(path)] *)
Definition zipfile_extractall (file : string) (path : option string) : M unit :=
  c <- open_read file ;;
  s <- get_state ;;
  extract (zip_extract w (fs s) c (extract_dir path)).

(** [tarfile.open(file)], [extractall(path)], [close()] *)
Definition tarfile_extractall (file : string) (path : option string) : M unit :=
  c <- open_read file ;;
  s <- get_state ;;
  extract (tar_extract w (fs s) c (extract_dir path)).

(** One round of the loop of [unzipZippedFiles]. *)
Definition unzip_one (downloadPath : option string) (i : string) : M unit :=
  file <- path_join downloadPath i ;;
  z <- zipfile_is_zipfile file ;;
  if z then
    zipfile_extractall file downloadPath ;;;
    writeLog "Unzipped {}." [AStr file] Normal None
  else
    t <- tarfile_is_tarfile file ;;
    if t then
      tarfile_extractall file downloadPath ;;;
      writeLog "Unzipped {}." [AStr file] Normal None
    else ret tt.

Definition unzipZippedFiles (downloadPath : option string)
    (downloadedFiles : list string) : M unit :=
  for_each (λ i _, unzip_one downloadPath i) downloadedFiles tt.

(** ** Argument parsing *)

(** The pairs [getopt.getopt] returns for the options string
    ["hf:o:vpus:"] and the long options of the script; the short and the
    long spelling fall in the same branch of [parseArgs], except for
    [--help], which no branch tests. *)
Inductive opt :=
| OptH
| OptHelpLong
| OptFile (value : string)
| OptOutput (value : string)
| OptPreserve
| OptVerbose
| OptUnzip
| OptSite (value : string).

Definition exit {A} : M A := raise SystemExit.

Definition validateConfigPath (configPath : string) : M bool :=
  if negb (endswith configPath "yaml") then
    writeLog "Configuration file must be .yaml extension. Looking for configuration file in default locations."
      [] Error None ;;;
    ret false
  else
    e <- os_path_exists configPath ;;
    if negb e then
      writeLog "Specified path to the configuration file is invalid. Looking for configuration file in default locations."
        [] Error None ;;;
      ret false
    else ret true.

Definition not_found_in_defaults : M string :=
  writeLog "ftp.yaml config file wasn't found in default locations! Specify a path to FTP credentials YAML file using (-f --file) argument."
    [] CodeBreaker (data_code 1) ;;;
  exit.

Definition getDefaultConfigPath : M string :=
  let fileName := "ftp.yaml" in
  let configPath := os_path_join w (os_getcwd w) fileName in
  e <- os_path_exists configPath ;;
  if e then ret configPath
  else
    match sys_platform w with
    | Windows =>
        let configPath := os_path_join w (env_localappdata w) fileName in
        e <- os_path_exists configPath ;;
        if e then ret configPath else not_found_in_defaults
    | Linux =>
        let configPath := os_path_join w (env_home w) fileName in
        e <- os_path_exists configPath ;;
        if e then ret configPath else not_found_in_defaults
    | OtherOS =>
        writeLog "Platform couldn't be recognized. Are you sure you are running this script on Windows or Ubuntu Linux?"
          [] CodeBreaker (data_code 1) ;;;
        exit
    end.

Definition validateDownloadPath (path : string) : M bool :=
  e <- os_path_exists path ;;
  if negb e then
    writeLog "The download path does not exist. Switching to default download location."
      [] Warning None ;;;
    ret false
  else
    d <- os_path_isdir path ;;
    if negb d then
      writeLog "The download path must be a directory, not a file. Switching to default download location."
        [] Warning None ;;;
      ret false
    else ret true.

(** The characters that have a meaning of their own in a regular
    expression. *)
Definition regex_special (c : ascii) : bool :=
  existsb (Ascii.eqb c) (list_ascii_of_string ".^$*+?{}[]\|()").

Fixpoint plain_pattern (pattern : string) : bool :=
  match pattern with
  | EmptyString => true
  | String c pattern' => negb (regex_special c) && plain_pattern pattern'
  end.

(** What [re.compile(pattern)] gives, as the test [bool(regexObj.search(s))]:
    a substring test for a pattern without special characters; for any other
    pattern the regular expression engine decides, and it refuses a pattern
    that is not well formed. *)
Definition compiled (pattern : string) : option (string → bool) :=
  if plain_pattern pattern then Some (contains pattern)
  else regex_compile w pattern.

(** [re.compile(pattern)]: [re.error] for a pattern that is refused. *)
Definition re_compile (pattern : string) : M (string → bool) :=
  match compiled pattern with
  | Some search => ret search
  | None => raise ReError
  end.

(** Whether [purge] removes the file at path [p]: a file met by
    [os.walk(dir)], that is a file whose path goes on from [dir] joined to
    the empty name, for which the compiled pattern answers as [inclusive]
    says, and whose path does not end in [.py]. *)
Definition purge_hit (dir : string) (search : string → bool) (inclusive : bool)
    (p : string) (n : node) : bool :=
  match n with
  | File _ =>
      String.prefix (os_path_join w dir "") p
      && Bool.eqb (search p) inclusive
      && negb (endswith p ".py")
  | Dir => false
  end.

Definition purge (dir pattern : string) (inclusive : bool) : M nat :=
  regexObj <- re_compile pattern ;;
  s <- get_state ;;
  match fs s !! dir with
  | Some Dir =>
      modify (set_fs (filter (λ kv, purge_hit dir regexObj inclusive kv.1 kv.2 = false))) ;;;
      ret (size (filter (λ kv, purge_hit dir regexObj inclusive kv.1 kv.2 = true) (fs s)))
  | _ => ret 0%nat
  end.

Definition getDefaultDownloadPath (preserve : bool) : M (option string) :=
  match sys_platform w with
  | Windows =>
      let downloadPath := os_path_join w (env_userprofile w) "Downloads" in
      (if negb preserve then
         purge downloadPath "SureDone_" true ;;;
         writeLog "Purged existing files." [] Normal None
       else ret tt) ;;;
      ret (Some downloadPath)
  | Linux =>
      let downloadPath := env_home w in
      (if negb preserve then
         purge downloadPath "SureDone_" true ;;;
         writeLog "Purged existing files." [] Normal None
       else ret tt) ;;;
      ret (Some downloadPath)
  | OtherOS => ret None
  end.

(** The local variables of [parseArgs]. *)
Record args := mkArgs {
  ftpYAMLPath : string;
  customYAMLPathFoundAndValidated : bool;
  outputDIRPath : string;
  customOutputPathFoundAndValidated : bool;
  arg_verbose : bool;
  preserveOldFiles : bool;
  unzipFiles : bool;
  targetSiteSpecified : bool;
  targetSite : string
}.

Definition initial_args : args :=
  mkArgs "ftp.yaml" false "" false false false false false ".*_.*".

(** The usage text; its wording plays no role here. *)
Definition HELP_MESSAGE : string := "HELP_MESSAGE".

(** The body of [for option, value in opts]. *)
Definition parse_option (o : opt) (a : args) : M args :=
  match o with
  | OptH =>
      modify (set_verbose true) ;;;
      print HELP_MESSAGE [] ;;;
      exit
  | OptHelpLong => ret a
  | OptFile value =>
      v <- validateConfigPath value ;;
      ret (mkArgs value v (outputDIRPath a)
             (customOutputPathFoundAndValidated a) (arg_verbose a)
             (preserveOldFiles a) (unzipFiles a) (targetSiteSpecified a)
             (targetSite a))
  | OptOutput value =>
      v <- validateDownloadPath value ;;
      ret (mkArgs (ftpYAMLPath a) (customYAMLPathFoundAndValidated a) value v
             (arg_verbose a) (preserveOldFiles a) (unzipFiles a)
             (targetSiteSpecified a) (targetSite a))
  | OptPreserve =>
      ret (mkArgs (ftpYAMLPath a) (customYAMLPathFoundAndValidated a)
             (outputDIRPath a) (customOutputPathFoundAndValidated a)
             (arg_verbose a) true (unzipFiles a) (targetSiteSpecified a)
             (targetSite a))
  | OptVerbose =>
      modify (set_verbose true) ;;;
      ret (mkArgs (ftpYAMLPath a) (customYAMLPathFoundAndValidated a)
             (outputDIRPath a) (customOutputPathFoundAndValidated a)
             true (preserveOldFiles a) (unzipFiles a)
             (targetSiteSpecified a) (targetSite a))
  | OptUnzip =>
      ret (mkArgs (ftpYAMLPath a) (customYAMLPathFoundAndValidated a)
             (outputDIRPath a) (customOutputPathFoundAndValidated a)
             (arg_verbose a) (preserveOldFiles a) true
             (targetSiteSpecified a) (targetSite a))
  | OptSite value =>
      ret (mkArgs (ftpYAMLPath a) (customYAMLPathFoundAndValidated a)
             (outputDIRPath a) (customOutputPathFoundAndValidated a)
             (arg_verbose a) (preserveOldFiles a) (unzipFiles a)
             true value)
  end.

(** [getopt.getopt] and the loop over its pairs; [None] stands for a
    command line that [getopt] refuses. *)
Definition parse_options (argv : option (list opt)) : M args :=
  match argv with
  | None =>
      modify (set_verbose true) ;;;
      print "Error in arguments!" [] ;;;
      print HELP_MESSAGE [] ;;;
      exit
  | Some opts => for_each parse_option opts initial_args
  end.

(** The two default look-ups that follow the loop. *)
Definition resolve_paths (a : args) : M (string * option string) :=
  ftpYAMLPath <-
    (if negb (customYAMLPathFoundAndValidated a) then getDefaultConfigPath
     else ret (ftpYAMLPath a)) ;;
  outputDIRPath <-
    (if negb (customOutputPathFoundAndValidated a)
     then getDefaultDownloadPath (preserveOldFiles a)
     else ret (Some (outputDIRPath a))) ;;
  ret (ftpYAMLPath, outputDIRPath).

(** The validation of the target site that ends [parseArgs]. *)
Definition validate_target (a : args) (ftpConfigs : dict yentry) : M string :=
  if targetSiteSpecified a then
    if negb (dict_has (targetSite a) ftpConfigs) then
      writeLog "Credentials of the target ftp site ({}) were not present in the config."
        [AStr (targetSite a)] CodeBreaker (data_code 1) ;;;
      writeLog "Check the log to make sure that it wasn't removed due to incomplete infromation."
        [] CodeBreaker (data_code 1) ;;;
      writeLog "Exiting..." [] CodeBreaker (data_code 1) ;;;
      exit
    else ret (targetSite a)
  else ret ".*_.*".

Record parsed := mkParsed {
  p_ftpYAMLPath : string;
  p_outputDIRPath : option string;
  p_preserveOldFiles : bool;
  p_verbose : bool;
  p_unzipFiles : bool;
  p_ftpConfigs : dict yentry;
  p_targetSite : string
}.

Definition parseArgs (argv : option (list opt)) : M parsed :=
  a <- parse_options argv ;;
  paths <- resolve_paths a ;;
  ftpConfigs <- loadCredentials (fst paths) ;;
  targetSite <- validate_target a ftpConfigs ;;
  ret (mkParsed (fst paths) (snd paths) (preserveOldFiles a) (arg_verbose a)
         (unzipFiles a) ftpConfigs targetSite).

(** ** safeExit and main *)

(** The clock readings of the summary are not modelled; their lines are
    kept without arguments. *)
Definition safeExit (downloadPath : option string)
    (downloadedFiles : list string) (marker : string) : M unit :=
  downloadedFilesizes <-
    for_each
      (λ f acc,
         file <- path_join downloadPath f ;;
         size <- os_path_getsize file ;;
         ret (acc ++ [(file, size)])%list)
      downloadedFiles [] ;;
  if String.eqb marker "execution-complete" then
    print "=================================================================" [] ;;;
    print "SCRIPT EXECUTED SUCCESSFULLY" [] ;;;
    print "Starting time: {}" [] ;;;
    print "Ending time: {}" [] ;;;
    print "Total execution time: {} milliseconds ({} seconds)" [] ;;;
    print "Total files downloaded: {}" [ANat (length downloadedFiles)] ;;;
    for_each
      (λ file _,
         print "\tFilename: {}\t\tSize: {} bytes." [AStr (fst file); ANat (snd file)])
      downloadedFilesizes tt ;;;
    print "=================================================================" []
  else ret tt.

(** The body of [for site in targetFTPSite]. *)
Definition process_site (ftpConfigs : dict yentry)
    (outputDIRPath : option string) (unzipFiles : bool)
    (site : string) (allFilesDownloaded : list string) : M (list string) :=
  siteConfig <- getitem site ftpConfigs ;;
  downloadedFiles <- connectToFTP siteConfig site outputDIRPath ;;
  (if unzipFiles then unzipZippedFiles outputDIRPath downloadedFiles
   else ret tt) ;;;
  ret (allFilesDownloaded ++ downloadedFiles)%list.

(** The sites the driver iterates over. *)
Definition target_sites (ftpConfigs : dict yentry) (targetFTPSite : string)
    : list string :=
  if String.eqb targetFTPSite ".*_.*" then dict_keys ftpConfigs
  else [targetFTPSite].

Definition run_sites (p : parsed) (preserveOldFiles : bool) : M unit :=
  writeLog "FTP YAML path: {}" [AStr (p_ftpYAMLPath p)] Normal None ;;;
  writeLog "Local directory: {}"
    [match p_outputDIRPath p with Some d => AStr d | None => AVal PNone end]
    Normal None ;;;
  writeLog "Preserve: {}" [ABool preserveOldFiles] Normal None ;;;
  writeLog "Verbose: {}" [ABool (p_verbose p)] Normal None ;;;
  writeLog "Unzip files: {}" [ABool (p_unzipFiles p)] Normal None ;;;
  let targetFTPSite := target_sites (p_ftpConfigs p) (p_targetSite p) in
  writeLog "Target sites: {}" [AList targetFTPSite] Normal None ;;;
  allFilesDownloaded <-
    for_each (process_site (p_ftpConfigs p) (p_outputDIRPath p) (p_unzipFiles p))
      targetFTPSite [] ;;
  safeExit (p_outputDIRPath p) allFilesDownloaded "execution-complete".

Definition main (argv : option (list opt)) : M unit :=
  p <- parseArgs argv ;;
  let preserveOldFiles := true in
  run_sites p preserveOldFiles.

End Script.

(** * Vocabulary of the statements *)

(** ** Events a computation may add to the trace *)

(** [only Q m]: whatever [m] does, it appends to the trace events that
    satisfy [Q], and nothing else happens to the trace. *)
Definition only {A} (Q : event → Prop) (m : M A) : Prop :=
  ∀ s r s', m s = (r, s') → ∃ evs, trace s' = trace s ++ evs ∧ Forall Q evs.

(** ** Classes of events *)

Definition is_ftp (e : event) : bool :=
  match e with
  | FtpConnect _ | FtpLogin _ _ | FtpCwd _ | FtpList | FtpNlst | FtpRetr _
  | FtpQuit => true
  | _ => false
  end.

Definition is_connect (e : event) : bool :=
  match e with FtpConnect _ => true | _ => false end.

Definition is_fatal (e : event) : bool :=
  match e with LogLine CodeBreaker _ _ => true | _ => false end.

Definition is_console (e : event) : bool :=
  match e with Console _ _ => true | _ => false end.

(** Events of the script that stay on the local machine. *)
Definition local_event (e : event) : Prop := is_ftp e = false.

(** The hosts the FTP client was asked to connect to, in order. *)
Definition connects (tr : list event) : list pyval :=
  omap (λ e, match e with FtpConnect h => Some h | _ => None end) tr.

Definition ftp_events (tr : list event) : list event :=
  filter (λ e, is_ftp e = true) tr.


(** ** Well-formed configuration entries *)

(** All four keys are there. *)
Definition has_required (f : dict pyval) : bool :=
  forallb (λ k, dict_has k f) required_keys.

(** All four keys are there and hold a true value (neither [None] nor
    empty). *)
Definition well_formed (e : yentry) : bool :=
  match e with
  | EMap f =>
      forallb (λ k, match dict_get k f with
                    | Some v => truthy v
                    | None => false
                    end) required_keys
  | ENotMap _ => false
  end.

(** The truth value of [site[k1] and site[k2] and ...] without the state. *)
Fixpoint and_chain_pure (f : dict pyval) (ks : list string) : result bool :=
  match ks with
  | [] => Ret true
  | k :: ks' =>
      match dict_get k f with
      | None => Raise KeyError
      | Some v => if truthy v then and_chain_pure f ks' else Ret false
      end
  end.

Definition entry_complete (e : yentry) : bool :=
  match e with EMap f => has_required f | ENotMap _ => false end.

(** The state after a line has gone to the log and, with [verbose], to the
    console. *)
Definition logged (sev : severity) (m : string) (a : list fmtarg) (s : state)
    : state :=
  if verbose s
  then add_event (Console m a) (add_event (LogLine sev m a) s)
  else add_event (LogLine sev m a) s.

(** ** The driver *)

(** The host a catalog entry points to. *)
Definition site_host (cfgs : dict yentry) (site : string) : option pyval :=
  match dict_get site cfgs with
  | Some (EMap f) => dict_get "site" f
  | _ => None
  end.

(** The state in which the loop of [main] over the sites starts: the six
    lines that announce the run are in the log. *)
Definition announced (p : parsed) (preserve : bool) (s : state) : state :=
  logged Normal "Target sites: {}"
    [AList (target_sites (p_ftpConfigs p) (p_targetSite p))]
    (logged Normal "Unzip files: {}" [ABool (p_unzipFiles p)]
       (logged Normal "Verbose: {}" [ABool (p_verbose p)]
          (logged Normal "Preserve: {}" [ABool preserve]
             (logged Normal "Local directory: {}"
                [match p_outputDIRPath p with
                 | Some d => AStr d
                 | None => AVal PNone
                 end]
                (logged Normal "FTP YAML path: {}" [AStr (p_ftpYAMLPath p)]
                   s))))).

(** Anything but a line of [print]. *)
Definition not_printed (e : event) : Prop :=
  match e with Printed _ _ _ => False | _ => True end.

Definition not_connect (e : event) : Prop := is_connect e = false.

(** * Example environments

    A Linux machine with the configuration file in the working directory and
    a home directory that holds an export of an earlier run. *)

Definition site_entry (host user password remote_path : string) : yentry :=
  EMap [("site", PStr host); ("user", PStr user);
        ("password", PStr password); ("remote_path", PStr remote_path)].

(** The directory [/out] of the example server: two files and a
    sub-directory, whose RETR is refused. *)
Definition demo_dir : RemoteDir :=
  {| list_lines := Some ["-rw-r--r-- a.txt"; "-rw-r--r-- b.zip"; "drwxr-xr-x sub"];
     nlst_names := Some ["a.txt"; "b.zip"; "."; ".."; "sub"];
     retr := λ name,
       if String.eqb name "a.txt" then (["hel"; "lo"], true)
       else if String.eqb name "b.zip" then (["PK"; "c.txt"], true)
       else ([], false) |}.

(** A directory with a file, a name below a local directory that does not
    exist, and a file whose transfer breaks after one block. *)
Definition broken_dir : RemoteDir :=
  {| list_lines := Some ["-rw-r--r-- a.txt"; "-rw-r--r-- x/y.txt";
                         "-rw-r--r-- part.bin"];
     nlst_names := Some ["a.txt"; "x/y.txt"; "part.bin"];
     retr := λ name,
       if String.eqb name "a.txt" then (["hel"; "lo"], true)
       else if String.eqb name "x/y.txt" then (["zz"], true)
       else (["par"], false) |}.

Definition broken_server : FtpServer :=
  {| welcome := "220 welcome";
     login_ok := λ _ _, true;
     cwd := λ _, Some broken_dir;
     quit_ok := true |}.

Definition demo_server : FtpServer :=
  {| welcome := "220 welcome";
     login_ok := λ user password,
       match user with
       | PStr u => String.eqb u "u" && String.eqb password "p"
       | _ => false
       end;
     cwd := λ dir, match dir with
                   | PStr "/out" => Some demo_dir
                   | _ => None
                   end;
     quit_ok := true |}.

(** Only [ftp.example.com] answers. *)
Definition demo_connect (host : pyval) : option FtpServer :=
  match host with
  | PStr "ftp.example.com" => Some demo_server
  | _ => None
  end.

(** The path without its last component. *)
Fixpoint parent (p : string) : string :=
  match p with
  | EmptyString => ""
  | String c p' => if contains "/" p' then String c (parent p') else ""
  end.

(** On the example machine a file can be created where the parent directory
    exists; an unclosed handle has flushed nothing; the zip container
    [PKc.txt] holds one entry [c.txt], the tar container [ustar d.txt] one
    entry [d.txt], and any other container with one of the two signatures is
    damaged. *)
Definition demo_world (doc : option ydoc) : World :=
  {| sys_platform := Linux;
     os_getcwd := "/work";
     env_home := "/home/u";
     env_userprofile := "";
     env_localappdata := "";
     os_path_join := posix_join;
     can_create := λ f p, match f !! parent p with
                          | Some Dir => true
                          | _ => false
                          end;
     flushed := λ _, "";
     dir_size := λ _, 4096%nat;
     regex_compile := λ pattern,
       if String.eqb pattern "^/home/" then Some (String.prefix "/home/")
       else None;
     yaml_safe_load := λ _, doc;
     ftp_connect := demo_connect;
     is_zipfile := String.prefix "PK";
     zip_extract := λ _ c dir,
       if String.eqb c "PKc.txt"
       then ([(posix_join dir "c.txt", File "inner")], None)
       else ([], Some ArchiveError);
     is_tarfile := String.prefix "ustar";
     tar_extract := λ _ c dir,
       if String.eqb c "ustar d.txt"
       then ([(posix_join dir "d.txt", File "inner")], None)
       else ([], Some ArchiveError) |}.

Definition demo_fs : gmap string node :=
  <["/work/ftp.yaml" := File "sites"]>
    (<["/home/u" := Dir]>
       (<["/home/u/SureDone_export.csv" := File "old export"]> ∅)).

Definition demo_state : state := mkState demo_fs [] false.

(** One well-formed site. *)
Definition one_site : dict yentry :=
  [("siteA", site_entry "ftp.example.com" "u" "p" "/out")].

(** A well-formed site and a site without [user]. *)
Definition site_without_user : dict yentry :=
  [("siteA", site_entry "ftp.example.com" "u" "p" "/out");
   ("siteB", EMap [("site", PStr "ftp.example.com"); ("password", PStr "p");
                   ("remote_path", PStr "/out")])].

(** Two well-formed sites; the host of the first one is down. *)
Definition first_site_down : dict yentry :=
  [("siteA", site_entry "down.example.com" "u" "p" "/out");
   ("siteB", site_entry "ftp.example.com" "u" "p" "/out")].


(** ** Fatal log entries *)

Definition not_fatal (e : event) : Prop := is_fatal e = false.

(** A fatal line of the log, or a line mirrored on the console. *)
Definition fatal_or_mirror (e : event) : Prop :=
  is_fatal e = true ∨ is_console e = true.

(** The trace of [m] splits in a part without fatal entries and a tail made
    of fatal entries (with their console mirror) only; when the tail is not
    empty, [m] ends in [exit()]. *)
Definition fatal_ends_run {A} (m : M A) : Prop :=
  ∀ s r s', m s = (r, s') →
    ∃ pre post,
      trace s' = trace s ++ pre ++ post
      ∧ Forall not_fatal pre
      ∧ Forall fatal_or_mirror post
      ∧ (post ≠ [] → r = Raise SystemExit).

(** [m] writes fatal entries only and ends in [exit()]. *)
Definition fatal_tail {A} (m : M A) : Prop :=
  ∀ s r s', m s = (r, s') →
    r = Raise SystemExit
    ∧ ∃ post, trace s' = trace s ++ post ∧ Forall fatal_or_mirror post.

(** ** The download loop *)

Definition is_dir (o : option node) : bool :=
  match o with Some Dir => true | _ => false end.

(** [open(p, 'wb')] succeeds on the file system [f]: the path is no
    directory and the file can be created there. *)
Definition openable (w : World) (f : gmap string node) (p : string) : bool :=
  negb (is_dir (f !! p)) && can_create w f p.

(** A listed name is fetched when it is neither [.] nor [..], its local
    file can be opened and the transfer ends well. *)
Definition fetch_ok (w : World) (rd : RemoteDir) (dst : option string)
    (f : gmap string node) (name : string) : bool :=
  negb (String.eqb name ".") && negb (String.eqb name "..")
  && match dst with
     | Some d => openable w f (os_path_join w d name) && snd (retr rd name)
     | None => false
     end.

(** From [f] to [f'] no path has appeared or disappeared as a directory, and
    no path has disappeared. *)
Definition grows (f f' : gmap string node) : Prop :=
  ∀ p, is_dir (f' !! p) = is_dir (f !! p) ∧ (is_Some (f !! p) → is_Some (f' !! p)).

(** Where a file can be created does not depend on the regular files that
    have been created or rewritten since [f]: such changes add no directory
    and remove nothing. *)
Definition create_stable (w : World) (f : gmap string node) : Prop :=
  ∀ f' p, grows f f' → can_create w f' p = can_create w f p.

(** What is on disk of the blocks written through a handle that was not
    closed. *)
Definition unclosed (w : World) (blocks : list string) : string :=
  match blocks with
  | [] => ""
  | _ => flushed w (String.concat "" blocks)
  end.

Definition downloading (name : string) : event :=
  LogLine Normal "Downloading {}..." [AStr name].

Definition skipping (name : string) : event :=
  LogLine Normal "{} was actually a directory, skipping..." [AStr name].

(** The state of the loop once the local file of [name] has been opened at
    [p] and the blocks of the transfer have gone through the handle, which
    is still open. *)
Definition transferred (w : World) (rd : RemoteDir) (name p : string)
    (s : state) : state :=
  add_event (FtpRetr name)
    (add_event (FileOpen p)
       (set_fs (insert p (File (unclosed w (fst (retr rd name)))))
          (logged Normal "Downloading {}..." [AStr name] s))).

(** ... and once the handle has been closed. *)
Definition closed (rd : RemoteDir) (name p : string) (s : state) : state :=
  add_event (FileClose p)
    (add_event (FtpRetr name)
       (add_event (FileOpen p)
          (set_fs (insert p (File (String.concat "" (fst (retr rd name)))))
             (logged Normal "Downloading {}..." [AStr name] s)))).

(** The state after the lines of a listing have gone to the log. *)
Definition logged_lines (lines : list string) (s : state) : state :=
  foldl (λ s i, logged Normal i [] s) s lines.

(** [s'] comes after [s]: its trace is the trace of [s] with more events and
    its files are those of [s]. *)
Definition later (s s' : state) : Prop :=
  fs s' = fs s ∧ ∃ evs, trace s' = trace s ++ evs.

(** Every event but the fetch of [.] and of [..]. *)
Definition not_dot_fetch (e : event) : Prop :=
  e ≠ FtpRetr "." ∧ e ≠ FtpRetr "..".

(** ** Archive expansion *)




(** The example machine once [b.zip] and [notes.txt] have been downloaded. *)
Definition downloaded_state : state :=
  mkState (<["/home/u/b.zip" := File "PKc.txt"]>
             (<["/home/u/notes.txt" := File "plain text"]> demo_fs)) [] false.

(** * Vocabulary of the further properties *)

(** ** What a computation does to the file system *)

(** [fs_step R m]: whatever [m] does, the file system it leaves is related
    by [R] to the one it started from. *)
Definition fs_step (R : gmap string node → gmap string node → Prop) {A}
    (m : M A) : Prop :=
  ∀ s r s', m s = (r, s') → R (fs s) (fs s').

(** No path is lost from [f] to [f']. *)
Definition no_loss (f f' : gmap string node) : Prop :=
  ∀ q, is_Some (f !! q) → is_Some (f' !! q).

(** The paths [purge] is after: they hold [SureDone_] and do not end in
    [.py]. *)
Definition purgeable (q : string) : Prop :=
  contains "SureDone_" q = true ∧ endswith q ".py" = false.

(** Only purgeable paths are lost from [f] to [f']. *)
Definition loses_only_purgeable (f f' : gmap string node) : Prop :=
  ∀ q, is_Some (f !! q) → is_Some (f' !! q) ∨ purgeable q.

(** ** Lines of text *)

Definition newline : string := String "010" "".

(** A string without line break. *)
Fixpoint one_line (s : string) : bool :=
  match s with
  | EmptyString => true
  | String c s' => negb (Ascii.eqb c "010") && one_line s'
  end.

(** ** The FTP session *)

(** A listed name is tried when it is neither [.] nor [..] and its local
    file can be opened. *)
Definition tried (w : World) (dst : option string) (f : gmap string node)
    (name : string) : bool :=
  negb (String.eqb name ".") && negb (String.eqb name "..")
  && match dst with
     | Some d => openable w f (os_path_join w d name)
     | None => false
     end.

(** From [s] to [s'] the trace has grown, and [l] is the FTP traffic in
    what was added. *)
Definition ftp_since (s s' : state) (l : list event) : Prop :=
  ∃ evs, trace s' = trace s ++ evs ∧ ftp_events evs = l.

(** ** The summary *)

(** [os.path.getsize] of a path that exists. *)
Definition size_at (w : World) (f : gmap string node) (p : string) : nat :=
  match f !! p with
  | Some (File c) => String.length c
  | Some Dir => dir_size w p
  | None => 0%nat
  end.

(** The state after the given lines have been printed. *)
Definition printed (lines : list (string * list fmtarg)) (s : state) : state :=
  mkState (fs s)
    (trace s ++ map (λ l, Printed l.1 l.2 (verbose s)) lines)
    (verbose s).

Definition file_line (w : World) (d : string) (f : gmap string node)
    (name : string) : string * list fmtarg :=
  ("\tFilename: {}\t\tSize: {} bytes.",
   [AStr (os_path_join w d name); ANat (size_at w f (os_path_join w d name))]).

(** The lines of the summary of [safeExit]. *)
Definition summary (w : World) (d : string) (files : list string)
    (f : gmap string node) : list (string * list fmtarg) :=
  [("=================================================================", []);
   ("SCRIPT EXECUTED SUCCESSFULLY", []);
   ("Starting time: {}", []);
   ("Ending time: {}", []);
   ("Total execution time: {} milliseconds ({} seconds)", []);
   ("Total files downloaded: {}", [ANat (length files)])]
  ++ map (file_line w d f) files
  ++ [("=================================================================", [])].

(** ** Catalogs *)

(** Two sites with the four keys; the password of the second one is
    empty in the file. *)
Definition second_site_no_password : dict yentry :=
  [("siteA", site_entry "ftp.example.com" "u" "p" "/out");
   ("siteB", EMap [("site", PStr "ftp.example.com"); ("user", PStr "u");
                   ("password", PNone); ("remote_path", PStr "/out")])].

(** ** The result of the site loop *)

(** Every name of [names] is a path of [f] once joined to the download
    directory. *)
Definition on_disk (w : World) (dst : option string) (f : gmap string node)
    (names : list string) : Prop :=
  ∀ n, n ∈ names → ∃ d, dst = Some d ∧ is_Some (f !! os_path_join w d n).

(** ** Archives *)


(** ** What reaches the terminal *)

(** An event that shows nothing on the terminal: anything but a console
    line and a [print] that went through to the terminal. *)
Definition silent (e : event) : Prop :=
  match e with
  | Console _ _ => False
  | Printed _ _ t => t = false
  | _ => True
  end.

(** [quiet m]: run with a logger that is not verbose, [m] leaves it so and
    adds silent events only. *)
Definition quiet {A} (m : M A) : Prop :=
  ∀ s r s',
    m s = (r, s') → verbose s = false →
    verbose s' = false
    ∧ ∃ evs, trace s' = trace s ++ evs ∧ Forall silent evs.

(** ** Local file handles *)

Definition is_handle (e : event) : bool :=
  match e with
  | FileOpen _ | FileClose _ => true
  | _ => false
  end.

Definition handle_events (tr : list event) : list event :=
  filter (λ e, is_handle e = true) tr.

(** From [s] to [s'] the trace has grown, and [l] is what was added of
    opening and closing local files. *)
Definition handles_since (s s' : state) (l : list event) : Prop :=
  ∃ evs, trace s' = trace s ++ evs ∧ handle_events evs = l.

(** The handle events of one round of the download loop: the local file of
    a name that is tried is opened, and closed when the transfer ended
    well. *)
Definition round_handles (w : World) (rd : RemoteDir) (dst : option string)
    (f : gmap string node) (name : string) : list event :=
  match dst with
  | Some d =>
      if tried w dst f name then
        FileOpen (os_path_join w d name)
        :: (if snd (retr rd name) then [FileClose (os_path_join w d name)]
            else [])
      else []
  | None => []
  end.
(** * Reasoning principles for the monad *)

Lemma bind_Ret {A B} (m : M A) (k : A → M B) s a s1 :
  m s = (Ret a, s1) → bind m k s = k a s1.
Proof. intros H. unfold bind. now rewrite H. Qed.

Lemma bind_Raise {A B} (m : M A) (k : A → M B) s e s1 :
  m s = (Raise e, s1) → bind m k s = (Raise e, s1).
Proof. intros H. unfold bind. now rewrite H. Qed.

Lemma bind_inv {A B} (m : M A) (k : A → M B) s r s2 :
  bind m k s = (r, s2) →
  (∃ a s1, m s = (Ret a, s1) ∧ k a s1 = (r, s2)) ∨
  (∃ e, m s = (Raise e, s2) ∧ r = Raise e).
Proof.
  unfold bind. destruct (m s) as [[a|e] s1]; intros H.
  - left. eauto.
  - right. inversion H; subst. eauto.
Qed.

Lemma for_each_app {A B} (f : A → B → M B) l1 l2 acc s :
  for_each f (l1 ++ l2) acc s
  = (acc' <- for_each f l1 acc ;; for_each f l2 acc') s.
Proof.
  revert acc s. induction l1 as [|x l1 IH]; intros acc s; simpl.
  - reflexivity.
  - unfold bind in *. destruct (f x acc s) as [[a|e] s1].
    + apply IH.
    + reflexivity.
Qed.

Section Only.

Context (Q : event → Prop).

Lemma only_ret {A} (a : A) : only Q (ret a).
Proof.
  intros s r s' H. inversion H; subst. exists []. split; [now rewrite app_nil_r|constructor].
Qed.

Lemma only_raise {A} e : only Q (@raise A e).
Proof.
  intros s r s' H. inversion H; subst. exists []. split; [now rewrite app_nil_r|constructor].
Qed.

Lemma only_get_state : only Q get_state.
Proof.
  intros s r s' H. inversion H; subst. exists []. split; [now rewrite app_nil_r|constructor].
Qed.

Lemma only_bind {A B} (m : M A) (k : A → M B) :
  only Q m → (∀ a, only Q (k a)) → only Q (bind m k).
Proof.
  intros Hm Hk s r s' H. apply bind_inv in H as [(a & s1 & H1 & H2)|(e & H1 & ->)].
  - apply Hm in H1 as (ev1 & E1 & F1). apply Hk in H2 as (ev2 & E2 & F2).
    exists (ev1 ++ ev2). split.
    + rewrite E2, E1. now rewrite app_assoc.
    + now apply Forall_app.
  - now apply Hm in H1.
Qed.

Lemma only_try_except {A} (m : M A) (h : exn → M A) :
  only Q m → (∀ e, only Q (h e)) → only Q (try_except m h).
Proof.
  intros Hm Hh s r s' H. unfold try_except in H.
  destruct (m s) as [[a|e] s1] eqn:E.
  - inversion H; subst. eapply Hm; eauto.
  - destruct (is_Exception e).
    + apply Hm in E as (ev1 & E1 & F1). apply Hh in H as (ev2 & E2 & F2).
      exists (ev1 ++ ev2). split.
      * rewrite E2, E1. now rewrite app_assoc.
      * now apply Forall_app.
    + inversion H; subst. eapply Hm; eauto.
Qed.

Lemma only_for_each {A B} (f : A → B → M B) l :
  (∀ x acc, only Q (f x acc)) → ∀ acc, only Q (for_each f l acc).
Proof.
  intros Hf. induction l as [|x l IH]; intros acc; simpl.
  - apply only_ret.
  - apply only_bind; auto.
Qed.

Lemma only_emit e : Q e → only Q (emit e).
Proof.
  intros He s r s' H. inversion H; subst. exists [e]. split; [reflexivity|].
  now constructor.
Qed.

Lemma only_set_fs f : only Q (modify (set_fs f)).
Proof.
  intros s r s' H. inversion H; subst. exists []. split; [simpl; now rewrite app_nil_r|constructor].
Qed.

Lemma only_set_verbose b : only Q (modify (set_verbose b)).
Proof.
  intros s r s' H. inversion H; subst. exists []. split; [simpl; now rewrite app_nil_r|constructor].
Qed.

Lemma only_if {A} (b : bool) (m1 m2 : M A) :
  only Q m1 → only Q m2 → only Q (if b then m1 else m2).
Proof. now destruct b. Qed.

End Only.

Lemma only_weaken {A} (Q Q' : event → Prop) (m : M A) :
  (∀ e, Q e → Q' e) → only Q m → only Q' m.
Proof.
  intros HQ Hm s r s' H. apply Hm in H as (evs & E & F).
  exists evs. split; [assumption|]. eapply Forall_impl; eauto.
Qed.

Create HintDb only_db.

Ltac only_step :=
  first
    [ solve [eauto with only_db]
    | apply only_ret | apply only_raise | apply only_get_state
    | apply only_set_fs | apply only_set_verbose
    | apply only_emit; solve [reflexivity | assumption | eauto with only_db]
    | apply only_bind; [|intros ?]
    | apply only_try_except; [|intros ?]
    | apply only_for_each; intros ? ?
    | match goal with
      | |- only _ (if ?b then _ else _) => destruct b
      | |- only _ (match ?x with _ => _ end) => destruct x
      | |- only _ (let (_, _) := ?x in _) => destruct x
      end ].

Ltac only_solve := repeat only_step.

Section Locality.

Context (w : World) (Q : event → Prop).
Context (Q_log : ∀ sev m a, sev ≠ CodeBreaker → Q (LogLine sev m a)).
Context (Q_console : ∀ m a, Q (Console m a)).
Context (Q_printed : ∀ m a t, Q (Printed m a t)).
Hint Resolve Q_log Q_console Q_printed : only_db.
Hint Extern 1 (_ ≠ CodeBreaker) => discriminate : only_db.

Lemma only_details f : only Q (details f).
Proof. unfold details. only_solve. Qed.
Hint Resolve only_details : only_db.

Lemma only_writeLog m a sev d : Q (LogLine sev m a) → only Q (writeLog m a sev d).
Proof. intros HQ. unfold writeLog. only_solve. Qed.
Hint Resolve only_writeLog : only_db.

(** The entry for a YAML error is never written: building its details
    raises first. *)
Lemma only_writeLog_yaml m a :
  only Q (writeLog m a CodeBreaker
            (Some {| code := 3; response := None; error := Some exc_object |})).
Proof.
  intros s r s' H. inversion H; subst. exists [].
  split; [now rewrite app_nil_r|constructor].
Qed.
Hint Resolve only_writeLog_yaml : only_db.

Lemma only_print m a : only Q (print m a).
Proof. unfold print. only_solve. Qed.
Hint Resolve only_print : only_db.

Lemma only_os_path_exists p : only Q (os_path_exists p).
Proof. unfold os_path_exists. only_solve. Qed.

Lemma only_os_path_isdir p : only Q (os_path_isdir p).
Proof. unfold os_path_isdir. only_solve. Qed.

Lemma only_open_read p : only Q (open_read p).
Proof. unfold open_read. only_solve. Qed.

Lemma only_os_path_getsize p : only Q (os_path_getsize w p).
Proof. unfold os_path_getsize. only_solve. Qed.

Lemma only_file_write p b wr : only Q (file_write w p b wr).
Proof. unfold file_write. only_solve. Qed.

Lemma only_path_join a b : only Q (path_join w a b).
Proof. unfold path_join. only_solve. Qed.

Lemma only_getitem {V} k (d : dict V) : only Q (getitem k d).
Proof. unfold getitem. only_solve. Qed.

Lemma only_delitem {V} k (d : dict V) : only Q (delitem k d).
Proof. unfold delitem. only_solve. Qed.

Lemma only_entry_keys e : only Q (entry_keys e).
Proof. unfold entry_keys. only_solve. Qed.

Lemma only_entry_getitem k e : only Q (entry_getitem k e).
Proof. unfold entry_getitem. destruct e; [apply only_getitem|only_solve]. Qed.

Hint Resolve only_os_path_exists only_os_path_isdir only_open_read
  only_os_path_getsize only_file_write only_path_join only_getitem
  only_delitem only_entry_keys only_entry_getitem : only_db.

Lemma only_and_chain e ks : only Q (and_chain e ks).
Proof. induction ks; simpl; only_solve. Qed.
Hint Resolve only_and_chain : only_db.

Lemma only_check_config c d : only Q (check_config c d).
Proof. unfold check_config. only_solve. Qed.
Hint Resolve only_check_config : only_db.

Lemma only_loadCredentials p : only Q (loadCredentials w p).
Proof. unfold loadCredentials. only_solve. Qed.

Lemma only_validateConfigPath p : only Q (validateConfigPath p).
Proof. unfold validateConfigPath. only_solve. Qed.

Lemma only_validateDownloadPath p : only Q (validateDownloadPath p).
Proof. unfold validateDownloadPath. only_solve. Qed.
Hint Resolve only_validateConfigPath only_validateDownloadPath
  only_loadCredentials : only_db.

Lemma only_purge d p i : only Q (purge w d p i).
Proof. unfold purge, re_compile. only_solve. Qed.
Hint Resolve only_purge : only_db.

Lemma only_getDefaultDownloadPath b : only Q (getDefaultDownloadPath w b).
Proof. unfold getDefaultDownloadPath. only_solve. Qed.
Hint Resolve only_getDefaultDownloadPath : only_db.

Lemma only_parse_option o a : only Q (parse_option o a).
Proof. unfold parse_option, exit. only_solve. Qed.
Hint Resolve only_parse_option : only_db.

Lemma only_parse_options argv : only Q (parse_options argv).
Proof. unfold parse_options, exit. only_solve. Qed.

Lemma only_extract x : only Q (extract x).
Proof. unfold extract. only_solve. Qed.
Hint Resolve only_parse_options only_extract : only_db.

Lemma only_unzip_one d i : only Q (unzip_one w d i).
Proof.
  unfold unzip_one, zipfile_is_zipfile, tarfile_is_tarfile,
    zipfile_extractall, tarfile_extractall.
  only_solve.
Qed.
Hint Resolve only_unzip_one : only_db.

Lemma only_unzipZippedFiles d l : only Q (unzipZippedFiles w d l).
Proof. unfold unzipZippedFiles. only_solve. Qed.

Lemma only_safeExit d l m : only Q (safeExit w d l m).
Proof. unfold safeExit. only_solve. Qed.
Hint Resolve only_unzipZippedFiles only_safeExit : only_db.

(** The FTP session, for a class of events that holds everything a session
    emits but, possibly, the connection itself and some of the fetches. *)
Context (Q_open : ∀ p, Q (FileOpen p)).
Context (Q_close : ∀ p, Q (FileClose p)).
Context (Q_sleep : Q Sleep).
Context (Q_login : ∀ u p, Q (FtpLogin u p)).
Context (Q_cwd : ∀ d, Q (FtpCwd d)).
Context (Q_list : Q FtpList).
Context (Q_nlst : Q FtpNlst).
Context (Q_quit : Q FtpQuit).
Hint Resolve Q_open Q_close Q_sleep Q_login Q_cwd Q_list Q_nlst Q_quit : only_db.

Lemma only_open_wb p : only Q (open_wb w p).
Proof. unfold open_wb. only_solve. Qed.

Lemma only_file_close p wr : only Q (file_close p wr).
Proof. unfold file_close. only_solve. Qed.

Lemma only_ftp_answer {A} (o : option A) : only Q (ftp_answer o).
Proof. unfold ftp_answer. only_solve. Qed.

Lemma only_disconnectFtp ftp h : only Q (disconnectFtp ftp h).
Proof. unfold disconnectFtp. only_solve. Qed.
Hint Resolve only_open_wb only_file_close only_ftp_answer only_disconnectFtp
  : only_db.

Lemma only_retrbinary rd filename path :
  Q (FtpRetr filename) → only Q (retrbinary w rd filename path).
Proof. intros HQ. unfold retrbinary. only_solve. Qed.

Lemma only_download_one rd d filename acc :
  (filename ≠ "." → filename ≠ ".." → Q (FtpRetr filename)) →
  only Q (download_one w rd d filename acc).
Proof.
  intros HQ. unfold download_one.
  destruct (String.eqb_spec filename "."); cbn [negb andb]; [only_solve|].
  destruct (String.eqb_spec filename ".."); cbn [negb andb]; [only_solve|].
  pose proof (only_retrbinary rd filename) as Hr.
  only_solve.
Qed.

Lemma only_downloadFiles ftp h src d :
  (∀ n, n ≠ "." → n ≠ ".." → Q (FtpRetr n)) →
  only Q (downloadFiles w ftp h src d).
Proof.
  intros HQ. unfold downloadFiles.
  pose proof (λ rd n acc, only_download_one rd d n acc (HQ n)) as Hd.
  only_solve.
Qed.

(** The whole driver, for a class that holds the connections and the fetches
    as well. *)
Context (Q_connect : ∀ h, Q (FtpConnect h)).
Context (Q_retr : ∀ n, Q (FtpRetr n)).
Hint Resolve Q_connect Q_retr : only_db.

Lemma only_connectToFTP e site d : only Q (connectToFTP w e site d).
Proof.
  unfold connectToFTP.
  pose proof (λ ftp h src, only_downloadFiles ftp h src d (λ n _ _, Q_retr n)) as Hd.
  only_solve.
Qed.
Hint Resolve only_connectToFTP : only_db.

Lemma only_process_site cfgs d u site acc :
  only Q (process_site w cfgs d u site acc).
Proof. unfold process_site. only_solve. Qed.
Hint Resolve only_process_site : only_db.

Lemma only_run_sites p b : only Q (run_sites w p b).
Proof. unfold run_sites. only_solve. Qed.

(** The functions that write fatal entries. *)
Context (Q_fatal : ∀ m a, Q (LogLine CodeBreaker m a)).
Hint Resolve Q_fatal : only_db.

Lemma only_not_found : only Q not_found_in_defaults.
Proof. unfold not_found_in_defaults, exit. only_solve. Qed.
Hint Resolve only_not_found : only_db.

Lemma only_getDefaultConfigPath : only Q (getDefaultConfigPath w).
Proof. unfold getDefaultConfigPath, exit. only_solve. Qed.
Hint Resolve only_getDefaultConfigPath : only_db.

Lemma only_resolve_paths a : only Q (resolve_paths w a).
Proof. unfold resolve_paths. only_solve. Qed.

Lemma only_validate_target a d : only Q (validate_target a d).
Proof. unfold validate_target, exit. only_solve. Qed.
Hint Resolve only_resolve_paths only_validate_target : only_db.

Lemma only_parseArgs argv : only Q (parseArgs w argv).
Proof. unfold parseArgs. only_solve. Qed.

End Locality.

Lemma ftp_events_app tr1 tr2 :
  ftp_events (tr1 ++ tr2) = ftp_events tr1 ++ ftp_events tr2.
Proof. apply filter_app. Qed.

Lemma ftp_events_local evs : Forall local_event evs → ftp_events evs = [].
Proof.
  induction 1 as [|e evs He _ IH]; [reflexivity|].
  unfold ftp_events in *. rewrite filter_cons. unfold local_event in He.
  destruct (decide (is_ftp e = true)); [congruence|assumption].
Qed.

Lemma local_event_log sev m a : local_event (LogLine sev m a).
Proof. reflexivity. Qed.
Lemma local_event_console m a : local_event (Console m a).
Proof. reflexivity. Qed.
Lemma local_event_printed m a t : local_event (Printed m a t).
Proof. reflexivity. Qed.

Lemma writeLog_not_connect m a sev d : only not_connect (writeLog m a sev d).
Proof. apply only_writeLog; intros; reflexivity. Qed.


Lemma ftp_answer_not_connect {A} (o : option A) : only not_connect (ftp_answer o).
Proof. apply only_ftp_answer. Qed.

Lemma downloadFiles_not_connect w ftp h src d :
  only not_connect (downloadFiles w ftp h src d).
Proof. apply only_downloadFiles; intros; reflexivity. Qed.

Lemma unzipZippedFiles_not_connect w d l :
  only not_connect (unzipZippedFiles w d l).
Proof. apply only_unzipZippedFiles; intros; reflexivity. Qed.

#[global] Hint Resolve writeLog_not_connect ftp_answer_not_connect
  downloadFiles_not_connect unzipZippedFiles_not_connect : only_db.

(** Nothing in [parseArgs] talks to an FTP server. *)
Lemma parseArgs_local w argv : only local_event (parseArgs w argv).
Proof.
  apply only_parseArgs;
    auto using local_event_log, local_event_console, local_event_printed.
Qed.

Lemma dict_has_true {V} k (d : dict V) : dict_has k d = true ↔ k ∈ dict_keys d.
Proof.
  unfold dict_has. rewrite existsb_exists. split.
  - intros (x & Hin & Heq). apply String.eqb_eq in Heq. subst.
    now apply list_elem_of_In.
  - intros Hin. exists k. split; [now apply list_elem_of_In|apply String.eqb_refl].
Qed.

Lemma dict_has_false {V} k (d : dict V) : dict_has k d = false ↔ k ∉ dict_keys d.
Proof.
  rewrite <- dict_has_true. destruct (dict_has k d); split; congruence.
Qed.

Lemma writeLog_fatal_1 m a s :
  writeLog m a CodeBreaker (data_code 1) s
  = (Ret tt,
     if verbose s
     then add_event (Console m a) (add_event (LogLine CodeBreaker m a) s)
     else add_event (LogLine CodeBreaker m a) s).
Proof.
  unfold writeLog, bind, emit, modify, get_state, ret. simpl.
  destruct (verbose s); reflexivity.
Qed.

(** C4. When the site selector names a site that is absent from the catalog
    [loadCredentials] returned, [main] ends in [exit()], the fatal entry is
    in the log, and no FTP event has been added to the trace: the run halts
    before any network connection is attempted. *)
Theorem unknown_site_halts_before_network w argv s a s1 paths s2 cat s3 :
  parse_options argv s = (Ret a, s1) →
  resolve_paths w a s1 = (Ret paths, s2) →
  loadCredentials w paths.1 s2 = (Ret cat, s3) →
  targetSiteSpecified a = true →
  targetSite a ∉ dict_keys cat →
  ∃ s4,
    main w argv s = (Raise SystemExit, s4)
    ∧ ftp_events (trace s4) = ftp_events (trace s)
    ∧ fs s4 = fs s3
    ∧ LogLine CodeBreaker
        "Credentials of the target ftp site ({}) were not present in the config."
        [AStr (targetSite a)] ∈ trace s4.
Proof.
  intros H1 H2 H3 Hspec Hnot.
  apply dict_has_false in Hnot.
  assert (Hv : ∃ s4, validate_target a cat s3 = (Raise SystemExit, s4)
                ∧ fs s4 = fs s3
                ∧ LogLine CodeBreaker
                    "Credentials of the target ftp site ({}) were not present in the config."
                    [AStr (targetSite a)] ∈ trace s4).
  { unfold validate_target. rewrite Hspec, Hnot. simpl.
    unfold bind, exit, raise. rewrite !writeLog_fatal_1.
    eexists. split; [reflexivity|].
    destruct s3 as [f3 t3 [|]]; simpl; split; try reflexivity;
      rewrite !elem_of_app, !list_elem_of_singleton; tauto. }
  destruct Hv as (s4 & Hv & Hfs & Hlog).
  assert (Hp : parseArgs w argv s = (Raise SystemExit, s4)).
  { unfold parseArgs. rewrite (bind_Ret _ _ _ _ _ H1).
    rewrite (bind_Ret _ _ _ _ _ H2). rewrite (bind_Ret _ _ _ _ _ H3).
    now rewrite (bind_Raise _ _ _ _ _ Hv). }
  exists s4. repeat split; try assumption.
  - unfold main. now rewrite (bind_Raise _ _ _ _ _ Hp).
  - apply parseArgs_local in Hp as (evs & E & F).
    rewrite E, ftp_events_app, (ftp_events_local _ F). apply app_nil_r.
Qed.

(** * loadCredentials *)

Lemma dict_get_None {V} k (d : dict V) : dict_get k d = None ↔ dict_has k d = false.
Proof.
  unfold dict_has, dict_keys. induction d as [|[k' v] d IH]; simpl.
  - tauto.
  - destruct (String.eqb k k'); simpl; [split; discriminate|exact IH].
Qed.

Lemma dict_get_Some_has {V} k (d : dict V) v : dict_get k d = Some v → dict_has k d = true.
Proof.
  intros H. destruct (dict_has k d) eqn:E; [reflexivity|].
  apply dict_get_None in E. congruence.
Qed.

Lemma dict_has_remove {V} k (d : dict V) : dict_has k (dict_remove k d) = false.
Proof.
  unfold dict_has, dict_remove, dict_keys. induction d as [|[k' v] d IH]; simpl.
  - reflexivity.
  - destruct (String.eqb k k') eqn:E; simpl; [exact IH|now rewrite E].
Qed.

Lemma dict_get_remove_ne {V} k k' (d : dict V) :
  k ≠ k' → dict_get k' (dict_remove k d) = dict_get k' d.
Proof.
  intros Hne. unfold dict_remove. induction d as [|[k0 v] d IH]; simpl.
  - reflexivity.
  - destruct (String.eqb k k0) eqn:E; simpl.
    + apply String.eqb_eq in E. subst k0.
      destruct (String.eqb k' k) eqn:E'; [|exact IH].
      apply String.eqb_eq in E'. congruence.
    + now rewrite IH.
Qed.

Lemma and_chain_eq f ks s : and_chain (EMap f) ks s = (and_chain_pure f ks, s).
Proof.
  induction ks as [|k ks IH]; simpl; [reflexivity|].
  unfold bind, getitem. destruct (dict_get k f) as [v|]; simpl; [|reflexivity].
  destruct (truthy v); [exact IH|reflexivity].
Qed.

Lemma and_chain_complete f :
  has_required f = true →
  and_chain_pure f required_keys = Ret (well_formed (EMap f)).
Proof.
  unfold has_required, required_keys. simpl. rewrite !andb_true_iff.
  intros (H1 & H2 & H3 & H4 & _).
  destruct (dict_get "site" f) as [v1|] eqn:E1;
    [|apply dict_get_None in E1; congruence].
  destruct (dict_get "user" f) as [v2|] eqn:E2;
    [|apply dict_get_None in E2; congruence].
  destruct (dict_get "password" f) as [v3|] eqn:E3;
    [|apply dict_get_None in E3; congruence].
  destruct (dict_get "remote_path" f) as [v4|] eqn:E4;
    [|apply dict_get_None in E4; congruence].
  destruct (truthy v1), (truthy v2), (truthy v3), (truthy v4); reflexivity.
Qed.

Lemma and_chain_incomplete f :
  has_required f = false →
  and_chain_pure f required_keys = Raise KeyError
  ∨ and_chain_pure f required_keys = Ret false.
Proof.
  unfold has_required, required_keys. simpl. intros H.
  destruct (dict_get "site" f) as [v1|] eqn:E1; [|now left].
  destruct (truthy v1); [|now right].
  destruct (dict_get "user" f) as [v2|] eqn:E2; [|now left].
  destruct (truthy v2); [|now right].
  destruct (dict_get "password" f) as [v3|] eqn:E3; [|now left].
  destruct (truthy v3); [|now right].
  destruct (dict_get "remote_path" f) as [v4|] eqn:E4; [|now left].
  apply dict_get_Some_has in E1, E2, E3, E4.
  rewrite E1, E2, E3, E4 in H. discriminate H.
Qed.

Lemma writeLog_plain m a sev s :
  sev ≠ CodeBreaker → writeLog m a sev None s = (Ret tt, logged sev m a s).
Proof.
  intros H. unfold writeLog, logged, bind, emit, modify, get_state, ret.
  destruct sev; try congruence; simpl; destruct (verbose s); reflexivity.
Qed.

Lemma logged_fs sev m a s : fs (logged sev m a s) = fs s.
Proof. unfold logged. destruct (verbose s); reflexivity. Qed.

Lemma logged_verbose sev m a s : verbose (logged sev m a s) = verbose s.
Proof. unfold logged. destruct s as [? ? []]; reflexivity. Qed.

Lemma logged_elem sev m a s :
  ∃ evs, trace (logged sev m a s) = trace s ++ evs ∧ LogLine sev m a ∈ evs.
Proof.
  unfold logged. destruct (verbose s); cbn [add_event trace].
  - exists [LogLine sev m a; Console m a]. rewrite <- app_assoc.
    split; [reflexivity|]. apply elem_of_cons. now left.
  - exists [LogLine sev m a]. split; [reflexivity|]. apply elem_of_cons. now left.
Qed.

Lemma logged_shape sev m a s :
  ∃ evs, trace (logged sev m a s) = trace s ++ evs
         ∧ Forall (λ e, e = LogLine sev m a ∨ e = Console m a) evs.
Proof.
  unfold logged. destruct (verbose s); cbn [add_event trace].
  - exists [LogLine sev m a; Console m a]. rewrite <- app_assoc.
    split; [reflexivity|]. apply Forall_cons. split; [now left|].
    apply Forall_cons. split; [now right|constructor].
  - exists [LogLine sev m a]. split; [reflexivity|].
    apply Forall_cons. split; [now left|constructor].
Qed.


Lemma writeLog_fs m a sev d s r s' : writeLog m a sev d s = (r, s') → fs s' = fs s.
Proof.
  unfold writeLog, bind, emit, modify, get_state, ret, raise, details.
  destruct sev; simpl;
    try (destruct (verbose s); intros H; inversion H; reflexivity).
  destruct d as [d|]; [|intros H; inversion H; reflexivity].
  destruct (code d =? 2).
  - destruct (response d) as [[]|]; simpl;
      try (destruct (verbose s)); intros H; inversion H; reflexivity.
  - destruct (code d =? 3).
    + destruct (error d) as [[]|]; simpl;
        try (destruct (verbose s)); intros H; inversion H; reflexivity.
    + simpl. destruct (verbose s); intros H; inversion H; reflexivity.
Qed.

(** An entry that lacks a required key: the first test removes it, and the
    second test, which runs all the same, ends in [KeyError], either on the
    missing key or on deleting the entry once more. *)
Lemma check_config_incomplete config cfgs f s :
  dict_get config cfgs = Some (EMap f) →
  has_required f = false →
  ∃ s', check_config config cfgs s = (Raise KeyError, s') ∧ fs s' = fs s.
Proof.
  intros Hget Hreq. unfold check_config.
  erewrite bind_Ret by (unfold getitem; rewrite Hget; reflexivity).
  erewrite bind_Ret by reflexivity.
  change (forallb (λ item, existsb (String.eqb item) (dict_keys f)) required_keys)
    with (has_required f).
  rewrite Hreq. cbn [negb].
  erewrite bind_Ret.
  2:{ erewrite bind_Ret by (apply writeLog_plain; discriminate).
      unfold delitem. rewrite (dict_get_Some_has _ _ _ Hget). reflexivity. }
  destruct (and_chain_incomplete f Hreq) as [E|E].
  - erewrite bind_Raise by (rewrite and_chain_eq, E; reflexivity).
    eexists. split; [reflexivity|apply logged_fs].
  - erewrite bind_Ret by (rewrite and_chain_eq, E; reflexivity).
    cbn [negb].
    erewrite bind_Ret by (apply writeLog_plain; discriminate).
    unfold delitem. rewrite dict_has_remove.
    eexists. split; [reflexivity|now rewrite !logged_fs].
Qed.

(** An entry with the four keys is kept when all four values are true and
    removed otherwise. *)
Lemma check_config_complete config cfgs f s :
  dict_get config cfgs = Some (EMap f) →
  has_required f = true →
  ∃ s',
    check_config config cfgs s
    = (Ret (if well_formed (EMap f) then cfgs else dict_remove config cfgs), s')
    ∧ fs s' = fs s.
Proof.
  intros Hget Hreq. unfold check_config.
  erewrite bind_Ret by (unfold getitem; rewrite Hget; reflexivity).
  erewrite bind_Ret by reflexivity.
  change (forallb (λ item, existsb (String.eqb item) (dict_keys f)) required_keys)
    with (has_required f).
  rewrite Hreq. cbn [negb].
  erewrite bind_Ret by reflexivity.
  erewrite bind_Ret
    by (rewrite and_chain_eq, (and_chain_complete f Hreq); reflexivity).
  cbv beta. destruct (well_formed (EMap f)); cbn [negb].
  - eexists. split; reflexivity.
  - erewrite bind_Ret by (apply writeLog_plain; discriminate).
    unfold delitem. rewrite (dict_get_Some_has _ _ _ Hget).
    eexists. split; [reflexivity|apply logged_fs].
Qed.

Lemma check_config_Ret_inv config cfgs s cfgs' s' :
  check_config config cfgs s = (Ret cfgs', s') →
  ∃ f, dict_get config cfgs = Some (EMap f) ∧ has_required f = true
       ∧ cfgs' = (if well_formed (EMap f) then cfgs else dict_remove config cfgs)
       ∧ fs s' = fs s.
Proof.
  intros H. destruct (dict_get config cfgs) as [[f|v]|] eqn:Hget.
  - destruct (has_required f) eqn:Hreq.
    + destruct (check_config_complete config cfgs f s Hget Hreq) as (s1 & E & Hfs).
      rewrite E in H. inversion H; subst. eauto.
    + destruct (check_config_incomplete config cfgs f s Hget Hreq) as (s1 & E & _).
      rewrite E in H. discriminate H.
  - unfold check_config in H.
    erewrite bind_Ret in H by (unfold getitem; rewrite Hget; reflexivity).
    discriminate H.
  - unfold check_config in H.
    erewrite bind_Raise in H by (unfold getitem; rewrite Hget; reflexivity).
    discriminate H.
Qed.

Lemma elem_of_dict_keys {V} k (d : dict V) :
  k ∈ dict_keys d ↔ ∃ v, (k, v) ∈ d.
Proof.
  unfold dict_keys. rewrite list_elem_of_In, in_map_iff. split.
  - intros ([k' v] & <- & Hin). exists v. now apply list_elem_of_In.
  - intros (v & Hin). exists (k, v). split; [reflexivity|now apply list_elem_of_In].
Qed.

Lemma dict_get_elem_of {V} k (v : V) d :
  NoDup (dict_keys d) → (k, v) ∈ d → dict_get k d = Some v.
Proof.
  unfold dict_keys. induction d as [|[k' v'] d IH]; simpl; intros Hnd Hin.
  - now apply elem_of_nil in Hin.
  - apply NoDup_cons in Hnd as [Hk' Hnd].
    apply elem_of_cons in Hin as [Heq|Hin].
    + inversion Heq; subst. now rewrite String.eqb_refl.
    + destruct (String.eqb k k') eqn:E.
      * apply String.eqb_eq in E. subst k'. exfalso. apply Hk'.
        apply elem_of_dict_keys. eauto.
      * auto.
Qed.

(** As soon as the file holds one entry that is no mapping or lacks a
    required key, the loop of [loadCredentials] cannot come to its end. *)
Lemma load_loop_raises d ks :
  ∀ cfgs s,
    NoDup ks →
    (∀ k, k ∈ ks → dict_get k cfgs = dict_get k d) →
    (∃ k e, k ∈ ks ∧ dict_get k d = Some e ∧ entry_complete e = false) →
    ∃ e s', for_each check_config ks cfgs s = (Raise e, s').
Proof.
  induction ks as [|x ks IH]; intros cfgs s Hnd Hsame (k & e & Hin & Hget & Hreq).
  - now apply elem_of_nil in Hin.
  - apply NoDup_cons in Hnd as [Hx Hnd]. simpl.
    destruct (check_config x cfgs s) as [[cfgs'|ex] s1] eqn:E.
    2:{ erewrite bind_Raise by eassumption. eauto. }
    erewrite bind_Ret by eassumption.
    apply check_config_Ret_inv in E as (fx & Hgx & Hrx & -> & _).
    apply elem_of_cons in Hin as [->|Hin].
    { rewrite Hsame in Hgx by (apply elem_of_cons; now left).
      rewrite Hget in Hgx. inversion Hgx; subst e. simpl in Hreq. congruence. }
    apply IH; [assumption| |eauto].
    intros k' Hk'. rewrite <- Hsame by (apply elem_of_cons; now right).
    destruct (well_formed (EMap fx)); [reflexivity|].
    apply dict_get_remove_ne. intros ->. contradiction.
Qed.

Lemma dict_remove_fresh {V} k (d : dict V) : k ∉ dict_keys d → dict_remove k d = d.
Proof.
  unfold dict_remove, dict_keys. induction d as [|[k' v] d IH]; simpl; intros H.
  - reflexivity.
  - apply not_elem_of_cons in H as [Hne H].
    destruct (String.eqb k k') eqn:E.
    + apply String.eqb_eq in E. contradiction.
    + simpl. now rewrite IH.
Qed.

Lemma dict_remove_app {V} k (d1 d2 : dict V) :
  dict_remove k (d1 ++ d2) = dict_remove k d1 ++ dict_remove k d2.
Proof. apply List.filter_app. Qed.

Lemma dict_keys_filter_subseteq {V} (P : string * V → bool) (d : dict V) k :
  k ∈ dict_keys (List.filter P d) → k ∈ dict_keys d.
Proof.
  rewrite !elem_of_dict_keys. intros (v & Hin). exists v.
  apply list_elem_of_In in Hin. apply List.filter_In in Hin as [Hin _].
  now apply list_elem_of_In.
Qed.

Lemma dict_get_app_fresh {V} k (d1 d2 : dict V) :
  k ∉ dict_keys d1 → dict_get k (d1 ++ d2) = dict_get k d2.
Proof.
  unfold dict_keys. induction d1 as [|[k' v] d1 IH]; simpl; intros H.
  - reflexivity.
  - apply not_elem_of_cons in H as [Hne H].
    destruct (String.eqb k k') eqn:E.
    + apply String.eqb_eq in E. contradiction.
    + auto.
Qed.

(** When every entry has the four keys, the loop keeps exactly the entries
    whose four values are true, in the order of the file. *)
Lemma load_loop_complete rest :
  ∀ seen s,
    NoDup (dict_keys (seen ++ rest)) →
    Forall (λ kv, entry_complete kv.2 = true) rest →
    ∃ s',
      for_each check_config (dict_keys rest)
        (List.filter (λ kv, well_formed kv.2) seen ++ rest) s
      = (Ret (List.filter (λ kv, well_formed kv.2) (seen ++ rest)), s')
      ∧ fs s' = fs s.
Proof.
  induction rest as [|[k e] rest IH]; intros seen s Hnd Hall.
  - simpl. rewrite !app_nil_r. eexists. split; reflexivity.
  - apply Forall_cons in Hall as [He Hall]. simpl in He.
    destruct e as [f|v]; [|discriminate He].
    assert (Hnd' : NoDup (dict_keys ((seen ++ [(k, EMap f)]) ++ rest)))
      by now rewrite <- app_assoc.
    assert (Hk : (k ∉ dict_keys seen) ∧ (k ∉ dict_keys rest)).
    { unfold dict_keys in *. rewrite map_app in Hnd. simpl in Hnd.
      apply NoDup_app in Hnd as (_ & Hd & Hr).
      apply NoDup_cons in Hr as [Hr _]. split; [|assumption].
      intros Hin. apply (Hd k Hin). apply elem_of_cons. now left. }
    destruct Hk as [Hkd Hkr].
    assert (Hkf : k ∉ dict_keys (List.filter (λ kv, well_formed kv.2) seen)).
    { intros Hin. apply Hkd. eapply dict_keys_filter_subseteq; eauto. }
    assert (Hget : dict_get k (List.filter (λ kv, well_formed kv.2) seen
                               ++ (k, EMap f) :: rest) = Some (EMap f)).
    { rewrite dict_get_app_fresh by assumption. simpl.
      now rewrite String.eqb_refl. }
    destruct (check_config_complete _ _ _ s Hget He) as (s1 & E & Hfs).
    destruct (IH (seen ++ [(k, EMap f)]) s1 Hnd' Hall) as (s2 & E2 & Hfs2).
    exists s2. split; [|congruence].
    change (dict_keys ((k, EMap f) :: rest)) with (k :: dict_keys rest).
    cbn [for_each]. erewrite bind_Ret by exact E.
    rewrite <- app_assoc in E2. change ([(k, EMap f)] ++ rest) with ((k, EMap f) :: rest) in E2.
    rewrite <- E2. f_equal.
    rewrite List.filter_app. cbn [List.filter snd].
    destruct (well_formed (EMap f)).
    + now rewrite <- app_assoc.
    + rewrite app_nil_r, dict_remove_app. f_equal.
      * now apply dict_remove_fresh.
      * unfold dict_remove at 1. cbn [List.filter fst]. rewrite String.eqb_refl.
        cbn [negb]. now apply dict_remove_fresh.
Qed.

Section LoadCredentials.

Context (w : World).
Context (ftpPath content : string) (d : dict yentry) (s : state).
Context (Hfile : fs s !! ftpPath = Some (File content)).
Context (Hyaml : yaml_safe_load w content = Some (DMap d)).
Context (Hkeys : NoDup (dict_keys d)).

Lemma loadCredentials_loop :
  loadCredentials w ftpPath s = for_each check_config (dict_keys d) d s.
Proof.
  unfold loadCredentials.
  erewrite bind_Ret by (unfold open_read; erewrite bind_Ret by reflexivity;
                        cbv beta; rewrite Hfile; reflexivity).
  rewrite Hyaml. erewrite bind_Ret by reflexivity. reflexivity.
Qed.

(** Entries without a value, or with an empty one, are dropped and all the
    others are kept, provided that every entry of the file has the four
    keys. *)
Lemma loadCredentials_complete :
  Forall (λ kv, entry_complete kv.2 = true) d →
  ∃ s',
    loadCredentials w ftpPath s
    = (Ret (List.filter (λ kv, well_formed kv.2) d), s')
    ∧ fs s' = fs s.
Proof.
  intros Hall. rewrite loadCredentials_loop.
  apply (load_loop_complete d [] s); assumption.
Qed.

(** With an entry that lacks one of the four keys, [loadCredentials] returns
    no catalog at all. *)
Lemma loadCredentials_incomplete k e :
  (k, e) ∈ d → entry_complete e = false →
  ∃ ex s', loadCredentials w ftpPath s = (Raise ex, s').
Proof.
  intros Hin Hreq. rewrite loadCredentials_loop.
  apply (load_loop_raises d); [assumption|reflexivity|].
  exists k, e. repeat split; [|now apply dict_get_elem_of|assumption].
  apply elem_of_dict_keys. eauto.
Qed.

(** Whenever [loadCredentials] returns a catalog, it is the file's entries
    that are well formed, in the order of the file; each of them has the
    four keys. *)
Lemma loadCredentials_Ret_inv cat s' :
  loadCredentials w ftpPath s = (Ret cat, s') →
  cat = List.filter (λ kv, well_formed kv.2) d
  ∧ Forall (λ kv, entry_complete kv.2 = true) cat.
Proof.
  intros H.
  assert (Hall : Forall (λ kv, entry_complete kv.2 = true) d).
  { apply Forall_forall. intros [k e] Hin. simpl.
    destruct (entry_complete e) eqn:Hc; [reflexivity|].
    destruct (loadCredentials_incomplete k e Hin Hc) as (ex & s1 & E).
    rewrite E in H. discriminate H. }
  destruct (loadCredentials_complete Hall) as (s1 & E & _).
  rewrite E in H. inversion H; subst. split; [reflexivity|].
  apply Forall_forall. intros kv Hin.
  apply list_elem_of_In, List.filter_In in Hin as [Hin _].
  rewrite Forall_forall in Hall. apply Hall. now apply list_elem_of_In.
Qed.

End LoadCredentials.

(** * The driver: which sites are contacted *)



Lemma logged_trace sev m a s :
  ∃ evs, trace (logged sev m a s) = trace s ++ evs
         ∧ Forall local_event evs ∧ Forall not_connect evs
         ∧ (sev ≠ CodeBreaker → Forall (λ e, is_fatal e = false) evs).
Proof.
  unfold logged. destruct (verbose s); simpl.
  - exists [LogLine sev m a; Console m a]. rewrite <- app_assoc.
    split; [reflexivity|]. split; [repeat constructor|].
    split; [repeat constructor|]. intros Hs.
    repeat constructor. destruct sev; first [reflexivity | congruence].
  - exists [LogLine sev m a].
    split; [reflexivity|]. split; [repeat constructor|].
    split; [repeat constructor|]. intros Hs.
    repeat constructor. destruct sev; first [reflexivity | congruence].
Qed.


Section Driver.

Context (w : World) (cfgs : dict yentry) (out : option string) (unzip : bool).

(** What [connectToFTP] has done when the connection is refused. *)
Lemma connectToFTP_refused f site host user password remote_path s :
  dict_get "site" f = Some host → dict_get "user" f = Some user →
  dict_get "password" f = Some password →
  dict_get "remote_path" f = Some remote_path →
  ftp_connect w host = None →
  connectToFTP w (EMap f) site out s
  = (Raise FTPError,
     add_event (FtpConnect host)
       (logged Normal "Connecting to {} at host {}..."
          [AStr site; AVal host] s)).
Proof.
  intros H1 H2 H3 H4 Hc. unfold connectToFTP, entry_getitem, getitem.
  rewrite H1, H2, H3, H4.
  do 4 (erewrite bind_Ret by reflexivity).
  erewrite bind_Ret by (apply writeLog_plain; discriminate).
  erewrite bind_Ret by reflexivity.
  erewrite bind_Raise by (rewrite Hc; reflexivity). reflexivity.
Qed.

(** ... and when the server turns the login down. *)
Lemma connectToFTP_login_refused f site host user password remote_path ftp s :
  dict_get "site" f = Some host → dict_get "user" f = Some user →
  dict_get "password" f = Some password →
  dict_get "remote_path" f = Some remote_path →
  ftp_connect w host = Some ftp →
  login_ok ftp user (py_str password) = false →
  connectToFTP w (EMap f) site out s
  = (Raise FTPError,
     add_event (FtpLogin user (py_str password))
       (add_event (FtpConnect host)
          (logged Normal "Connecting to {} at host {}..."
             [AStr site; AVal host] s))).
Proof.
  intros H1 H2 H3 H4 Hc Hl. unfold connectToFTP, entry_getitem, getitem.
  rewrite H1, H2, H3, H4.
  do 4 (erewrite bind_Ret by reflexivity).
  erewrite bind_Ret by (apply writeLog_plain; discriminate).
  erewrite bind_Ret by reflexivity.
  erewrite bind_Ret by (rewrite Hc; reflexivity).
  erewrite bind_Ret by reflexivity.
  erewrite bind_Raise by (rewrite Hl; reflexivity). reflexivity.
Qed.


End Driver.

Lemma dict_get_of_key {V} k (d : dict V) :
  k ∈ dict_keys d → ∃ v, dict_get k d = Some v ∧ (k, v) ∈ d.
Proof.
  unfold dict_keys. induction d as [|[k' v'] d IH]; simpl; intros H.
  - now apply elem_of_nil in H.
  - destruct (String.eqb k k') eqn:E.
    + apply String.eqb_eq in E. subst k'. exists v'. split; [reflexivity|].
      apply elem_of_cons. now left.
    + apply elem_of_cons in H as [->|H]; [now rewrite String.eqb_refl in E|].
      destruct (IH H) as (v & Hg & Hin). exists v. split; [assumption|].
      apply elem_of_cons. now right.
Qed.

Section SiteLoop.

Context (w : World) (cfgs : dict yentry) (out : option string) (unzip : bool).



End SiteLoop.

(** * The claims on the configuration and on the driver *)

(** C1 (the code departs from the claim).  The file holds the well-formed
    entry [siteA] and the entry [siteB], which has no [user].  The first test
    of the loop logs the warning and removes [siteB]; the second test is not
    skipped, reads [site['user']] and raises [KeyError]: [loadCredentials]
    returns no catalog, where the claim asks for the catalog without
    [siteB]. *)
Theorem loadCredentials_missing_key_KeyError :
  let r := loadCredentials (demo_world (Some (DMap site_without_user)))
             "/work/ftp.yaml" demo_state in
  r.1 = Raise KeyError
  ∧ trace r.2
    = [LogLine Warning
         "Key missing from {} site info. Removing faulty config..."
         [AStr "siteB"]].
Proof. vm_compute. split; reflexivity. Qed.

(** C2, as stated, fails: with two selected sites and the host of the first
    one down, [main] ends with the uncaught [FTPError]; the second site,
    whose server is up, is never contacted and no summary is printed. *)
Lemma site_failure_not_isolated :
  let w := demo_world (Some (DMap first_site_down)) in
  let r := main w (Some []) demo_state in
  target_sites first_site_down ".*_.*" = ["siteA"; "siteB"]
  ∧ site_host first_site_down "siteB" = Some (PStr "ftp.example.com")
  ∧ r.1 = Raise FTPError
  ∧ connects (trace r.2) = [PStr "down.example.com"]
  ∧ Forall (λ e, match e with Printed _ _ _ => False | _ => True end)
      (trace r.2).
Proof. vm_compute. repeat split; repeat constructor. Qed.

(** What the loop over the sites does when it reaches a site whose
    connection is refused or whose login is turned down. *)
Lemma site_loop_aborts w cfgs out unzip pre site rest acc s acc1 s1
    f host user password remote_path :
  for_each (process_site w cfgs out unzip) pre acc s = (Ret acc1, s1) →
  dict_get site cfgs = Some (EMap f) →
  dict_get "site" f = Some host → dict_get "user" f = Some user →
  dict_get "password" f = Some password →
  dict_get "remote_path" f = Some remote_path →
  (ftp_connect w host = None
   ∨ ∃ ftp, ftp_connect w host = Some ftp
            ∧ login_ok ftp user (py_str password) = false) →
  ∃ s2 evs,
    for_each (process_site w cfgs out unzip) (pre ++ site :: rest) acc s
    = (Raise FTPError, s2)
    ∧ fs s2 = fs s1
    ∧ trace s2 = trace s1 ++ evs
    ∧ (ftp_events evs = [FtpConnect host]
       ∨ ftp_events evs = [FtpConnect host; FtpLogin user (py_str password)]).
Proof.
  intros Hpre Hget H1 H2 H3 H4 Hfail.
  destruct (logged_trace Normal "Connecting to {} at host {}..."
              [AStr site; AVal host] s1) as (ev0 & E0 & F0 & _).
  rewrite for_each_app. erewrite bind_Ret by exact Hpre.
  cbn [for_each]. unfold process_site at 1.
  destruct Hfail as [Hc|(ftp & Hc & Hl)].
  - erewrite bind_Raise.
    2:{ erewrite bind_Ret by (unfold getitem; rewrite Hget; reflexivity).
        erewrite bind_Raise; [reflexivity|].
        eapply connectToFTP_refused; eassumption. }
    eexists _, (ev0 ++ [FtpConnect host]).
    split; [reflexivity|]. split; [apply logged_fs|].
    split; [cbn [add_event trace]; rewrite E0; now rewrite <- app_assoc|].
    left. now rewrite ftp_events_app, (ftp_events_local _ F0).
  - erewrite bind_Raise.
    2:{ erewrite bind_Ret by (unfold getitem; rewrite Hget; reflexivity).
        erewrite bind_Raise; [reflexivity|].
        eapply connectToFTP_login_refused; eassumption. }
    eexists _, (ev0 ++ [FtpConnect host; FtpLogin user (py_str password)]).
    split; [reflexivity|]. split; [apply logged_fs|].
    split; [cbn [add_event trace]; rewrite E0; now rewrite <- !app_assoc|].
    right. now rewrite ftp_events_app, (ftp_events_local _ F0).
Qed.

(** [run_sites] is the loop over the sites and the summary, run once the six
    lines are in the log. *)
Lemma run_sites_announced w p b s :
  run_sites w p b s
  = (allFilesDownloaded <-
       for_each
         (process_site w (p_ftpConfigs p) (p_outputDIRPath p) (p_unzipFiles p))
         (target_sites (p_ftpConfigs p) (p_targetSite p)) [] ;;
     safeExit w (p_outputDIRPath p) allFilesDownloaded "execution-complete")
      (announced p b s).
Proof.
  unfold run_sites, announced. cbv zeta.
  do 6 (erewrite bind_Ret by (apply writeLog_plain; discriminate)).
  reflexivity.
Qed.

Lemma logged_not_printed sev m a s :
  ∃ evs, trace (logged sev m a s) = trace s ++ evs ∧ Forall not_printed evs.
Proof.
  destruct (logged_shape sev m a s) as (evs & E & F).
  exists evs. split; [exact E|].
  eapply Forall_impl; [exact F|]. intros e [->| ->]; exact I.
Qed.

Lemma announced_not_printed p b s :
  ∃ evs, trace (announced p b s) = trace s ++ evs ∧ Forall not_printed evs.
Proof.
  unfold announced.
  repeat match goal with
         | |- context [logged ?sev ?m ?a ?st] =>
             lazymatch goal with
             | H : trace (logged sev m a st) = _ |- _ => fail
             | _ => destruct (logged_not_printed sev m a st) as (? & ? & ?)
             end
         end.
  eexists. split.
  - repeat match goal with H : trace _ = _ |- _ => rewrite H; clear H end.
    rewrite <- !app_assoc. reflexivity.
  - repeat (apply Forall_app; split); assumption.
Qed.

Lemma site_loop_not_printed w cfgs out unzip sites acc :
  only not_printed (for_each (process_site w cfgs out unzip) sites acc).
Proof.
  apply only_for_each. intros site acc'.
  apply only_process_site; intros; exact I.
Qed.

(** C2, amended.  [parseArgs] has returned, the sites selected before [site]
    have been dealt with, and the connection to [site] is refused or its
    login is turned down.  Then [main] ends with the [FTPError] of that
    site, uncaught: the files on disk are as the sites before left them, the
    only FTP traffic after them is the failed attempt itself, so that no
    later site is contacted, and nothing is printed after [parseArgs], the
    summary no more than anything else. *)
Theorem site_failure_aborts_run w argv s p s0 pre site rest acc1 s1
    f host user password remote_path :
  parseArgs w argv s = (Ret p, s0) →
  target_sites (p_ftpConfigs p) (p_targetSite p) = pre ++ site :: rest →
  for_each
    (process_site w (p_ftpConfigs p) (p_outputDIRPath p) (p_unzipFiles p))
    pre [] (announced p true s0)
  = (Ret acc1, s1) →
  dict_get site (p_ftpConfigs p) = Some (EMap f) →
  dict_get "site" f = Some host → dict_get "user" f = Some user →
  dict_get "password" f = Some password →
  dict_get "remote_path" f = Some remote_path →
  (ftp_connect w host = None
   ∨ ∃ ftp, ftp_connect w host = Some ftp
            ∧ login_ok ftp user (py_str password) = false) →
  ∃ s2 evs,
    main w argv s = (Raise FTPError, s2)
    ∧ fs s2 = fs s1
    ∧ trace s2 = trace s1 ++ evs
    ∧ (ftp_events evs = [FtpConnect host]
       ∨ ftp_events evs = [FtpConnect host; FtpLogin user (py_str password)])
    ∧ ∃ evs0, trace s2 = trace s0 ++ evs0 ∧ Forall not_printed evs0.
Proof.
  intros Hparse Htargets Hpre Hget H1 H2 H3 H4 Hfail.
  destruct (site_loop_aborts w (p_ftpConfigs p) (p_outputDIRPath p)
              (p_unzipFiles p) pre site rest [] (announced p true s0) acc1 s1
              f host user password remote_path Hpre Hget H1 H2 H3 H4 Hfail)
    as (s2 & evs & E & F & T & Hftp).
  exists s2, evs.
  split.
  { unfold main. erewrite bind_Ret by exact Hparse. cbv zeta.
    rewrite run_sites_announced, Htargets.
    erewrite bind_Raise by exact E. reflexivity. }
  split; [exact F|]. split; [exact T|]. split; [exact Hftp|].
  destruct (announced_not_printed p true s0) as (eva & Ta & Fa).
  destruct (site_loop_not_printed w (p_ftpConfigs p) (p_outputDIRPath p)
              (p_unzipFiles p) (pre ++ site :: rest) [] _ _ _ E)
    as (evl & Tl & Fl).
  exists (eva ++ evl). split.
  - rewrite Tl, Ta. now rewrite app_assoc.
  - now apply Forall_app.
Qed.

(** Applying the amended C2 to the example where the first host is down. *)
Lemma site_failure_aborts_run_witness :
  ∃ s2 evs,
    main (demo_world (Some (DMap first_site_down))) (Some []) demo_state
    = (Raise FTPError, s2)
    ∧ fs s2
      = fs (announced
              (mkParsed "/work/ftp.yaml" (Some "/home/u") false false false
                 first_site_down ".*_.*")
              true
              (parseArgs (demo_world (Some (DMap first_site_down))) (Some [])
                 demo_state).2)
    ∧ trace s2
      = trace (announced
                 (mkParsed "/work/ftp.yaml" (Some "/home/u") false false false
                    first_site_down ".*_.*")
                 true
                 (parseArgs (demo_world (Some (DMap first_site_down)))
                    (Some []) demo_state).2)
        ++ evs
    ∧ (ftp_events evs = [FtpConnect (PStr "down.example.com")]
       ∨ ftp_events evs
         = [FtpConnect (PStr "down.example.com");
            FtpLogin (PStr "u") (py_str (PStr "p"))])
    ∧ ∃ evs0,
        trace s2
        = trace (parseArgs (demo_world (Some (DMap first_site_down)))
                   (Some []) demo_state).2
          ++ evs0
        ∧ Forall not_printed evs0.
Proof.
  eapply (site_failure_aborts_run
            (demo_world (Some (DMap first_site_down))) (Some []) demo_state
            (mkParsed "/work/ftp.yaml" (Some "/home/u") false false false
               first_site_down ".*_.*")
            (parseArgs (demo_world (Some (DMap first_site_down))) (Some [])
               demo_state).2
            [] "siteA" ["siteB"] []
            (announced
               (mkParsed "/work/ftp.yaml" (Some "/home/u") false false false
                  first_site_down ".*_.*")
               true
               (parseArgs (demo_world (Some (DMap first_site_down))) (Some [])
                  demo_state).2));
    try reflexivity.
  left. reflexivity.
Defined.

(** Applying C4 to the example catalog and the selector [siteZ]. *)
Lemma unknown_site_halts_before_network_witness :
  ∃ s4,
    main (demo_world (Some (DMap one_site))) (Some [OptSite "siteZ"]) demo_state
    = (Raise SystemExit, s4)
    ∧ ftp_events (trace s4) = ftp_events (trace demo_state)
    ∧ fs s4
      = fs (loadCredentials (demo_world (Some (DMap one_site)))
              "/work/ftp.yaml"
              (resolve_paths (demo_world (Some (DMap one_site)))
                 (mkArgs "ftp.yaml" false "" false false false false true "siteZ")
                 demo_state).2).2
    ∧ LogLine CodeBreaker
        "Credentials of the target ftp site ({}) were not present in the config."
        [AStr "siteZ"] ∈ trace s4.
Proof.
  eapply (unknown_site_halts_before_network
            (demo_world (Some (DMap one_site))) (Some [OptSite "siteZ"])
            demo_state
            (mkArgs "ftp.yaml" false "" false false false false true "siteZ")
            demo_state ("/work/ftp.yaml", Some "/home/u")).
  - reflexivity.
  - vm_compute. reflexivity.
  - vm_compute. reflexivity.
  - reflexivity.
  - vm_compute. intros H. apply elem_of_cons in H as [H|H]; [discriminate H|].
    now apply elem_of_nil in H.
Defined.




(** * Fatal entries end the run *)

Lemma fatal_ends_run_only {A} (m : M A) : only not_fatal m → fatal_ends_run m.
Proof.
  intros Hm s r s' H. apply Hm in H as (evs & E & F).
  exists evs, []. rewrite app_nil_r.
  split; [assumption|]. split; [assumption|]. split; [constructor|congruence].
Qed.

Lemma fatal_ends_run_bind {A B} (m : M A) (k : A → M B) :
  fatal_ends_run m → (∀ a, fatal_ends_run (k a)) → fatal_ends_run (bind m k).
Proof.
  intros Hm Hk s r s' H.
  apply bind_inv in H as [(a & s1 & H1 & H2)|(e & H1 & ->)].
  - apply Hm in H1 as (pre1 & post1 & E1 & F1 & G1 & X1).
    destruct post1 as [|e post1]; [|now discriminate X1].
    apply Hk in H2 as (pre2 & post2 & E2 & F2 & G2 & X2).
    exists (pre1 ++ pre2), post2.
    split; [rewrite E2, E1, app_nil_r; now rewrite !app_assoc|].
    split; [now apply Forall_app|]. split; assumption.
  - apply Hm in H1 as (pre & post & E & F & G & X).
    exists pre, post. repeat split; try assumption.
    intros Hp. specialize (X Hp). now inversion X.
Qed.

Lemma fatal_tail_ends {A} (m : M A) : fatal_tail m → fatal_ends_run m.
Proof.
  intros Hm s r s' H. apply Hm in H as (-> & post & E & F).
  exists [], post. split; [assumption|]. split; [constructor|]. split; trivial.
Qed.

Lemma fatal_tail_exit {A} : fatal_tail (@exit A).
Proof.
  intros s r s' H. inversion H; subst. split; [reflexivity|].
  exists []. split; [now rewrite app_nil_r|constructor].
Qed.

Lemma fatal_tail_log {A} m a (k : M A) :
  fatal_tail k → fatal_tail (writeLog m a CodeBreaker (data_code 1) ;;; k).
Proof.
  intros Hk s r s' H.
  erewrite bind_Ret in H by apply writeLog_fatal_1.
  apply Hk in H as (-> & post & E & F). split; [reflexivity|].
  destruct (verbose s); cbn [add_event trace] in E.
  - exists ([LogLine CodeBreaker m a; Console m a] ++ post).
    split; [rewrite E; now rewrite <- !app_assoc|].
    apply Forall_app. split; [|assumption].
    apply Forall_cons. split; [now left|].
    apply Forall_cons. split; [now right|constructor].
  - exists ([LogLine CodeBreaker m a] ++ post).
    split; [rewrite E; now rewrite <- !app_assoc|].
    apply Forall_app. split; [|assumption].
    apply Forall_cons. split; [now left|constructor].
Qed.

Lemma not_fatal_log sev m a : sev ≠ CodeBreaker → not_fatal (LogLine sev m a).
Proof. intros H. destruct sev; first [reflexivity|congruence]. Qed.

Lemma os_path_exists_not_fatal p : only not_fatal (os_path_exists p).
Proof. apply only_os_path_exists. Qed.

Lemma parse_options_not_fatal argv : only not_fatal (parse_options argv).
Proof. apply only_parse_options; auto using not_fatal_log; reflexivity. Qed.

Lemma getDefaultDownloadPath_not_fatal w b :
  only not_fatal (getDefaultDownloadPath w b).
Proof. apply only_getDefaultDownloadPath; auto using not_fatal_log; reflexivity. Qed.

Lemma loadCredentials_not_fatal w p : only not_fatal (loadCredentials w p).
Proof. apply only_loadCredentials; auto using not_fatal_log; reflexivity. Qed.

Lemma run_sites_not_fatal w p b : only not_fatal (run_sites w p b).
Proof. apply only_run_sites; auto using not_fatal_log; reflexivity. Qed.

Lemma getDefaultConfigPath_fatal w : fatal_ends_run (getDefaultConfigPath w).
Proof.
  assert (Hnf : fatal_ends_run not_found_in_defaults).
  { apply fatal_tail_ends, fatal_tail_log, fatal_tail_exit. }
  unfold getDefaultConfigPath.
  apply fatal_ends_run_bind;
    [apply fatal_ends_run_only, os_path_exists_not_fatal|].
  intros [|]; [apply fatal_ends_run_only, only_ret|].
  destruct (sys_platform w).
  - apply fatal_ends_run_bind;
      [apply fatal_ends_run_only, os_path_exists_not_fatal|].
    intros [|]; [apply fatal_ends_run_only, only_ret|exact Hnf].
  - apply fatal_ends_run_bind;
      [apply fatal_ends_run_only, os_path_exists_not_fatal|].
    intros [|]; [apply fatal_ends_run_only, only_ret|exact Hnf].
  - apply fatal_tail_ends, fatal_tail_log, fatal_tail_exit.
Qed.

Lemma resolve_paths_fatal w a : fatal_ends_run (resolve_paths w a).
Proof.
  unfold resolve_paths. apply fatal_ends_run_bind.
  { destruct (customYAMLPathFoundAndValidated a); cbn [negb];
      [apply fatal_ends_run_only, only_ret|apply getDefaultConfigPath_fatal]. }
  intros p. apply fatal_ends_run_bind.
  { destruct (customOutputPathFoundAndValidated a); cbn [negb];
      apply fatal_ends_run_only;
      [apply only_ret|apply getDefaultDownloadPath_not_fatal]. }
  intros o. apply fatal_ends_run_only, only_ret.
Qed.

Lemma validate_target_fatal a cfgs : fatal_ends_run (validate_target a cfgs).
Proof.
  unfold validate_target. destruct (targetSiteSpecified a);
    [|apply fatal_ends_run_only, only_ret].
  destruct (dict_has (targetSite a) cfgs); cbn [negb];
    [apply fatal_ends_run_only, only_ret|].
  apply fatal_tail_ends. do 3 apply fatal_tail_log. apply fatal_tail_exit.
Qed.

Lemma parseArgs_fatal w argv : fatal_ends_run (parseArgs w argv).
Proof.
  unfold parseArgs.
  apply fatal_ends_run_bind;
    [apply fatal_ends_run_only, parse_options_not_fatal|intros a].
  apply fatal_ends_run_bind; [apply resolve_paths_fatal|intros paths].
  apply fatal_ends_run_bind;
    [apply fatal_ends_run_only, loadCredentials_not_fatal|intros cfgs].
  apply fatal_ends_run_bind; [apply validate_target_fatal|intros target].
  apply fatal_ends_run_only, only_ret.
Qed.

Lemma main_fatal w argv : fatal_ends_run (main w argv).
Proof.
  unfold main.
  apply fatal_ends_run_bind; [apply parseArgs_fatal|intros p].
  apply fatal_ends_run_only, run_sites_not_fatal.
Qed.

(** A file that the YAML parser refuses: the log call for the fatal entry
    raises [TypeError] while it builds the details of the entry (the [error]
    field holds the exception, not a string), before anything is written. *)
Lemma loadCredentials_yaml_error w p c s :
  fs s !! p = Some (File c) → yaml_safe_load w c = None →
  loadCredentials w p s = (Raise TypeError, s).
Proof.
  intros Hf Hy. unfold loadCredentials.
  erewrite bind_Ret by (unfold open_read; erewrite bind_Ret by reflexivity;
                        cbv beta; rewrite Hf; reflexivity).
  rewrite Hy. reflexivity.
Qed.

(** C3.  Whenever [main] writes a fatal entry to the log, the run ends in
    [exit()] and nothing follows the entry in the trace but the remaining
    fatal lines of the same message and their console mirror.  And when the
    YAML parser refuses the credentials file, [main] stops at once with an
    uncaught exception: the state is the one [loadCredentials] was entered
    with, so that nothing is validated, contacted or downloaded. *)
Theorem fatal_entry_ends_run w argv :
  (∀ s r s' before m a after,
     main w argv s = (r, s') →
     trace s' = trace s ++ before ++ LogLine CodeBreaker m a :: after →
     r = Raise SystemExit ∧ Forall fatal_or_mirror after)
  ∧ (∀ s a s1 paths s2 content,
       parse_options argv s = (Ret a, s1) →
       resolve_paths w a s1 = (Ret paths, s2) →
       fs s2 !! paths.1 = Some (File content) →
       yaml_safe_load w content = None →
       main w argv s = (Raise TypeError, s2)).
Proof.
  split.
  - intros s r s' before m a after H E.
    apply main_fatal in H as (pre & post & E' & F & G & X).
    rewrite E' in E. apply app_inv_head in E.
    apply app_eq_app in E as [l [[E1 E2]|[E1 E2]]].
    + destruct l as [|e l].
      * simpl in E2. subst post. apply Forall_cons in G as [_ G].
        split; [apply X; discriminate|assumption].
      * inversion E2; subst. apply Forall_app in F as [_ F].
        apply Forall_cons in F as [F _]. discriminate F.
    + subst post. apply Forall_app in G as [_ G]. apply Forall_cons in G as [_ G].
      split; [|assumption]. apply X. now destruct l.
  - intros s a s1 paths s2 content H1 H2 Hf Hy.
    unfold main, parseArgs.
    erewrite bind_Raise; [reflexivity|].
    erewrite bind_Ret by exact H1. erewrite bind_Ret by exact H2.
    erewrite bind_Raise; [reflexivity|].
    now apply (loadCredentials_yaml_error w _ content).
Qed.

(** Applying C3 to a run that names an unknown site and to a run whose
    credentials file is not YAML. *)
Lemma fatal_entry_ends_run_witness :
  let w1 := demo_world (Some (DMap one_site)) in
  let run := main w1 (Some [OptSite "siteZ"]) demo_state in
  let w2 := demo_world None in
  (run.1 = Raise SystemExit
   ∧ Forall fatal_or_mirror
       [LogLine CodeBreaker
          "Check the log to make sure that it wasn't removed due to incomplete infromation."
          [];
        LogLine CodeBreaker "Exiting..." []])
  ∧ main w2 (Some []) demo_state
    = (Raise TypeError, (resolve_paths w2 initial_args demo_state).2).
Proof.
  intros w1 run w2. split.
  - apply (proj1 (fatal_entry_ends_run w1 (Some [OptSite "siteZ"]))
             demo_state run.1 run.2
             [LogLine Normal "Purged existing files." []]
             "Credentials of the target ftp site ({}) were not present in the config."
             [AStr "siteZ"]).
    + apply surjective_pairing.
    + vm_compute. reflexivity.
  - apply (proj2 (fatal_entry_ends_run w2 (Some []))
             demo_state initial_args demo_state
             ("/work/ftp.yaml", Some "/home/u")
             (resolve_paths w2 initial_args demo_state).2 "sites").
    + reflexivity.
    + vm_compute. reflexivity.
    + vm_compute. reflexivity.
    + reflexivity.
Defined.

(** * The download loop *)

Lemma grows_refl f : grows f f.
Proof. intros p. split; [reflexivity|trivial]. Qed.

Lemma grows_trans f1 f2 f3 : grows f1 f2 → grows f2 f3 → grows f1 f3.
Proof.
  intros H12 H23 p. destruct (H12 p) as [D1 S1], (H23 p) as [D2 S2].
  split; [congruence|auto].
Qed.

Lemma grows_eq f f' : f' = f → grows f f'.
Proof. intros ->. apply grows_refl. Qed.

Lemma grows_insert_file f p c : is_dir (f !! p) = false → grows f (<[p := File c]> f).
Proof.
  intros Hd q. destruct (decide (p = q)) as [->|Hne].
  - rewrite lookup_insert_eq. split; [now rewrite Hd|eauto].
  - rewrite lookup_insert_ne by assumption. split; [reflexivity|trivial].
Qed.

Lemma state_eq (s s' : state) :
  fs s = fs s' → trace s = trace s' → verbose s = verbose s' → s = s'.
Proof. destruct s, s'. cbn. intros -> -> ->. reflexivity. Qed.

Lemma set_fs_insert_twice p x y s :
  set_fs (insert p x) (set_fs (insert p y) s) = set_fs (insert p x) s.
Proof.
  apply state_eq; cbn [set_fs fs trace verbose];
    [apply insert_insert_eq|reflexivity|reflexivity].
Qed.

Lemma create_stable_grows w f f' :
  create_stable w f → grows f f' → create_stable w f'.
Proof.
  intros H G f'' p G'.
  rewrite (H f'' p (grows_trans _ _ _ G G')). symmetry. now apply H.
Qed.

Lemma openable_grows w f f' p :
  create_stable w f → grows f f' → openable w f' p = openable w f p.
Proof.
  intros H G. unfold openable. rewrite (H f' p G).
  now destruct (G p) as [-> _].
Qed.

Lemma openable_not_dir w f p : openable w f p = true → is_dir (f !! p) = false.
Proof.
  unfold openable. intros H. apply andb_true_iff in H as [H _].
  now apply negb_true_iff in H.
Qed.

Lemma append_assoc (a b c : string) : (a +:+ b) +:+ c = a +:+ (b +:+ c).
Proof.
  induction a as [|x a IH]; [reflexivity|].
  change (String x ((a +:+ b) +:+ c) = String x (a +:+ b +:+ c)). now f_equal.
Qed.

Lemma append_empty (a : string) : a +:+ "" = a.
Proof.
  induction a as [|x a IH]; [reflexivity|].
  change (String x (a +:+ "") = String x a). now f_equal.
Qed.

Lemma concat_cons (b : string) blocks :
  String.concat "" (b :: blocks) = b +:+ String.concat "" blocks.
Proof. destruct blocks; [symmetry; apply append_empty|reflexivity]. Qed.

Lemma file_write_eq w p b written s :
  file_write w p b written s
  = (Ret (written +:+ b),
     set_fs (insert p (File (flushed w (written +:+ b)))) s).
Proof. reflexivity. Qed.

(** The blocks of a transfer go through the handle one after the other;
    what is on disk at the end is what the buffer has let through. *)
Lemma for_each_file_write w p blocks :
  ∀ written s,
    for_each (file_write w p) blocks written s
    = (Ret (written +:+ String.concat "" blocks),
       match blocks with
       | [] => s
       | _ =>
           set_fs (insert p (File (flushed w
                                     (written +:+ String.concat "" blocks)))) s
       end).
Proof.
  induction blocks as [|b blocks IH]; intros written s.
  - cbn [for_each]. change (String.concat "" []) with "".
    now rewrite append_empty.
  - cbn [for_each]. erewrite bind_Ret by apply file_write_eq. rewrite IH.
    rewrite concat_cons, <- append_assoc. f_equal.
    destruct blocks as [|b' blocks].
    + change (String.concat "" []) with "". now rewrite append_empty.
    + apply set_fs_insert_twice.
Qed.

Lemma open_wb_ok w p s :
  openable w (fs s) p = true →
  open_wb w p s = (Ret tt, add_event (FileOpen p) (set_fs (insert p (File "")) s)).
Proof.
  unfold openable. intros H. apply andb_true_iff in H as [Hd Hc].
  apply negb_true_iff in Hd.
  unfold open_wb. erewrite bind_Ret by reflexivity. cbv beta.
  destruct (fs s !! p) as [[c|]|]; try discriminate Hd; rewrite Hc; reflexivity.
Qed.

Lemma open_wb_refused w p s :
  openable w (fs s) p = false → open_wb w p s = (Raise OSError, s).
Proof.
  unfold openable. intros H.
  unfold open_wb. erewrite bind_Ret by reflexivity. cbv beta.
  destruct (fs s !! p) as [[c|]|]; cbn [is_dir negb andb] in H;
    try reflexivity; rewrite H; reflexivity.
Qed.

Lemma retrbinary_eq w rd name p s :
  retrbinary w rd name p s
  = (if snd (retr rd name) then Ret (String.concat "" (fst (retr rd name)))
     else Raise FTPError,
     match fst (retr rd name) with
     | [] => add_event (FtpRetr name) s
     | _ =>
         set_fs (insert p (File (flushed w
                                   (String.concat "" (fst (retr rd name))))))
           (add_event (FtpRetr name) s)
     end).
Proof.
  unfold retrbinary. erewrite bind_Ret by reflexivity.
  erewrite bind_Ret by apply for_each_file_write.
  destruct (snd (retr rd name)); reflexivity.
Qed.

(** The state after [open] and [retrbinary]. *)
Lemma opened_transferred w rd name p s :
  match fst (retr rd name) with
  | [] =>
      add_event (FtpRetr name)
        (add_event (FileOpen p)
           (set_fs (insert p (File ""))
              (logged Normal "Downloading {}..." [AStr name] s)))
  | _ =>
      set_fs (insert p (File (flushed w
                                (String.concat "" (fst (retr rd name))))))
        (add_event (FtpRetr name)
           (add_event (FileOpen p)
              (set_fs (insert p (File ""))
                 (logged Normal "Downloading {}..." [AStr name] s))))
  end
  = transferred w rd name p s.
Proof.
  unfold transferred, unclosed. destruct (fst (retr rd name)); [reflexivity|].
  apply state_eq; cbn [set_fs add_event fs trace verbose];
    [apply insert_insert_eq|reflexivity|reflexivity].
Qed.

Lemma closed_transferred w rd name p s :
  add_event (FileClose p)
    (set_fs (insert p (File (String.concat "" (fst (retr rd name)))))
       (transferred w rd name p s))
  = closed rd name p s.
Proof.
  unfold transferred, closed.
  apply state_eq; cbn [set_fs add_event fs trace verbose];
    [apply insert_insert_eq|reflexivity|reflexivity].
Qed.

Section DownloadOne.

Context (w : World) (rd : RemoteDir).
Context (name : string) (acc : list string) (s : state).
Context (Hdot : name ≠ ".") (Hdotdot : name ≠ "..").

Lemma not_dot_test : negb (String.eqb name ".") && negb (String.eqb name "..") = true.
Proof.
  destruct (String.eqb_spec name "."); [contradiction|].
  destruct (String.eqb_spec name ".."); [contradiction|reflexivity].
Qed.

(** No download directory: [os.path.join] raises inside the [try]. *)
Lemma download_one_no_path :
  download_one w rd None name acc s
  = (Ret acc,
     logged Normal "{} was actually a directory, skipping..." [AStr name]
       (logged Normal "Downloading {}..." [AStr name] s)).
Proof.
  unfold download_one. rewrite not_dot_test.
  erewrite bind_Ret by (apply writeLog_plain; discriminate).
  unfold try_except. erewrite bind_Raise by reflexivity. cbn [is_Exception].
  erewrite bind_Ret by (apply writeLog_plain; discriminate). reflexivity.
Qed.

Context (d : string).

(** The local file cannot be opened (the path is a directory, or the file
    cannot be created there): [open] raises inside the [try], and nothing is
    asked of the server. *)
Lemma download_one_not_opened :
  openable w (fs s) (os_path_join w d name) = false →
  download_one w rd (Some d) name acc s
  = (Ret acc,
     logged Normal "{} was actually a directory, skipping..." [AStr name]
       (logged Normal "Downloading {}..." [AStr name] s)).
Proof.
  intros Hd. unfold download_one. rewrite not_dot_test.
  erewrite bind_Ret by (apply writeLog_plain; discriminate).
  unfold try_except. erewrite bind_Ret by reflexivity.
  erewrite bind_Raise by (apply open_wb_refused; now rewrite logged_fs).
  cbn [is_Exception].
  erewrite bind_Ret by (apply writeLog_plain; discriminate). reflexivity.
Qed.

(** The transfer fails: the file has been created, holds what the buffer has
    let through, and is not closed. *)
Lemma download_one_failed :
  openable w (fs s) (os_path_join w d name) = true →
  snd (retr rd name) = false →
  download_one w rd (Some d) name acc s
  = (Ret acc,
     logged Normal "{} was actually a directory, skipping..." [AStr name]
       (transferred w rd name (os_path_join w d name) s)).
Proof.
  intros Hd Hr. unfold download_one. rewrite not_dot_test.
  erewrite bind_Ret by (apply writeLog_plain; discriminate).
  unfold try_except. erewrite bind_Ret by reflexivity.
  erewrite bind_Ret by (apply open_wb_ok; now rewrite logged_fs).
  erewrite bind_Raise by (rewrite retrbinary_eq, Hr; reflexivity).
  cbn [is_Exception].
  erewrite bind_Ret by (apply writeLog_plain; discriminate).
  now rewrite opened_transferred.
Qed.

(** The transfer ends well: the file is closed and holds what was sent. *)
Lemma download_one_fetched :
  openable w (fs s) (os_path_join w d name) = true →
  snd (retr rd name) = true →
  download_one w rd (Some d) name acc s
  = (Ret (acc ++ [name]), closed rd name (os_path_join w d name) s).
Proof.
  intros Hd Hr. unfold download_one. rewrite not_dot_test.
  erewrite bind_Ret by (apply writeLog_plain; discriminate).
  unfold try_except. erewrite bind_Ret by reflexivity.
  erewrite bind_Ret by (apply open_wb_ok; now rewrite logged_fs).
  erewrite bind_Ret by (rewrite retrbinary_eq, Hr; reflexivity).
  erewrite bind_Ret by reflexivity.
  rewrite opened_transferred.
  now rewrite <- (closed_transferred w).
Qed.

End DownloadOne.

Lemma download_one_dot w rd dst name acc s :
  name = "." ∨ name = ".." → download_one w rd dst name acc s = (Ret acc, s).
Proof.
  intros [->| ->]; reflexivity.
Qed.

Lemma transferred_fs w rd name p s :
  fs (transferred w rd name p s)
  = <[p := File (unclosed w (fst (retr rd name)))]> (fs s).
Proof. unfold transferred. cbn [set_fs add_event fs]. now rewrite logged_fs. Qed.

Lemma closed_fs rd name p s :
  fs (closed rd name p s)
  = <[p := File (String.concat "" (fst (retr rd name)))]> (fs s).
Proof. unfold closed. cbn [set_fs add_event fs]. now rewrite logged_fs. Qed.

Lemma transferred_grows w rd name p s :
  is_dir (fs s !! p) = false → grows (fs s) (fs (transferred w rd name p s)).
Proof. intros Hd. rewrite transferred_fs. now apply grows_insert_file. Qed.

Lemma closed_grows rd name p s :
  is_dir (fs s !! p) = false → grows (fs s) (fs (closed rd name p s)).
Proof. intros Hd. rewrite closed_fs. now apply grows_insert_file. Qed.

(** What is on disk at [p] while the handle is open... *)
Lemma transferred_content w rd name p s :
  fs (transferred w rd name p s) !! p
  = Some (File (unclosed w (fst (retr rd name)))).
Proof. rewrite transferred_fs. apply lookup_insert_eq. Qed.

(** ... and once it is closed: the blocks received, in order. *)
Lemma closed_content rd name p s :
  fs (closed rd name p s) !! p
  = Some (File (String.concat "" (fst (retr rd name)))).
Proof. rewrite closed_fs. apply lookup_insert_eq. Qed.

Lemma transferred_trace w rd name p s :
  ∃ ev0, trace (transferred w rd name p s)
         = trace s ++ ev0 ++ [FileOpen p; FtpRetr name]
         ∧ downloading name ∈ ev0
         ∧ Forall (λ e, e = downloading name
                        ∨ e = Console "Downloading {}..." [AStr name]) ev0.
Proof.
  unfold transferred, logged, downloading.
  destruct (verbose s); cbn [set_fs add_event trace].
  - exists [LogLine Normal "Downloading {}..." [AStr name];
            Console "Downloading {}..." [AStr name]].
    split; [now rewrite <- !app_assoc|].
    split; [apply elem_of_cons; now left|].
    apply Forall_cons. split; [now left|].
    apply Forall_cons. split; [now right|constructor].
  - exists [LogLine Normal "Downloading {}..." [AStr name]].
    split; [now rewrite <- !app_assoc|].
    split; [apply elem_of_cons; now left|].
    apply Forall_cons. split; [now left|constructor].
Qed.

Lemma closed_trace rd name p s :
  ∃ ev0, trace (closed rd name p s)
         = trace s ++ ev0 ++ [FileOpen p; FtpRetr name; FileClose p]
         ∧ downloading name ∈ ev0.
Proof.
  unfold closed, logged, downloading.
  destruct (verbose s); cbn [set_fs add_event trace].
  - exists [LogLine Normal "Downloading {}..." [AStr name];
            Console "Downloading {}..." [AStr name]].
    split; [now rewrite <- !app_assoc|].
    apply elem_of_cons; now left.
  - exists [LogLine Normal "Downloading {}..." [AStr name]].
    split; [now rewrite <- !app_assoc|].
    apply elem_of_cons; now left.
Qed.

Lemma fetch_ok_grows w rd dst f f' name :
  create_stable w f → grows f f' →
  fetch_ok w rd dst f' name = fetch_ok w rd dst f name.
Proof.
  intros H G. unfold fetch_ok. destruct dst as [d|]; [|reflexivity].
  now rewrite (openable_grows w f f' _ H G).
Qed.

Lemma fetch_ok_not_dot w rd dst f name :
  fetch_ok w rd dst f name = true → name ≠ "." ∧ name ≠ "..".
Proof.
  unfold fetch_ok. rewrite !andb_true_iff, !negb_true_iff.
  intros [[H1 H2] _]. split; intros ->; discriminate.
Qed.

Section DownloadLoop.

Context (w : World) (rd : RemoteDir) (dst : option string).

(** One round of the loop never raises; it appends the name exactly when the
    fetch succeeds, logs the name, and logs the skip when the fetch fails.
    Once the local file could be opened, it is there. *)
Lemma download_one_spec name acc s :
  ∃ s' evs,
    download_one w rd dst name acc s
    = (Ret (acc ++ (if fetch_ok w rd dst (fs s) name then [name] else [])), s')
    ∧ grows (fs s) (fs s')
    ∧ trace s' = trace s ++ evs
    ∧ (name ≠ "." → name ≠ ".." →
       downloading name ∈ evs
       ∧ (fetch_ok w rd dst (fs s) name = false → skipping name ∈ evs)
       ∧ (∀ d, dst = Some d →
            openable w (fs s) (os_path_join w d name) = true →
            ∃ c, fs s' !! os_path_join w d name = Some (File c))).
Proof.
  destruct (String.eqb_spec name ".") as [->|Hdot].
  { exists s, []. rewrite !app_nil_r.
    split; [reflexivity|]. split; [apply grows_refl|]. split; [reflexivity|].
    congruence. }
  destruct (String.eqb_spec name "..") as [->|Hdotdot].
  { exists s, []. rewrite !app_nil_r.
    split; [reflexivity|]. split; [apply grows_refl|]. split; [reflexivity|].
    congruence. }
  assert (Hskip : ∀ s0 ev0,
            trace s0 = trace s ++ ev0 → downloading name ∈ ev0 →
            ∃ evs, trace (logged Normal "{} was actually a directory, skipping..."
                            [AStr name] s0) = trace s ++ evs
                   ∧ downloading name ∈ evs ∧ skipping name ∈ evs).
  { intros s0 ev0 E0 Hin.
    destruct (logged_elem Normal "{} was actually a directory, skipping..."
                [AStr name] s0) as (ev1 & E1 & Hin1).
    exists (ev0 ++ ev1). rewrite E1, E0, <- app_assoc.
    split; [reflexivity|]. rewrite !elem_of_app. split; [now left|now right]. }
  unfold fetch_ok. rewrite (not_dot_test name Hdot Hdotdot). cbn [andb].
  destruct dst as [d|].
  2:{ rewrite (download_one_no_path w rd name acc s Hdot Hdotdot).
      destruct (logged_elem Normal "Downloading {}..." [AStr name] s)
        as (ev0 & E0 & Hin0).
      destruct (Hskip _ _ E0 Hin0) as (evs & E & H1 & H2).
      eexists _, evs. rewrite app_nil_r.
      split; [reflexivity|].
      split; [apply grows_eq; now rewrite !logged_fs|].
      split; [exact E|]. intros _ _.
      split; [exact H1|]. split; [intros _; exact H2|discriminate]. }
  destruct (openable w (fs s) (os_path_join w d name)) eqn:Hd; cbn [andb].
  2:{ rewrite (download_one_not_opened w rd name acc s Hdot Hdotdot d Hd).
      destruct (logged_elem Normal "Downloading {}..." [AStr name] s)
        as (ev0 & E0 & Hin0).
      destruct (Hskip _ _ E0 Hin0) as (evs & E & H1 & H2).
      eexists _, evs. rewrite app_nil_r.
      split; [reflexivity|].
      split; [apply grows_eq; now rewrite !logged_fs|].
      split; [exact E|]. intros _ _.
      split; [exact H1|]. split; [intros _; exact H2|].
      intros d' Hd' Hnd. inversion Hd'; subst d'. congruence. }
  pose proof (openable_not_dir _ _ _ Hd) as Hnd.
  destruct (snd (retr rd name)) eqn:Hr.
  - rewrite (download_one_fetched w rd name acc s Hdot Hdotdot d Hd Hr).
    destruct (closed_trace rd name (os_path_join w d name) s)
      as (ev0 & E0 & Hin0).
    eexists _, _. split; [reflexivity|].
    split; [now apply closed_grows|].
    split; [exact E0|].
    intros _ _. split; [rewrite !elem_of_app; now left|].
    split; [discriminate|].
    intros d' Hd' _. inversion Hd'; subst d'.
    rewrite closed_content. eauto.
  - rewrite (download_one_failed w rd name acc s Hdot Hdotdot d Hd Hr).
    destruct (transferred_trace w rd name (os_path_join w d name) s)
      as (ev0 & E0 & Hin0 & _).
    destruct (Hskip (transferred w rd name (os_path_join w d name) s)
                (ev0 ++ [FileOpen (os_path_join w d name); FtpRetr name]) E0)
      as (evs & E & H1 & H2); [rewrite elem_of_app; now left|].
    eexists _, evs. rewrite app_nil_r. split; [reflexivity|].
    split; [rewrite logged_fs; now apply transferred_grows|].
    split; [exact E|]. intros _ _.
    split; [exact H1|]. split; [intros _; exact H2|].
    intros d' Hd' _. inversion Hd'; subst d'.
    rewrite logged_fs, transferred_content. eauto.
Qed.

(** Whatever the file system lets the script create, the loop returns names
    of the listing other than [.] and [..], each with its local file on
    disk, and no path is lost. *)
Lemma download_loop_names names :
  ∀ acc s,
    ∃ files s' evs,
      for_each (download_one w rd dst) names acc s = (Ret (acc ++ files), s')
      ∧ grows (fs s) (fs s')
      ∧ trace s' = trace s ++ evs
      ∧ ∀ n, n ∈ files →
          n ∈ names ∧ n ≠ "." ∧ n ≠ ".."
          ∧ ∃ d c, dst = Some d ∧ fs s' !! os_path_join w d n = Some (File c).
Proof.
  induction names as [|n names IH]; intros acc s.
  - exists [], s, []. cbn [for_each]. rewrite !app_nil_r.
    split; [reflexivity|]. split; [apply grows_refl|]. split; [reflexivity|].
    intros x H. now apply elem_of_nil in H.
  - destruct (download_one_spec n acc s) as (s1 & ev1 & E1 & G1 & T1 & L1).
    destruct (IH (acc ++ (if fetch_ok w rd dst (fs s) n then [n] else [])) s1)
      as (files & s2 & ev2 & E2 & G2 & T2 & L2).
    exists ((if fetch_ok w rd dst (fs s) n then [n] else []) ++ files), s2,
      (ev1 ++ ev2).
    cbn [for_each]. erewrite bind_Ret by exact E1.
    split; [rewrite E2; now rewrite <- app_assoc|].
    split; [eapply grows_trans; eassumption|].
    split; [rewrite T2, T1; now rewrite app_assoc|].
    intros x Hx. apply elem_of_app in Hx as [Hx|Hx].
    + destruct (fetch_ok w rd dst (fs s) n) eqn:Hf;
        [|now apply elem_of_nil in Hx].
      apply list_elem_of_singleton in Hx. subst x.
      destruct (fetch_ok_not_dot _ _ _ _ _ Hf) as [Hdot Hdotdot].
      split; [apply elem_of_cons; now left|]. split; [assumption|].
      split; [assumption|].
      unfold fetch_ok in Hf. rewrite (not_dot_test n Hdot Hdotdot) in Hf.
      cbn [andb] in Hf. destruct dst as [d|]; [|discriminate Hf].
      apply andb_true_iff in Hf as [Ho _].
      destruct (L1 Hdot Hdotdot) as (_ & _ & H3).
      destruct (H3 d eq_refl Ho) as [c Hc].
      destruct (G2 (os_path_join w d n)) as [Gd Gs].
      destruct (Gs (ex_intro _ _ Hc)) as [[c'|] Hc'].
      * eauto.
      * rewrite Hc, Hc' in Gd. discriminate Gd.
    + destruct (L2 x Hx) as (H1 & H2 & H3 & H4).
      split; [apply elem_of_cons; now right|]. auto.
Qed.

(** Where the file system is stable, the loop returns, in the order of the
    listing, the names that were fetched; every name but [.] and [..] is
    tried, whatever happened to the names before it. *)
Lemma download_loop_spec names :
  ∀ acc s,
    create_stable w (fs s) →
    ∃ s' evs,
      for_each (download_one w rd dst) names acc s
      = (Ret (acc ++ List.filter (fetch_ok w rd dst (fs s)) names), s')
      ∧ grows (fs s) (fs s')
      ∧ trace s' = trace s ++ evs
      ∧ (∀ name, name ∈ names → name ≠ "." → name ≠ ".." →
         downloading name ∈ evs
         ∧ (fetch_ok w rd dst (fs s) name = false → skipping name ∈ evs)
         ∧ (∀ d, dst = Some d →
              openable w (fs s) (os_path_join w d name) = true →
              ∃ c, fs s' !! os_path_join w d name = Some (File c))).
Proof.
  induction names as [|n names IH]; intros acc s Hst.
  - exists s, []. cbn [List.filter for_each]. rewrite !app_nil_r.
    split; [reflexivity|]. split; [apply grows_refl|]. split; [reflexivity|].
    intros name H. now apply elem_of_nil in H.
  - destruct (download_one_spec n acc s) as (s1 & ev1 & E1 & G1 & T1 & L1).
    pose proof (create_stable_grows w _ _ Hst G1) as Hst1.
    destruct (IH (acc ++ (if fetch_ok w rd dst (fs s) n then [n] else [])) s1
                Hst1)
      as (s2 & ev2 & E2 & G2 & T2 & L2).
    exists s2, (ev1 ++ ev2). cbn [for_each]. erewrite bind_Ret by exact E1.
    split.
    { rewrite E2. f_equal. f_equal. rewrite <- app_assoc. f_equal.
      cbn [List.filter].
      rewrite (List.filter_ext _ _ (λ x, fetch_ok_grows w rd dst _ _ x Hst G1)).
      now destruct (fetch_ok w rd dst (fs s) n). }
    split; [eapply grows_trans; eassumption|].
    split; [rewrite T2, T1; now rewrite app_assoc|].
    intros name Hin Hdot Hdotdot. rewrite !elem_of_app.
    apply elem_of_cons in Hin as [->|Hin].
    + destruct (L1 Hdot Hdotdot) as (H1 & H2 & H3). split; [now left|].
      split; [intros Hf; left; auto|].
      intros d Hd Ho. destruct (H3 d Hd Ho) as [c Hc].
      destruct (G2 (os_path_join w d n)) as [Gd Gs].
      destruct (Gs (ex_intro _ _ Hc)) as [[c'|] Hc']; [eauto|].
      rewrite Hc, Hc' in Gd. discriminate Gd.
    + destruct (L2 name Hin Hdot Hdotdot) as (H1 & H2 & H3). split; [now right|].
      split.
      * intros Hf. right. apply H2.
        now rewrite (fetch_ok_grows w rd dst _ _ name Hst G1).
      * intros d Hd Ho. apply H3; [assumption|].
        now rewrite (openable_grows w _ _ _ Hst G1).
Qed.

End DownloadLoop.

Lemma later_refl s : later s s.
Proof. split; [reflexivity|]. exists []. now rewrite app_nil_r. Qed.

Lemma later_trans s1 s2 s3 : later s1 s2 → later s2 s3 → later s1 s3.
Proof.
  intros [F1 (e1 & E1)] [F2 (e2 & E2)]. split; [congruence|].
  exists (e1 ++ e2). rewrite E2, E1. now rewrite app_assoc.
Qed.

Lemma later_logged sev m a s : later s (logged sev m a s).
Proof.
  split; [apply logged_fs|].
  destruct (logged_elem sev m a s) as (evs & E & _). eauto.
Qed.

Lemma later_add_event e s : later s (add_event e s).
Proof. split; [reflexivity|]. now exists [e]. Qed.

Lemma later_logged_lines lines : ∀ s, later s (logged_lines lines s).
Proof.
  unfold logged_lines. induction lines as [|i lines IH]; intros s.
  - apply later_refl.
  - cbn [foldl]. eapply later_trans; [apply later_logged|apply IH].
Qed.

Lemma for_each_log_lines lines :
  ∀ s, for_each (λ i _, writeLog i [] Normal None) lines tt s
       = (Ret tt, logged_lines lines s).
Proof.
  induction lines as [|i lines IH]; intros s; [reflexivity|].
  cbn [for_each]. erewrite bind_Ret by (apply writeLog_plain; discriminate).
  apply IH.
Qed.

Lemma disconnectFtp_ok ftp h s :
  quit_ok ftp = true →
  disconnectFtp ftp h s
  = (Ret tt,
     add_event Sleep
       (logged Normal "Disconnected from {}." [AVal h]
          (add_event FtpQuit
             (logged Normal "Disconnecting from {}..." [AVal h] s)))).
Proof.
  intros Hq. unfold disconnectFtp.
  erewrite bind_Ret by (apply writeLog_plain; discriminate).
  erewrite bind_Ret by reflexivity. rewrite Hq.
  erewrite bind_Ret by reflexivity.
  erewrite bind_Ret by (apply writeLog_plain; discriminate). reflexivity.
Qed.

Section DownloadFiles.

Context (w : World) (ftp : FtpServer) (hostname sourceDirectory : pyval).
Context (dst : option string) (s : state).
Context (rd : RemoteDir) (lines names : list string).
Context (Hcwd : cwd ftp sourceDirectory = Some rd).
Context (Hlist : list_lines rd = Some lines).
Context (Hnlst : nlst_names rd = Some names).
Context (Hquit : quit_ok ftp = true).

(** The state in which the loop of [downloadFiles] starts. *)
Lemma downloadFiles_loop_start :
  later s
    (add_event FtpNlst
       (logged_lines lines
          (add_event FtpList
             (logged Normal "Files at {}:" [AVal sourceDirectory]
                (logged Normal
                   "This script will only download files, not directories."
                   [] (add_event (FtpCwd sourceDirectory) s)))))).
Proof.
  repeat first [ apply later_refl
               | eapply later_trans; [|apply later_add_event]
               | eapply later_trans; [|apply later_logged]
               | eapply later_trans; [|apply later_logged_lines] ].
Qed.

(** With a server that answers CWD, LIST, NLST and QUIT, [downloadFiles]
    returns names of the listing other than [.] and [..], whose local files
    are on disk; [s1] and [s2] are the states in which the loop starts and
    ends. *)
Lemma downloadFiles_names :
  ∃ files s1 s2 s',
    downloadFiles w ftp hostname sourceDirectory dst s = (Ret files, s')
    ∧ later s s1 ∧ later s2 s'
    ∧ grows (fs s) (fs s2)
    ∧ ∀ n, n ∈ files →
        n ∈ names ∧ n ≠ "." ∧ n ≠ ".."
        ∧ ∃ d c, dst = Some d ∧ fs s2 !! os_path_join w d n = Some (File c).
Proof.
  unfold downloadFiles.
  erewrite bind_Ret by reflexivity.
  erewrite bind_Ret by (rewrite Hcwd; reflexivity).
  erewrite bind_Ret by (apply writeLog_plain; discriminate).
  erewrite bind_Ret by (apply writeLog_plain; discriminate).
  erewrite bind_Ret by reflexivity.
  erewrite bind_Ret by (rewrite Hlist; reflexivity).
  erewrite bind_Ret by apply for_each_log_lines.
  erewrite bind_Ret by reflexivity.
  erewrite bind_Ret by (rewrite Hnlst; reflexivity).
  match goal with
  | |- context [bind (for_each (download_one w rd dst) names []) _ ?st] =>
      set (s1 := st);
      destruct (download_loop_names w rd dst names [] s1)
        as (files & s2 & evs & E & G & T & L)
  end.
  pose proof downloadFiles_loop_start as L1. fold s1 in L1.
  destruct L1 as [F1 X1]. rewrite F1 in G. cbn [app] in E.
  erewrite bind_Ret by exact E.
  erewrite bind_Ret by (apply writeLog_plain; discriminate).
  erewrite bind_Ret by (apply disconnectFtp_ok; exact Hquit).
  exists files, s1, s2. eexists.
  split; [reflexivity|]. split; [split; assumption|].
  split.
  { repeat first [ apply later_refl
                 | eapply later_trans; [|apply later_add_event]
                 | eapply later_trans; [|apply later_logged] ]. }
  split; [exact G|exact L].
Qed.

Context (Hstable : create_stable w (fs s)).

(** ... and where the file system is stable, it returns the names that were
    fetched. *)
Lemma downloadFiles_spec :
  ∃ s1 s2 s' evs,
    downloadFiles w ftp hostname sourceDirectory dst s
    = (Ret (List.filter (fetch_ok w rd dst (fs s)) names), s')
    ∧ later s s1 ∧ later s2 s'
    ∧ grows (fs s) (fs s2)
    ∧ trace s2 = trace s1 ++ evs
    ∧ (∀ name, name ∈ names → name ≠ "." → name ≠ ".." →
       downloading name ∈ evs
       ∧ (fetch_ok w rd dst (fs s) name = false → skipping name ∈ evs)
       ∧ (∀ d, dst = Some d →
            openable w (fs s) (os_path_join w d name) = true →
            ∃ c, fs s2 !! os_path_join w d name = Some (File c))).
Proof.
  unfold downloadFiles.
  erewrite bind_Ret by reflexivity.
  erewrite bind_Ret by (rewrite Hcwd; reflexivity).
  erewrite bind_Ret by (apply writeLog_plain; discriminate).
  erewrite bind_Ret by (apply writeLog_plain; discriminate).
  erewrite bind_Ret by reflexivity.
  erewrite bind_Ret by (rewrite Hlist; reflexivity).
  erewrite bind_Ret by apply for_each_log_lines.
  erewrite bind_Ret by reflexivity.
  erewrite bind_Ret by (rewrite Hnlst; reflexivity).
  pose proof downloadFiles_loop_start as L1.
  match goal with
  | |- context [bind (for_each (download_one w rd dst) names []) _ ?st] =>
      set (s1 := st) in *
  end.
  destruct L1 as [F1 X1].
  assert (Hst1 : create_stable w (fs s1)) by (rewrite F1; exact Hstable).
  destruct (download_loop_spec w rd dst names [] s1 Hst1)
    as (s2 & evs & E & G & T & L).
  rewrite F1 in E, G, L. cbn [app] in E.
  erewrite bind_Ret by exact E.
  erewrite bind_Ret by (apply writeLog_plain; discriminate).
  erewrite bind_Ret by (apply disconnectFtp_ok; exact Hquit).
  exists s1, s2. eexists _, evs.
  split; [reflexivity|]. split; [split; assumption|].
  split.
  { repeat first [ apply later_refl
                 | eapply later_trans; [|apply later_add_event]
                 | eapply later_trans; [|apply later_logged] ]. }
  split; [exact G|]. split; [exact T|exact L].
Qed.

End DownloadFiles.

Lemma downloadFiles_not_dot_fetch w ftp h src dst :
  only not_dot_fetch (downloadFiles w ftp h src dst).
Proof.
  apply only_downloadFiles; try (intros; split; discriminate).
  intros n H1 H2. split; congruence.
Qed.

Lemma downloadFiles_not_fatal w ftp h src dst :
  only not_fatal (downloadFiles w ftp h src dst).
Proof.
  apply only_downloadFiles; auto using not_fatal_log; reflexivity.
Qed.

(** C5.  Whatever the server answers, [downloadFiles] never sends a RETR for
    [.] or for [..]; and when the server answers CWD, LIST, NLST and QUIT, it
    returns a list in which neither of the two names appears and whose names
    all come from the NLST listing. *)
Theorem dot_entries_never_fetched w ftp hostname src dst s :
  (∀ r s', downloadFiles w ftp hostname src dst s = (r, s') →
     ∃ evs, trace s' = trace s ++ evs
            ∧ (FtpRetr "." ∉ evs) ∧ (FtpRetr ".." ∉ evs))
  ∧ (∀ rd lines names,
       cwd ftp src = Some rd → list_lines rd = Some lines →
       nlst_names rd = Some names → quit_ok ftp = true →
       ∃ files s',
         downloadFiles w ftp hostname src dst s = (Ret files, s')
         ∧ ("." ∉ files) ∧ (".." ∉ files)
         ∧ ∀ n, n ∈ files → n ∈ names).
Proof.
  split.
  - intros r s' H. apply downloadFiles_not_dot_fetch in H as (evs & E & F).
    exists evs. split; [assumption|]. rewrite Forall_forall in F.
    split; intros Hin; apply F in Hin as [H1 H2]; congruence.
  - intros rd lines names Hcwd Hlist Hnlst Hquit.
    destruct (downloadFiles_names w ftp hostname src dst s rd lines names
                Hcwd Hlist Hnlst Hquit)
      as (files & s1 & s2 & s' & E & _ & _ & _ & Hin).
    exists files, s'. split; [exact E|].
    split; [|split].
    + intros H. apply Hin in H as (_ & H & _). congruence.
    + intros H. apply Hin in H as (_ & _ & H & _). congruence.
    + intros n H. now apply Hin in H.
Qed.

(** C6.  With a server that answers CWD, LIST, NLST and QUIT, on a file
    system where files can be created in the same places throughout the
    session, [downloadFiles] returns exactly the names of the listing whose
    fetch succeeded (the local file could be opened and the transfer ended
    well), in the order of the listing.  No fatal entry is logged; every name
    other than [.] and [..] is tried, whatever happened to the names before
    it, and each name whose fetch fails is logged as skipped. *)
Theorem failed_fetch_is_skipped w ftp hostname src dst s rd lines names :
  cwd ftp src = Some rd → list_lines rd = Some lines →
  nlst_names rd = Some names → quit_ok ftp = true →
  create_stable w (fs s) →
  ∃ s' evs,
    downloadFiles w ftp hostname src dst s
    = (Ret (List.filter (fetch_ok w rd dst (fs s)) names), s')
    ∧ trace s' = trace s ++ evs
    ∧ Forall not_fatal evs
    ∧ ∀ name, name ∈ names → name ≠ "." → name ≠ ".." →
        downloading name ∈ evs
        ∧ (fetch_ok w rd dst (fs s) name = false → skipping name ∈ evs).
Proof.
  intros Hcwd Hlist Hnlst Hquit Hst.
  destruct (downloadFiles_spec w ftp hostname src dst s rd lines names
              Hcwd Hlist Hnlst Hquit Hst)
    as (s1 & s2 & s' & evs & E & [_ (e1 & T1)] & [_ (e3 & T3)] & _ & T2 & L).
  exists s', (e1 ++ evs ++ e3).
  assert (T : trace s' = trace s ++ e1 ++ evs ++ e3)
    by (rewrite T3, T2, T1; now rewrite <- !app_assoc).
  split; [exact E|]. split; [exact T|]. split.
  - destruct (downloadFiles_not_fatal w ftp hostname src dst _ _ _ E)
      as (evs' & T' & F).
    rewrite T in T'. apply app_inv_head in T'. now rewrite T'.
  - intros name Hin Hdot Hdotdot.
    destruct (L name Hin Hdot Hdotdot) as (H1 & H2 & _).
    rewrite !elem_of_app. split; [tauto|]. intros Hf. right. left. auto.
Qed.


(** * Archive expansion *)





Section Unzip.

Context (w : World) (d i content : string) (s : state).
Context (Hfile : fs s !! os_path_join w d i = Some (File content)).

Lemma is_zipfile_eq :
  zipfile_is_zipfile w (os_path_join w d i) s = (Ret (is_zipfile w content), s).
Proof.
  unfold zipfile_is_zipfile. erewrite bind_Ret by reflexivity.
  cbv beta. now rewrite Hfile.
Qed.

Lemma open_read_eq : open_read (os_path_join w d i) s = (Ret content, s).
Proof.
  unfold open_read. erewrite bind_Ret by reflexivity. cbv beta.
  now rewrite Hfile.
Qed.

Lemma is_tarfile_eq :
  tarfile_is_tarfile w (os_path_join w d i) s = (Ret (is_tarfile w content), s).
Proof.
  unfold tarfile_is_tarfile. erewrite bind_Ret by apply open_read_eq.
  reflexivity.
Qed.



(** A file with neither signature: nothing happens. *)
Lemma unzip_one_plain :
  is_zipfile w content = false → is_tarfile w content = false →
  unzip_one w (Some d) i s = (Ret tt, s).
Proof.
  intros Hz Ht. unfold unzip_one.
  erewrite bind_Ret by reflexivity.
  erewrite bind_Ret by apply is_zipfile_eq. rewrite Hz. cbv iota.
  erewrite bind_Ret by apply is_tarfile_eq. rewrite Ht. reflexivity.
Qed.

End Unzip.

(** The loop of [unzipZippedFiles] over files that are no archives changes
    nothing. *)
Lemma unzipZippedFiles_plain w d names s :
  Forall (λ i, ∃ c, fs s !! os_path_join w d i = Some (File c)
                    ∧ is_zipfile w c = false ∧ is_tarfile w c = false) names →
  unzipZippedFiles w (Some d) names s = (Ret tt, s).
Proof.
  unfold unzipZippedFiles. induction 1 as [|i names (c & Hf & Hz & Ht) _ IH].
  - reflexivity.
  - cbn [for_each].
    erewrite bind_Ret by (eapply unzip_one_plain; eassumption). exact IH.
Qed.


Lemma unzipZippedFiles_stops w dst before i after s s1 e s2 :
  unzipZippedFiles w dst before s = (Ret tt, s1) →
  unzip_one w dst i s1 = (Raise e, s2) →
  unzipZippedFiles w dst (before ++ i :: after) s = (Raise e, s2).
Proof.
  intros Hb Hi. unfold unzipZippedFiles in *. rewrite for_each_app.
  erewrite bind_Ret by exact Hb. cbn [for_each].
  erewrite bind_Raise by exact Hi. reflexivity.
Qed.




(** * The purge of the default download directory *)

(** C9 (the code departs from the claim).  A run without any option on the
    example machine: [main] logs [Preserve: True] and completes, and yet the
    export of the earlier run, which was in the default download directory,
    is gone.  [parseArgs] has called [getDefaultDownloadPath] with the flag
    of the command line, [False], before [main] forces the flag to [True]. *)
Theorem purge_runs_despite_forced_preserve :
  let w := demo_world (Some (DMap one_site)) in
  let r := main w (Some []) demo_state in
  fs demo_state !! "/home/u/SureDone_export.csv" = Some (File "old export")
  ∧ r.1 = Ret tt
  ∧ trace r.2 !! 0%nat = Some (LogLine Normal "Purged existing files." [])
  ∧ trace r.2 !! 3%nat = Some (LogLine Normal "Preserve: {}" [ABool true])
  ∧ fs r.2 !! "/home/u/SureDone_export.csv" = None.
Proof. vm_compute. repeat split. Qed.

(** * The example session *)

(** Applying C5 to the example server, whose listing holds [.] and [..]. *)
Lemma dot_entries_never_fetched_witness :
  let w := demo_world (Some (DMap one_site)) in
  ∃ files s',
    downloadFiles w demo_server (PStr "ftp.example.com") (PStr "/out")
      (Some "/home/u") demo_state
    = (Ret files, s')
    ∧ ("." ∉ files) ∧ (".." ∉ files)
    ∧ ∀ n, n ∈ files → n ∈ ["a.txt"; "b.zip"; "."; ".."; "sub"].
Proof.
  intros w.
  apply (proj2 (dot_entries_never_fetched w demo_server
                  (PStr "ftp.example.com") (PStr "/out") (Some "/home/u")
                  demo_state)
           demo_dir
           ["-rw-r--r-- a.txt"; "-rw-r--r-- b.zip"; "drwxr-xr-x sub"]);
    reflexivity.
Defined.

(** On the example machine a file can be created where the parent directory
    is, and directories neither come nor go when files are written. *)
Lemma demo_create_stable doc f : create_stable (demo_world doc) f.
Proof.
  intros f' p G. cbn [can_create demo_world].
  change (is_dir (f' !! parent p) = is_dir (f !! parent p)).
  now destruct (G (parent p)) as [-> _].
Qed.

(** Applying C6 to a server whose listing holds a file, a name below a local
    directory that does not exist, and a file whose transfer breaks: only
    the first one is returned. *)
Lemma failed_fetch_is_skipped_witness :
  let w := demo_world (Some (DMap one_site)) in
  ∃ s' evs,
    downloadFiles w broken_server (PStr "ftp.example.com") (PStr "/out")
      (Some "/home/u") demo_state
    = (Ret (List.filter
              (fetch_ok w broken_dir (Some "/home/u") (fs demo_state))
              ["a.txt"; "x/y.txt"; "part.bin"]), s')
    ∧ trace s' = trace demo_state ++ evs
    ∧ Forall not_fatal evs
    ∧ ∀ name, name ∈ ["a.txt"; "x/y.txt"; "part.bin"] →
        name ≠ "." → name ≠ ".." →
        downloading name ∈ evs
        ∧ (fetch_ok w broken_dir (Some "/home/u") (fs demo_state) name = false →
           skipping name ∈ evs).
Proof.
  intros w.
  apply (failed_fetch_is_skipped w broken_server (PStr "ftp.example.com")
           (PStr "/out") (Some "/home/u") demo_state broken_dir
           ["-rw-r--r-- a.txt"; "-rw-r--r-- x/y.txt"; "-rw-r--r-- part.bin"]);
    try reflexivity.
  apply demo_create_stable.
Defined.

Example demo_fetched :
  List.filter
    (fetch_ok (demo_world (Some (DMap one_site))) broken_dir (Some "/home/u")
       (fs demo_state))
    ["a.txt"; "x/y.txt"; "part.bin"]
  = ["a.txt"].
Proof. vm_compute. reflexivity. Qed.


(** The end-to-end scenario of the specification: listing
    [a.txt, b.zip, ., .., sub], expansion enabled, [b.zip] holding
    [c.txt]. *)
Example end_to_end :
  let w := demo_world (Some (DMap one_site)) in
  let r := main w (Some [OptUnzip; OptPreserve]) demo_state in
  r.1 = Ret tt
  ∧ fs r.2 !! "/home/u/a.txt" = Some (File "hello")
  ∧ fs r.2 !! "/home/u/b.zip" = Some (File "PKc.txt")
  ∧ fs r.2 !! "/home/u/c.txt" = Some (File "inner")
  ∧ fs r.2 !! "/home/u/sub" = Some (File "")
  ∧ fs r.2 !! "/home/u/SureDone_export.csv" = Some (File "old export").
Proof. vm_compute. repeat split. Qed.

(** * Further properties of the script *)

(** ** What the script does to the file system *)

Create HintDb fs_db.

Section FsStep.

Context (R : gmap string node → gmap string node → Prop).
Context (R_refl : ∀ f, R f f).
Context (R_trans : ∀ f1 f2 f3, R f1 f2 → R f2 f3 → R f1 f3).

Lemma fs_step_ret {A} (a : A) : fs_step R (ret a).
Proof. intros s r s' H. inversion H; subst. apply R_refl. Qed.

Lemma fs_step_raise {A} e : fs_step R (@raise A e).
Proof. intros s r s' H. inversion H; subst. apply R_refl. Qed.

Lemma fs_step_get_state : fs_step R get_state.
Proof. intros s r s' H. inversion H; subst. apply R_refl. Qed.

Lemma fs_step_emit e : fs_step R (emit e).
Proof. intros s r s' H. inversion H; subst. apply R_refl. Qed.

Lemma fs_step_set_verbose b : fs_step R (modify (set_verbose b)).
Proof. intros s r s' H. inversion H; subst. apply R_refl. Qed.

Lemma fs_step_set_fs g : (∀ f, R f (g f)) → fs_step R (modify (set_fs g)).
Proof. intros Hg s r s' H. inversion H; subst. apply Hg. Qed.

Lemma fs_step_bind {A B} (m : M A) (k : A → M B) :
  fs_step R m → (∀ a, fs_step R (k a)) → fs_step R (bind m k).
Proof.
  intros Hm Hk s r s' H.
  apply bind_inv in H as [(a & s1 & H1 & H2)|(e & H1 & ->)].
  - eapply R_trans; [eapply Hm|eapply Hk]; eassumption.
  - eapply Hm; eassumption.
Qed.

Lemma fs_step_ret_bind {A B} (a : A) (k : A → M B) :
  fs_step R (k a) → fs_step R (bind (ret a) k).
Proof. intros H s r s' E. apply (H s r s'). exact E. Qed.

Lemma fs_step_try_except {A} (m : M A) (h : exn → M A) :
  fs_step R m → (∀ e, fs_step R (h e)) → fs_step R (try_except m h).
Proof.
  intros Hm Hh s r s' H. unfold try_except in H.
  destruct (m s) as [[a|e] s1] eqn:E.
  - inversion H; subst. eapply Hm; eassumption.
  - destruct (is_Exception e).
    + eapply R_trans; [eapply Hm|eapply Hh]; eassumption.
    + inversion H; subst. eapply Hm; eassumption.
Qed.

Lemma fs_step_for_each {A B} (f : A → B → M B) l :
  (∀ x acc, fs_step R (f x acc)) → ∀ acc, fs_step R (for_each f l acc).
Proof.
  intros Hf. induction l as [|x l IH]; intros acc; simpl.
  - apply fs_step_ret.
  - apply fs_step_bind; auto.
Qed.

End FsStep.

Ltac fs_one :=
  first
    [ solve [eauto with fs_db]
    | apply fs_step_ret; solve [auto]
    | apply fs_step_raise; solve [auto]
    | apply fs_step_get_state; solve [auto]
    | apply fs_step_emit; solve [auto]
    | apply fs_step_set_verbose; solve [auto]
    | apply fs_step_set_fs; solve [eauto with fs_db]
    | apply fs_step_bind; [solve [auto]| |intros ?]
    | apply fs_step_try_except; [solve [auto]| |intros ?]
    | apply fs_step_for_each; [solve [auto]|solve [auto]|intros ? ?]
    | match goal with
      | |- fs_step _ (if ?b then _ else _) => destruct b
      | |- fs_step _ (match ?x with _ => _ end) => destruct x
      end ].

Ltac fs_solve := repeat fs_one.

Section FsScript.

Context (w : World) (R : gmap string node → gmap string node → Prop).
Context (R_refl : ∀ f, R f f).
Context (R_trans : ∀ f1 f2 f3, R f1 f2 → R f2 f3 → R f1 f3).

Lemma fs_step_details f : fs_step R (details f).
Proof. unfold details. fs_solve. Qed.
Hint Resolve fs_step_details : fs_db.

Lemma fs_step_writeLog m a sev d : fs_step R (writeLog m a sev d).
Proof. unfold writeLog. fs_solve. Qed.

Lemma fs_step_print m a : fs_step R (print m a).
Proof. unfold print. fs_solve. Qed.

Lemma fs_step_os_path_exists p : fs_step R (os_path_exists p).
Proof. unfold os_path_exists. fs_solve. Qed.

Lemma fs_step_os_path_isdir p : fs_step R (os_path_isdir p).
Proof. unfold os_path_isdir. fs_solve. Qed.

Lemma fs_step_open_read p : fs_step R (open_read p).
Proof. unfold open_read. fs_solve. Qed.

Lemma fs_step_os_path_getsize p : fs_step R (os_path_getsize w p).
Proof. unfold os_path_getsize. fs_solve. Qed.

Lemma fs_step_path_join a b : fs_step R (path_join w a b).
Proof. unfold path_join. fs_solve. Qed.

Lemma fs_step_getitem {V} k (d : dict V) : fs_step R (getitem k d).
Proof. unfold getitem. fs_solve. Qed.

Lemma fs_step_delitem {V} k (d : dict V) : fs_step R (delitem k d).
Proof. unfold delitem. fs_solve. Qed.

Lemma fs_step_entry_keys e : fs_step R (entry_keys e).
Proof. unfold entry_keys. fs_solve. Qed.

Lemma fs_step_entry_getitem k e : fs_step R (entry_getitem k e).
Proof. unfold entry_getitem. destruct e; [apply fs_step_getitem|fs_solve]. Qed.

Hint Resolve fs_step_writeLog fs_step_print fs_step_os_path_exists
  fs_step_os_path_isdir fs_step_open_read fs_step_os_path_getsize
  fs_step_path_join fs_step_getitem fs_step_delitem fs_step_entry_keys
  fs_step_entry_getitem : fs_db.

Lemma fs_step_and_chain e ks : fs_step R (and_chain e ks).
Proof. induction ks; simpl; fs_solve. Qed.
Hint Resolve fs_step_and_chain : fs_db.

Lemma fs_step_check_config c d : fs_step R (check_config c d).
Proof. unfold check_config. fs_solve. Qed.
Hint Resolve fs_step_check_config : fs_db.

Lemma fs_step_loadCredentials p : fs_step R (loadCredentials w p).
Proof. unfold loadCredentials. fs_solve. Qed.

Lemma fs_step_validateConfigPath p : fs_step R (validateConfigPath p).
Proof. unfold validateConfigPath. fs_solve. Qed.

Lemma fs_step_validateDownloadPath p : fs_step R (validateDownloadPath p).
Proof. unfold validateDownloadPath. fs_solve. Qed.
Hint Resolve fs_step_loadCredentials fs_step_validateConfigPath
  fs_step_validateDownloadPath : fs_db.

Lemma fs_step_parse_option o a : fs_step R (parse_option o a).
Proof. unfold parse_option, exit. fs_solve. Qed.
Hint Resolve fs_step_parse_option : fs_db.

Lemma fs_step_parse_options argv : fs_step R (parse_options argv).
Proof. unfold parse_options, exit. fs_solve. Qed.

Lemma fs_step_not_found : fs_step R not_found_in_defaults.
Proof. unfold not_found_in_defaults, exit. fs_solve. Qed.
Hint Resolve fs_step_parse_options fs_step_not_found : fs_db.

Lemma fs_step_getDefaultConfigPath : fs_step R (getDefaultConfigPath w).
Proof. unfold getDefaultConfigPath, exit. fs_solve. Qed.

Lemma fs_step_validate_target a d : fs_step R (validate_target a d).
Proof. unfold validate_target, exit. fs_solve. Qed.

Lemma fs_step_safeExit d l m : fs_step R (safeExit w d l m).
Proof. unfold safeExit. fs_solve. Qed.

Lemma fs_step_ftp_answer {A} (o : option A) : fs_step R (ftp_answer o).
Proof. unfold ftp_answer. fs_solve. Qed.

Hint Resolve fs_step_getDefaultConfigPath fs_step_validate_target
  fs_step_safeExit fs_step_ftp_answer : fs_db.

Lemma fs_step_disconnectFtp ftp h : fs_step R (disconnectFtp ftp h).
Proof. unfold disconnectFtp. fs_solve. Qed.
Hint Resolve fs_step_disconnectFtp : fs_db.

(** The functions that create or overwrite files and directories. *)
Context (R_insert : ∀ f p n, R f (<[p := n]> f)).
Hint Resolve R_insert : fs_db.

Lemma fs_step_open_wb p : fs_step R (open_wb w p).
Proof. unfold open_wb. fs_solve. Qed.

Lemma fs_step_file_write p b wr : fs_step R (file_write w p b wr).
Proof. unfold file_write. fs_solve. Qed.

Lemma fs_step_file_close p wr : fs_step R (file_close p wr).
Proof. unfold file_close. fs_solve. Qed.
Hint Resolve fs_step_open_wb fs_step_file_write fs_step_file_close : fs_db.

Lemma fs_step_retrbinary rd n p : fs_step R (retrbinary w rd n p).
Proof. unfold retrbinary. fs_solve. Qed.
Hint Resolve fs_step_retrbinary : fs_db.

Lemma fs_step_download_one rd d n acc : fs_step R (download_one w rd d n acc).
Proof. unfold download_one. fs_solve. Qed.
Hint Resolve fs_step_download_one : fs_db.

Lemma fs_step_downloadFiles ftp h src d : fs_step R (downloadFiles w ftp h src d).
Proof. unfold downloadFiles. fs_solve. Qed.
Hint Resolve fs_step_downloadFiles : fs_db.

Lemma fs_step_connectToFTP e site d : fs_step R (connectToFTP w e site d).
Proof. unfold connectToFTP. fs_solve. Qed.

Lemma fs_step_extract x : fs_step R (extract x).
Proof. unfold extract. fs_solve. Qed.
Hint Resolve fs_step_connectToFTP fs_step_extract : fs_db.

Lemma fs_step_unzip_one d i : fs_step R (unzip_one w d i).
Proof.
  unfold unzip_one, zipfile_is_zipfile, tarfile_is_tarfile,
    zipfile_extractall, tarfile_extractall.
  fs_solve.
Qed.
Hint Resolve fs_step_unzip_one : fs_db.

Lemma fs_step_unzipZippedFiles d l : fs_step R (unzipZippedFiles w d l).
Proof. unfold unzipZippedFiles. fs_solve. Qed.
Hint Resolve fs_step_unzipZippedFiles : fs_db.

Lemma fs_step_process_site cfgs d u site acc :
  fs_step R (process_site w cfgs d u site acc).
Proof. unfold process_site. fs_solve. Qed.
Hint Resolve fs_step_process_site : fs_db.

Lemma fs_step_run_sites p b : fs_step R (run_sites w p b).
Proof. unfold run_sites. fs_solve. Qed.
Hint Resolve fs_step_run_sites : fs_db.

(** The purge of the default download directory. *)
Context (R_purge :
  ∀ dir f,
    R f (filter (λ kv, purge_hit w dir (contains "SureDone_") true kv.1 kv.2
                       = false) f)).
Hint Resolve R_purge : fs_db.

Lemma fs_step_purge dir : fs_step R (purge w dir "SureDone_" true).
Proof.
  unfold purge, re_compile.
  change (compiled w "SureDone_") with (Some (contains "SureDone_")).
  cbv iota beta. apply fs_step_ret_bind; [assumption..|].
  fs_solve.
Qed.
Hint Resolve fs_step_purge : fs_db.

Lemma fs_step_getDefaultDownloadPath b : fs_step R (getDefaultDownloadPath w b).
Proof. unfold getDefaultDownloadPath. fs_solve. Qed.
Hint Resolve fs_step_getDefaultDownloadPath : fs_db.

Lemma fs_step_resolve_paths a : fs_step R (resolve_paths w a).
Proof. unfold resolve_paths. fs_solve. Qed.
Hint Resolve fs_step_resolve_paths : fs_db.

Lemma fs_step_parseArgs argv : fs_step R (parseArgs w argv).
Proof. unfold parseArgs. fs_solve. Qed.
Hint Resolve fs_step_parseArgs : fs_db.

Lemma fs_step_main argv : fs_step R (main w argv).
Proof. unfold main. fs_solve. Qed.

End FsScript.

Lemma no_loss_refl f : no_loss f f.
Proof. intros q H. exact H. Qed.

Lemma no_loss_trans f1 f2 f3 : no_loss f1 f2 → no_loss f2 f3 → no_loss f1 f3.
Proof. intros H1 H2 q H. auto. Qed.

Lemma no_loss_insert (f : gmap string node) p n : no_loss f (<[p := n]> f).
Proof.
  intros q H. destruct (decide (p = q)) as [->|Hne].
  - rewrite lookup_insert_eq. eauto.
  - now rewrite lookup_insert_ne.
Qed.

Lemma lop_refl f : loses_only_purgeable f f.
Proof. intros q H. now left. Qed.

Lemma lop_trans f1 f2 f3 :
  loses_only_purgeable f1 f2 → loses_only_purgeable f2 f3 →
  loses_only_purgeable f1 f3.
Proof.
  intros H1 H2 q H. destruct (H1 q H) as [H'|H']; [auto|now right].
Qed.

Lemma lop_no_loss f f' : no_loss f f' → loses_only_purgeable f f'.
Proof. intros H q Hq. left. auto. Qed.

Lemma lop_purge w dir (f : gmap string node) :
  loses_only_purgeable f
    (filter (λ kv, purge_hit w dir (contains "SureDone_") true kv.1 kv.2
                   = false) f).
Proof.
  intros q [x Hx].
  destruct (purge_hit w dir (contains "SureDone_") true q x) eqn:Hhit.
  - right. unfold purge_hit in Hhit. destruct x as [c|]; [|discriminate Hhit].
    rewrite !andb_true_iff in Hhit. destruct Hhit as [[_ H1] H2].
    split.
    + destruct (contains "SureDone_" q); [reflexivity|discriminate H1].
    + now apply negb_true_iff in H2.
  - left. exists x. apply map_lookup_filter_Some. split; assumption.
Qed.

(** X1.  Whatever the options and whatever happens in the run, the only
    paths that [main] can make disappear are paths that hold [SureDone_] and
    do not end in [.py]: every other path that was on disk before the run is
    on disk after it. *)
Theorem main_loses_only_purgeable w argv s r s' q :
  main w argv s = (r, s') →
  is_Some (fs s !! q) →
  is_Some (fs s' !! q) ∨ purgeable q.
Proof.
  intros H. revert q.
  refine (fs_step_main w loses_only_purgeable lop_refl lop_trans _ _ argv
            s r s' H).
  - intros f p x. apply lop_no_loss, no_loss_insert.
  - intros dir f. apply lop_purge.
Qed.

(** Applying X1 to the run without options on the example machine, for the
    configuration file. *)
Lemma main_loses_only_purgeable_witness :
  let w := demo_world (Some (DMap one_site)) in
  is_Some (fs (main w (Some []) demo_state).2 !! "/work/ftp.yaml")
  ∨ purgeable "/work/ftp.yaml".
Proof.
  intros w.
  apply (main_loses_only_purgeable w (Some []) demo_state
           (main w (Some []) demo_state).1 (main w (Some []) demo_state).2).
  - apply surjective_pairing.
  - vm_compute. eauto.
Defined.

Lemma parse_option_preserve o a s a' s' :
  parse_option o a s = (Ret a', s') →
  preserveOldFiles a = true ∨ o = OptPreserve →
  preserveOldFiles a' = true.
Proof.
  intros H Hp. destruct o; cbn [parse_option] in H.
  - apply bind_inv in H as [(x & s1 & _ & H)|(e & _ & H)]; [|discriminate H].
    apply bind_inv in H as [(y & s2 & _ & H)|(e & _ & H)]; discriminate H.
  - inversion H; subst. destruct Hp as [Hp|Hp]; [assumption|discriminate Hp].
  - apply bind_inv in H as [(x & s1 & _ & H)|(e & _ & H)]; [|discriminate H].
    inversion H; subst. cbn. destruct Hp as [Hp|Hp]; [assumption|discriminate Hp].
  - apply bind_inv in H as [(x & s1 & _ & H)|(e & _ & H)]; [|discriminate H].
    inversion H; subst. cbn. destruct Hp as [Hp|Hp]; [assumption|discriminate Hp].
  - inversion H; subst. reflexivity.
  - apply bind_inv in H as [(x & s1 & _ & H)|(e & _ & H)]; [|discriminate H].
    inversion H; subst. cbn. destruct Hp as [Hp|Hp]; [assumption|discriminate Hp].
  - inversion H; subst. cbn. destruct Hp as [Hp|Hp]; [assumption|discriminate Hp].
  - inversion H; subst. cbn. destruct Hp as [Hp|Hp]; [assumption|discriminate Hp].
Qed.

Lemma parse_loop_preserve opts :
  ∀ a s a' s',
    for_each parse_option opts a s = (Ret a', s') →
    preserveOldFiles a = true ∨ OptPreserve ∈ opts →
    preserveOldFiles a' = true.
Proof.
  induction opts as [|o opts IH]; intros a s a' s' H Hp.
  - inversion H; subst. destruct Hp as [Hp|Hp]; [assumption|].
    now apply elem_of_nil in Hp.
  - cbn [for_each] in H.
    apply bind_inv in H as [(a1 & s1 & H1 & H)|(e & _ & H)]; [|discriminate H].
    apply (IH _ _ _ _ H).
    destruct Hp as [Hp|Hp].
    + left. eapply parse_option_preserve; [exact H1|now left].
    + apply elem_of_cons in Hp as [Heq|Hp].
      * left. eapply parse_option_preserve; [exact H1|right; now symmetry].
      * right. exact Hp.
Qed.

Lemma resolve_paths_preserve w a :
  preserveOldFiles a = true → fs_step no_loss (resolve_paths w a).
Proof.
  intros Hp. unfold resolve_paths, getDefaultDownloadPath. rewrite Hp.
  cbn [negb].
  pose proof (fs_step_getDefaultConfigPath w no_loss no_loss_refl no_loss_trans).
  apply fs_step_bind; [exact no_loss_trans| |intros p].
  - destruct (customYAMLPathFoundAndValidated a); cbn [negb];
      [apply fs_step_ret; exact no_loss_refl|assumption].
  - apply fs_step_bind; [exact no_loss_trans| |intros o].
    + destruct (customOutputPathFoundAndValidated a); cbn [negb];
        [apply fs_step_ret; exact no_loss_refl|].
      destruct (sys_platform w);
        repeat first [ apply fs_step_ret; exact no_loss_refl
                     | apply fs_step_bind; [exact no_loss_trans| |intros ?] ].
    + apply fs_step_ret. exact no_loss_refl.
Qed.

(** X2.  With [-p] or [--preserve] among the options, no path that was on
    disk before the run is lost, whatever happens in the run. *)
Theorem preserve_option_keeps_files w opts s r s' q :
  OptPreserve ∈ opts →
  main w (Some opts) s = (r, s') →
  is_Some (fs s !! q) → is_Some (fs s' !! q).
Proof.
  intros Hp H. revert q. change (no_loss (fs s) (fs s')).
  pose proof no_loss_refl as Hr. pose proof no_loss_trans as Ht.
  pose proof no_loss_insert as Hi.
  unfold main in H.
  apply bind_inv in H as [(p & s4 & H4 & H)|(e & H4 & ->)].
  - eapply no_loss_trans;
      [|eapply (fs_step_run_sites w no_loss); eassumption].
    clear H. unfold parseArgs in H4.
    apply bind_inv in H4 as [(a & s1 & H1 & H4)|(e & H1 & H4)]; [|discriminate H4].
    assert (Hpa : preserveOldFiles a = true)
      by (eapply parse_loop_preserve; [exact H1|now right]).
    eapply no_loss_trans;
      [eapply (fs_step_parse_options no_loss); eassumption|].
    apply bind_inv in H4 as [(ps & s2 & H2 & H4)|(e & H2 & H4)]; [|discriminate H4].
    eapply no_loss_trans; [eapply resolve_paths_preserve; eassumption|].
    apply bind_inv in H4 as [(c & s3 & H3 & H4)|(e & H3 & H4)]; [|discriminate H4].
    eapply no_loss_trans;
      [eapply (fs_step_loadCredentials w no_loss); eassumption|].
    apply bind_inv in H4 as [(t & s5 & H5 & H4)|(e & H5 & H4)]; [|discriminate H4].
    inversion H4; subst.
    eapply (fs_step_validate_target no_loss); eassumption.
  - unfold parseArgs in H4.
    apply bind_inv in H4 as [(a & s1 & H1 & H4)|(e' & H1 & H4)].
    2:{ eapply (fs_step_parse_options no_loss); eassumption. }
    assert (Hpa : preserveOldFiles a = true)
      by (eapply parse_loop_preserve; [exact H1|now right]).
    eapply no_loss_trans;
      [eapply (fs_step_parse_options no_loss); eassumption|].
    apply bind_inv in H4 as [(ps & s2 & H2 & H4)|(e' & H2 & H4)].
    2:{ eapply resolve_paths_preserve; eassumption. }
    eapply no_loss_trans; [eapply resolve_paths_preserve; eassumption|].
    apply bind_inv in H4 as [(c & s3 & H3 & H4)|(e' & H3 & H4)].
    2:{ eapply (fs_step_loadCredentials w no_loss); eassumption. }
    eapply no_loss_trans;
      [eapply (fs_step_loadCredentials w no_loss); eassumption|].
    apply bind_inv in H4 as [(t & s5 & H5 & H4)|(e' & H5 & H4)];
      [discriminate H4|].
    eapply (fs_step_validate_target no_loss); eassumption.
Qed.

(** Applying X2 to the run with [-p] on the example machine, for the export
    of the earlier run. *)
Lemma preserve_option_keeps_files_witness :
  let w := demo_world (Some (DMap one_site)) in
  is_Some (fs (main w (Some [OptPreserve]) demo_state).2
           !! "/home/u/SureDone_export.csv").
Proof.
  intros w.
  apply (preserve_option_keeps_files w [OptPreserve] demo_state
           (main w (Some [OptPreserve]) demo_state).1).
  - apply elem_of_cons. now left.
  - apply surjective_pairing.
  - vm_compute. eauto.
Defined.

(** ** purge *)

Lemma purge_size w dir search inclusive (f : gmap string node) :
  size f
  = (size (filter (λ kv, purge_hit w dir search inclusive kv.1 kv.2 = true) f)
     + size (filter (λ kv, purge_hit w dir search inclusive kv.1 kv.2 = false) f))%nat.
Proof.
  rewrite <- map_size_disj_union.
  - f_equal. symmetry.
    rewrite <- (map_filter_union_complement
                  (λ kv, purge_hit w dir search inclusive kv.1 kv.2 = true) f)
      at 3.
    f_equal. apply map_filter_ext. intros q x _. simpl.
    destruct (purge_hit w dir search inclusive q x); split; congruence.
  - apply map_disjoint_spec. intros q x y.
    rewrite !map_lookup_filter_Some. simpl. intros [H1 H2] [H3 H4]. congruence.
Qed.

Lemma purge_lookup w dir search inclusive (f : gmap string node) q :
  filter (λ kv, purge_hit w dir search inclusive kv.1 kv.2 = false) f !! q
  = match f !! q with
    | Some x => if purge_hit w dir search inclusive q x then None else Some x
    | None => None
    end.
Proof.
  destruct (f !! q) as [x|] eqn:Hx.
  - destruct (purge_hit w dir search inclusive q x) eqn:Hhit.
    + apply map_lookup_filter_None. right. intros y Hy. simpl.
      rewrite Hx in Hy. inversion Hy; subst. congruence.
    + apply map_lookup_filter_Some. split; assumption.
  - apply map_lookup_filter_None. now left.
Qed.

(** X3.  [purge] first compiles the pattern: a pattern the regular
    expression engine refuses makes it raise [re.error] with nothing changed,
    whatever the directory.  With a compiled pattern and on a directory, it
    removes exactly the files that are below the directory (their path goes
    on from the directory joined to the empty name), for whose path the
    search of the pattern answers as [inclusive] says, and whose path does
    not end in [.py].  Every other path keeps what it held, directories are
    never removed, nothing appears, nothing is logged, and the number
    returned is the number of files removed.  On a path that is no directory
    it does nothing and returns [0].  A pattern without special characters is
    always compiled, and is searched for as a substring of the path. *)
Theorem purge_effect w dir pattern inclusive s :
  (compiled w pattern = None →
   purge w dir pattern inclusive s = (Raise ReError, s))
  ∧ (∀ search, compiled w pattern = Some search →
       (fs s !! dir = Some Dir →
        ∃ n s',
          purge w dir pattern inclusive s = (Ret n, s')
          ∧ trace s' = trace s
          ∧ (∀ q c, fs s !! q = Some (File c) →
               String.prefix (os_path_join w dir "") q = true →
               search q = inclusive →
               endswith q ".py" = false →
               fs s' !! q = None)
          ∧ (∀ q, fs s !! q = Some Dir
                  ∨ String.prefix (os_path_join w dir "") q = false
                  ∨ search q ≠ inclusive
                  ∨ endswith q ".py" = true →
               fs s' !! q = fs s !! q)
          ∧ (∀ q, fs s !! q = None → fs s' !! q = None)
          ∧ size (fs s) = (n + size (fs s'))%nat)
       ∧ (fs s !! dir ≠ Some Dir →
          purge w dir pattern inclusive s = (Ret 0%nat, s)))
  ∧ (plain_pattern pattern = true →
     compiled w pattern = Some (contains pattern)).
Proof.
  split; [|split].
  - intros Hc. unfold purge, re_compile. rewrite Hc. reflexivity.
  - intros search Hc. split.
    + intros Hdir. unfold purge, re_compile. rewrite Hc.
      erewrite bind_Ret by reflexivity.
      erewrite bind_Ret by reflexivity. cbv beta. rewrite Hdir.
      erewrite bind_Ret by reflexivity.
      eexists _, _. split; [reflexivity|]. split; [reflexivity|].
      cbn [set_fs fs].
      split; [|split; [|split]].
      * intros q c Hq Hp Hs He. rewrite purge_lookup, Hq.
        unfold purge_hit. rewrite Hp, Hs, He.
        now destruct inclusive.
      * intros q Hq. rewrite purge_lookup.
        destruct (fs s !! q) as [[c|]|]; try reflexivity.
        unfold purge_hit.
        destruct Hq as [Hq|[Hq|[Hq|Hq]]].
        -- discriminate Hq.
        -- now rewrite Hq.
        -- destruct (Bool.eqb (search q) inclusive) eqn:E.
           ++ apply Bool.eqb_prop in E. contradiction.
           ++ now rewrite andb_false_r.
        -- rewrite Hq. now rewrite andb_false_r.
      * intros q Hq. now rewrite purge_lookup, Hq.
      * apply purge_size.
    + intros Hdir. unfold purge, re_compile. rewrite Hc.
      erewrite bind_Ret by reflexivity.
      erewrite bind_Ret by reflexivity. cbv beta.
      destruct (fs s !! dir) as [[c|]|]; try reflexivity. congruence.
  - intros Hp. unfold compiled. now rewrite Hp.
Qed.

(** Applying X3 to the home directory of the example machine: the export of
    an earlier run goes, the configuration file stays. *)
Lemma purge_effect_witness :
  let w := demo_world (Some (DMap one_site)) in
  ∃ n s',
    purge w "/home/u" "SureDone_" true demo_state = (Ret n, s')
    ∧ fs s' !! "/home/u/SureDone_export.csv" = None
    ∧ fs s' !! "/work/ftp.yaml" = fs demo_state !! "/work/ftp.yaml"
    ∧ size (fs demo_state) = (n + size (fs s'))%nat.
Proof.
  intros w.
  destruct (proj1 (proj1 (proj2 (purge_effect w "/home/u" "SureDone_" true
                                   demo_state))
                     (contains "SureDone_") eq_refl) eq_refl)
    as (n & s' & E & _ & Hgone & Hkept & _ & Hsize).
  exists n, s'. split; [exact E|]. split; [|split].
  - apply (Hgone "/home/u/SureDone_export.csv" "old export"); reflexivity.
  - apply Hkept. right. left. reflexivity.
  - exact Hsize.
Defined.

(** ** getDefaultConfigPath *)

Lemma os_path_exists_eq p s :
  os_path_exists p s = (Ret (bool_decide (is_Some (fs s !! p))), s).
Proof. reflexivity. Qed.

Lemma not_found_eq s :
  not_found_in_defaults s
  = (Raise SystemExit,
     logged CodeBreaker
       "ftp.yaml config file wasn't found in default locations! Specify a path to FTP credentials YAML file using (-f --file) argument."
       [] s).
Proof.
  unfold not_found_in_defaults.
  erewrite bind_Ret by apply writeLog_fatal_1. reflexivity.
Qed.

Lemma logged_head sev m a s :
  ∃ evs, trace (logged sev m a s) = trace s ++ LogLine sev m a :: evs.
Proof.
  unfold logged. destruct (verbose s); cbn [add_event trace].
  - exists [Console m a]. now rewrite <- app_assoc.
  - now exists [].
Qed.

(** X4.  [getDefaultConfigPath] looks in the working directory first: when
    [ftp.yaml] is there, that path is returned and nothing else happens.  In
    general it either returns, without any effect, a path that exists and is
    [ftp.yaml] in the working directory or in the platform's default
    directory, or it writes a fatal entry and exits; it never returns a path
    that does not exist. *)
Theorem getDefaultConfigPath_result w s :
  (is_Some (fs s !! os_path_join w (os_getcwd w) "ftp.yaml") →
   getDefaultConfigPath w s
   = (Ret (os_path_join w (os_getcwd w) "ftp.yaml"), s))
  ∧ ∀ r s',
      getDefaultConfigPath w s = (r, s') →
      (∃ p, r = Ret p ∧ s' = s ∧ is_Some (fs s !! p)
            ∧ (p = os_path_join w (os_getcwd w) "ftp.yaml"
               ∨ (sys_platform w = Windows
                  ∧ p = os_path_join w (env_localappdata w) "ftp.yaml")
               ∨ (sys_platform w = Linux
                  ∧ p = os_path_join w (env_home w) "ftp.yaml")))
      ∨ (r = Raise SystemExit ∧ fs s' = fs s
         ∧ fs s !! os_path_join w (os_getcwd w) "ftp.yaml" = None
         ∧ ∃ m evs, trace s' = trace s ++ LogLine CodeBreaker m [] :: evs).
Proof.
  split.
  - intros Hc. unfold getDefaultConfigPath.
    erewrite bind_Ret by apply os_path_exists_eq.
    now rewrite bool_decide_eq_true_2.
  - intros r s' H. unfold getDefaultConfigPath in H.
    erewrite bind_Ret in H by apply os_path_exists_eq.
    destruct (bool_decide (is_Some (fs s !! os_path_join w (os_getcwd w) "ftp.yaml")))
      eqn:Hc.
    { apply bool_decide_eq_true_1 in Hc. inversion H; subst.
      left. eexists. repeat split; [assumption|now left]. }
    apply bool_decide_eq_false_1 in Hc.
    assert (Hnone : fs s !! os_path_join w (os_getcwd w) "ftp.yaml" = None).
    { destruct (fs s !! os_path_join w (os_getcwd w) "ftp.yaml") eqn:E;
        [exfalso; apply Hc; eauto|reflexivity]. }
    assert (Hnf : ∀ r s', not_found_in_defaults s = (r, s') →
              r = Raise SystemExit ∧ fs s' = fs s
              ∧ ∃ m evs, trace s' = trace s ++ LogLine CodeBreaker m [] :: evs).
    { intros r0 s0 H0. rewrite not_found_eq in H0. inversion H0; subst.
      split; [reflexivity|]. split; [apply logged_fs|].
      destruct (logged_head CodeBreaker
        "ftp.yaml config file wasn't found in default locations! Specify a path to FTP credentials YAML file using (-f --file) argument."
        [] s) as (evs & T). eauto. }
    destruct (sys_platform w) eqn:Hp.
    + erewrite bind_Ret in H by apply os_path_exists_eq.
      destruct (bool_decide (is_Some (fs s !! os_path_join w (env_localappdata w) "ftp.yaml")))
        eqn:Hd.
      * apply bool_decide_eq_true_1 in Hd. inversion H; subst.
        left. eexists. repeat split; [assumption|]. right. left. now split.
      * right. apply Hnf in H as (-> & F & T). repeat split; assumption.
    + erewrite bind_Ret in H by apply os_path_exists_eq.
      destruct (bool_decide (is_Some (fs s !! os_path_join w (env_home w) "ftp.yaml")))
        eqn:Hd.
      * apply bool_decide_eq_true_1 in Hd. inversion H; subst.
        left. eexists. repeat split; [assumption|]. right. right. now split.
      * right. apply Hnf in H as (-> & F & T). repeat split; assumption.
    + erewrite bind_Ret in H by apply writeLog_fatal_1.
      inversion H; subst. right.
      split; [reflexivity|]. split; [apply (logged_fs CodeBreaker)|].
      split; [assumption|].
      destruct (logged_head CodeBreaker
        "Platform couldn't be recognized. Are you sure you are running this script on Windows or Ubuntu Linux?"
        [] s) as (evs & T). eauto.
Qed.

(** Applying X4 to the example machine, whose working directory holds the
    file. *)
Lemma getDefaultConfigPath_result_witness :
  let w := demo_world (Some (DMap one_site)) in
  getDefaultConfigPath w demo_state = (Ret "/work/ftp.yaml", demo_state).
Proof.
  intros w.
  apply (proj1 (getDefaultConfigPath_result w demo_state)).
  vm_compute. eauto.
Defined.

(** ** parseArgs *)

(** X5.  Whenever [parseArgs] returns, every site the driver is going to
    iterate over is a key of the catalog it returns, so that the look-up
    [ftpConfigs[site]] in [main] cannot fail. *)
Theorem parseArgs_targets_in_catalog w argv s p s' site :
  parseArgs w argv s = (Ret p, s') →
  site ∈ target_sites (p_ftpConfigs p) (p_targetSite p) →
  site ∈ dict_keys (p_ftpConfigs p)
  ∧ ∃ e, getitem site (p_ftpConfigs p) s' = (Ret e, s').
Proof.
  intros H Hin.
  assert (Hk : site ∈ dict_keys (p_ftpConfigs p)).
  { unfold parseArgs in H.
    apply bind_inv in H as [(a & s1 & _ & H)|(e & _ & H)]; [|discriminate H].
    apply bind_inv in H as [(ps & s2 & _ & H)|(e & _ & H)]; [|discriminate H].
    apply bind_inv in H as [(c & s3 & _ & H)|(e & _ & H)]; [|discriminate H].
    apply bind_inv in H as [(t & s4 & Ht & H)|(e & _ & H)]; [|discriminate H].
    inversion H; subst. cbn [p_ftpConfigs p_targetSite] in *.
    unfold target_sites in Hin.
    destruct (String.eqb t ".*_.*") eqn:Et; [exact Hin|].
    apply list_elem_of_singleton in Hin. subst site.
    unfold validate_target in Ht.
    destruct (targetSiteSpecified a).
    - destruct (dict_has (targetSite a) c) eqn:Hh; cbn [negb] in Ht.
      + inversion Ht; subst. now apply dict_has_true.
      + apply bind_inv in Ht as [(x & s5 & _ & Ht)|(e & _ & Ht)]; [|discriminate Ht].
        apply bind_inv in Ht as [(y & s6 & _ & Ht)|(e & _ & Ht)]; [|discriminate Ht].
        apply bind_inv in Ht as [(z & s7 & _ & Ht)|(e & _ & Ht)]; discriminate Ht.
    - inversion Ht; subst. discriminate Et. }
  split; [exact Hk|].
  destruct (dict_get_of_key site _ Hk) as (e & Hg & _).
  exists e. unfold getitem. now rewrite Hg.
Qed.

(** Applying X5 to the run on the example machine that names [siteA]. *)
Lemma parseArgs_targets_in_catalog_witness :
  let w := demo_world (Some (DMap one_site)) in
  let run := parseArgs w (Some [OptSite "siteA"; OptPreserve]) demo_state in
  "siteA" ∈ dict_keys one_site
  ∧ ∃ e, getitem "siteA" one_site run.2 = (Ret e, run.2).
Proof.
  intros w run.
  apply (parseArgs_targets_in_catalog w (Some [OptSite "siteA"; OptPreserve])
           demo_state
           (mkParsed "/work/ftp.yaml" (Some "/home/u") true false false
              one_site "siteA")
           run.2 "siteA").
  - vm_compute. reflexivity.
  - apply elem_of_cons. now left.
Defined.

(** ** The help option *)

Lemma parse_option_Ret o a s :
  o ≠ OptH → ∃ a' s', parse_option o a s = (Ret a', s') ∧ fs s' = fs s.
Proof.
  intros Ho.
  assert (Hc : ∀ v, ∃ b s', validateConfigPath v s = (Ret b, s') ∧ fs s' = fs s).
  { intros v. unfold validateConfigPath. destruct (endswith v "yaml"); cbn [negb].
    - erewrite bind_Ret by apply os_path_exists_eq.
      destruct (bool_decide _); cbn [negb].
      + eexists _, _. split; reflexivity.
      + erewrite bind_Ret by (apply writeLog_plain; discriminate).
        eexists _, _. split; [reflexivity|apply logged_fs].
    - erewrite bind_Ret by (apply writeLog_plain; discriminate).
      eexists _, _. split; [reflexivity|apply logged_fs]. }
  assert (Hd : ∀ v, ∃ b s', validateDownloadPath v s = (Ret b, s') ∧ fs s' = fs s).
  { intros v. unfold validateDownloadPath.
    erewrite bind_Ret by apply os_path_exists_eq.
    destruct (bool_decide _); cbn [negb].
    - erewrite bind_Ret by reflexivity. cbv beta.
      destruct (fs s !! v) as [[c|]|]; cbn [negb].
      + erewrite bind_Ret by (apply writeLog_plain; discriminate).
        eexists _, _. split; [reflexivity|apply logged_fs].
      + eexists _, _. split; reflexivity.
      + erewrite bind_Ret by (apply writeLog_plain; discriminate).
        eexists _, _. split; [reflexivity|apply logged_fs].
    - erewrite bind_Ret by (apply writeLog_plain; discriminate).
      eexists _, _. split; [reflexivity|apply logged_fs]. }
  destruct o; cbn [parse_option]; try congruence;
    try (eexists _, _; split; reflexivity).
  - destruct (Hc value) as (b & s' & E & F).
    erewrite bind_Ret by exact E. eexists _, _. split; [reflexivity|exact F].
  - destruct (Hd value) as (b & s' & E & F).
    erewrite bind_Ret by exact E. eexists _, _. split; [reflexivity|exact F].
Qed.

Lemma parse_loop_help opts :
  ∀ a s,
    OptH ∈ opts →
    ∃ s0,
      for_each parse_option opts a s
      = (Raise SystemExit,
         add_event (Printed HELP_MESSAGE [] true) (set_verbose true s0))
      ∧ fs s0 = fs s
      ∧ ∃ evs, trace s0 = trace s ++ evs ∧ Forall local_event evs.
Proof.
  induction opts as [|o opts IH]; intros a s Hin.
  - now apply elem_of_nil in Hin.
  - assert (Hd : o = OptH ∨ o ≠ OptH)
      by (destruct o; first [now left|right; discriminate]).
    destruct Hd as [->|Ho].
    + exists s. split; [reflexivity|]. split; [reflexivity|].
      exists []. split; [now rewrite app_nil_r|constructor].
    + apply elem_of_cons in Hin as [Hin|Hin]; [congruence|].
      destruct (parse_option_Ret o a s Ho) as (a1 & s1 & E1 & F1).
      destruct (IH a1 s1 Hin) as (s0 & E & F & evs & T & L).
      exists s0. cbn [for_each]. erewrite bind_Ret by exact E1.
      split; [exact E|]. split; [congruence|].
      assert (Ho1 : only local_event (parse_option o a)).
      { apply only_parse_option; intros; reflexivity. }
      destruct (Ho1 _ _ _ E1) as (ev1 & T1 & L1).
      exists (ev1 ++ evs). split; [rewrite T, T1; now rewrite app_assoc|].
      now apply Forall_app.
Qed.

(** X6.  With [-h] among the options, [main] prints the usage message on
    the terminal and exits, whatever the other options are: no file is
    touched, nothing is sent to an FTP server, and the message is the last
    thing the run does. *)
Theorem help_option_exits w opts s :
  OptH ∈ opts →
  ∃ s',
    main w (Some opts) s = (Raise SystemExit, s')
    ∧ fs s' = fs s
    ∧ verbose s' = true
    ∧ ftp_events (trace s') = ftp_events (trace s)
    ∧ last (trace s') = Some (Printed HELP_MESSAGE [] true).
Proof.
  intros Hin.
  destruct (parse_loop_help opts initial_args s Hin)
    as (s0 & E & F & evs & T & L).
  eexists. split.
  { unfold main, parseArgs, parse_options.
    erewrite bind_Raise; [reflexivity|].
    erewrite bind_Raise; [reflexivity|exact E]. }
  split; [exact F|]. split; [reflexivity|]. split.
  - cbn [add_event set_verbose trace]. rewrite T, !ftp_events_app.
    rewrite (ftp_events_local _ L). now rewrite !app_nil_r.
  - cbn [add_event set_verbose trace]. apply last_snoc.
Qed.

(** Applying X6 to a command line with [-u -h -v]. *)
Lemma help_option_exits_witness :
  let w := demo_world (Some (DMap one_site)) in
  ∃ s',
    main w (Some [OptUnzip; OptH; OptVerbose]) demo_state
    = (Raise SystemExit, s')
    ∧ fs s' = fs demo_state
    ∧ verbose s' = true
    ∧ ftp_events (trace s') = ftp_events (trace demo_state)
    ∧ last (trace s') = Some (Printed HELP_MESSAGE [] true).
Proof.
  intros w. apply (help_option_exits w [OptUnzip; OptH; OptVerbose] demo_state).
  rewrite !elem_of_cons. tauto.
Defined.

(** ** The welcome message *)

Lemma concat_two (sep x y : string) l :
  String.concat sep (x :: y :: l) = x +:+ sep +:+ String.concat sep (y :: l).
Proof. reflexivity. Qed.

Lemma welcome_lines_cons cur s :
  ∃ l ls, welcome_lines cur s = l :: ls.
Proof.
  revert cur. induction s as [|c s IH]; intros cur; cbn [welcome_lines].
  - eauto.
  - destruct (Ascii.eqb c "010"); [eauto|apply IH].
Qed.

Lemma one_line_app a b : one_line (a +:+ b) = one_line a && one_line b.
Proof.
  induction a as [|c a IH]; [reflexivity|].
  change (one_line (String c (a +:+ b)) = one_line (String c a) && one_line b).
  cbn [one_line]. now rewrite IH, andb_assoc.
Qed.

(** X7.  The loop of [connectToFTP] that cuts the welcome message into
    lines loses nothing: no line holds a line break, there is at least one
    line, and the lines joined by line breaks give back the message. *)
Theorem welcome_lines_round_trip msg :
  String.concat newline (welcome_lines "" msg) = msg
  ∧ Forall (λ l, one_line l = true) (welcome_lines "" msg)
  ∧ welcome_lines "" msg ≠ [].
Proof.
  assert (H : ∀ s cur,
            one_line cur = true →
            String.concat newline (welcome_lines cur s) = cur +:+ s
            ∧ Forall (λ l, one_line l = true) (welcome_lines cur s)).
  { induction s as [|c s IH]; intros cur Hcur; cbn [welcome_lines].
    - split; [cbn; now rewrite append_empty|]. now repeat constructor.
    - destruct (Ascii.eqb_spec c "010") as [->|Hc].
      + destruct (IH "" eq_refl) as [E F].
        destruct (welcome_lines_cons "" s) as (l & ls & Hl).
        rewrite Hl in *. rewrite concat_two, E.
        split; [reflexivity|]. now constructor.
      + destruct (IH (cur +:+ String c "")) as [E F].
        { rewrite one_line_app, Hcur. cbn [one_line andb].
          destruct (Ascii.eqb_spec c "010"); [contradiction|reflexivity]. }
        split; [|exact F]. rewrite E. now rewrite append_assoc. }
  destruct (H msg "" eq_refl) as [E F].
  split; [exact E|]. split; [exact F|].
  destruct (welcome_lines_cons "" msg) as (l & ls & ->). discriminate.
Qed.

(** ** The FTP session *)

Lemma ftp_since_refl s : ftp_since s s [].
Proof. exists []. split; [now rewrite app_nil_r|reflexivity]. Qed.

Lemma ftp_since_trans s1 s2 s3 l1 l2 :
  ftp_since s1 s2 l1 → ftp_since s2 s3 l2 → ftp_since s1 s3 (l1 ++ l2).
Proof.
  intros (e1 & T1 & F1) (e2 & T2 & F2). exists (e1 ++ e2).
  split; [rewrite T2, T1; now rewrite app_assoc|].
  now rewrite ftp_events_app, F1, F2.
Qed.

Lemma ftp_since_logged s0 s l sev m a :
  ftp_since s0 s l → ftp_since s0 (logged sev m a s) l.
Proof.
  intros H. rewrite <- (app_nil_r l). eapply ftp_since_trans; [exact H|].
  destruct (logged_trace sev m a s) as (evs & T & L & _).
  exists evs. split; [exact T|now apply ftp_events_local].
Qed.

Lemma ftp_since_logged_lines lines :
  ∀ s0 s l, ftp_since s0 s l → ftp_since s0 (logged_lines lines s) l.
Proof.
  unfold logged_lines. induction lines as [|i lines IH]; intros s0 s l H.
  - exact H.
  - cbn [foldl]. apply IH. now apply ftp_since_logged.
Qed.

Lemma ftp_since_ftp e s0 s l :
  is_ftp e = true → ftp_since s0 s l → ftp_since s0 (add_event e s) (l ++ [e]).
Proof.
  intros He H. eapply ftp_since_trans; [exact H|].
  exists [e]. split; [reflexivity|].
  unfold ftp_events. rewrite filter_cons. destruct (decide _); [reflexivity|].
  contradiction.
Qed.

Lemma ftp_since_local e s0 s l :
  is_ftp e = false → ftp_since s0 s l → ftp_since s0 (add_event e s) l.
Proof.
  intros He H. rewrite <- (app_nil_r l). eapply ftp_since_trans; [exact H|].
  exists [e]. split; [reflexivity|].
  unfold ftp_events. rewrite filter_cons. destruct (decide _); [congruence|].
  reflexivity.
Qed.

Lemma ftp_since_set_fs g s0 s l :
  ftp_since s0 s l → ftp_since s0 (set_fs g s) l.
Proof. intros H. exact H. Qed.

Ltac ftp_since_tac :=
  repeat first
    [ apply ftp_since_refl
    | apply ftp_since_logged
    | apply ftp_since_logged_lines
    | apply ftp_since_set_fs
    | apply ftp_since_ftp; [reflexivity|]
    | apply ftp_since_local; [reflexivity|] ].

Lemma ftp_since_transferred w rd name p s :
  ftp_since s (transferred w rd name p s) [FtpRetr name].
Proof.
  unfold transferred. change [FtpRetr name] with ([] ++ [FtpRetr name]).
  ftp_since_tac.
Qed.

Lemma ftp_since_closed rd name p s :
  ftp_since s (closed rd name p s) [FtpRetr name].
Proof.
  unfold closed. apply ftp_since_local; [reflexivity|].
  change [FtpRetr name] with ([] ++ [FtpRetr name]).
  ftp_since_tac.
Qed.

Lemma tried_grows w dst f f' name :
  create_stable w f → grows f f' → tried w dst f' name = tried w dst f name.
Proof.
  intros Hst H. unfold tried. destruct dst as [d|]; [|reflexivity].
  now rewrite (openable_grows w f f' _ Hst H).
Qed.

Lemma fetch_ok_tried w rd dst f name :
  fetch_ok w rd dst f name = tried w dst f name && snd (retr rd name).
Proof.
  unfold fetch_ok, tried. destruct dst; [|now rewrite !andb_false_r].
  now rewrite !andb_assoc.
Qed.

Lemma transferred_other w rd name p s q :
  q ≠ p → fs (transferred w rd name p s) !! q = fs s !! q.
Proof.
  intros Hne. rewrite transferred_fs.
  now rewrite lookup_insert_ne by congruence.
Qed.

Lemma closed_other rd name p s q :
  q ≠ p → fs (closed rd name p s) !! q = fs s !! q.
Proof.
  intros Hne. rewrite closed_fs.
  now rewrite lookup_insert_ne by congruence.
Qed.

Section Round.

Context (w : World) (rd : RemoteDir) (dst : option string).

(** One round of the download loop: its FTP traffic, the one path it may
    change and what it leaves there: every block that was sent once the
    file has been closed, and what the buffer has let through when the
    transfer broke and the file was left open. *)
Lemma download_one_effect name acc s :
  ∃ r s',
    download_one w rd dst name acc s = (r, s')
    ∧ ftp_since s s' (if tried w dst (fs s) name then [FtpRetr name] else [])
    ∧ (∀ q, (∀ d, dst = Some d → q ≠ os_path_join w d name) →
            fs s' !! q = fs s !! q)
    ∧ (tried w dst (fs s) name = true →
       ∀ d, dst = Some d →
         fs s' !! os_path_join w d name
         = Some (File (if snd (retr rd name)
                       then String.concat "" (fst (retr rd name))
                       else unclosed w (fst (retr rd name)))))
    ∧ (tried w dst (fs s) name = false → fs s' = fs s).
Proof.
  destruct (String.eqb_spec name ".") as [->|Hdot].
  { eexists _, s. split; [reflexivity|]. split; [apply ftp_since_refl|].
    split; [reflexivity|]. split; [discriminate|reflexivity]. }
  destruct (String.eqb_spec name "..") as [->|Hdotdot].
  { eexists _, s. split; [reflexivity|]. split; [apply ftp_since_refl|].
    split; [reflexivity|]. split; [discriminate|reflexivity]. }
  unfold tried. rewrite (not_dot_test name Hdot Hdotdot). cbn [andb].
  destruct dst as [d|].
  2:{ rewrite (download_one_no_path w rd name acc s Hdot Hdotdot).
      eexists _, _. split; [reflexivity|]. split; [ftp_since_tac|].
      split; [intros; now rewrite !logged_fs|].
      split; [discriminate|intros _; now rewrite !logged_fs]. }
  destruct (openable w (fs s) (os_path_join w d name)) eqn:Hd.
  2:{ rewrite (download_one_not_opened w rd name acc s Hdot Hdotdot d Hd).
      eexists _, _. split; [reflexivity|]. split; [ftp_since_tac|].
      split; [intros; now rewrite !logged_fs|].
      split; [discriminate|intros _; now rewrite !logged_fs]. }
  destruct (snd (retr rd name)) eqn:Hr.
  - rewrite (download_one_fetched w rd name acc s Hdot Hdotdot d Hd Hr).
    eexists _, _. split; [reflexivity|].
    split; [apply ftp_since_closed|].
    split.
    { intros q Hq. apply closed_other. now apply Hq. }
    split; [|discriminate].
    intros _ d' Hd'. inversion Hd'; subst d'. apply closed_content.
  - rewrite (download_one_failed w rd name acc s Hdot Hdotdot d Hd Hr).
    eexists _, _. split; [reflexivity|]. split.
    { apply ftp_since_logged. apply ftp_since_transferred. }
    rewrite logged_fs. split.
    { intros q Hq. apply transferred_other. now apply Hq. }
    split; [|discriminate].
    intros _ d' Hd'. inversion Hd'; subst d'. apply transferred_content.
Qed.

(** The loop changes no path but the local files of the listed names. *)
Lemma download_loop_frame names :
  ∀ acc s r s',
    for_each (download_one w rd dst) names acc s = (r, s') →
    ∀ q, (∀ d n, dst = Some d → n ∈ names → q ≠ os_path_join w d n) →
         fs s' !! q = fs s !! q.
Proof.
  induction names as [|n names IH]; intros acc s r s' H q Hq.
  - inversion H; subst. reflexivity.
  - destruct (download_one_spec w rd dst n acc s) as (s1 & ev1 & E1 & _).
    destruct (download_one_effect n acc s) as (r1 & s1' & E1' & _ & O1 & _).
    rewrite E1 in E1'. inversion E1'; subst r1 s1'. clear E1'.
    cbn [for_each] in H. erewrite bind_Ret in H by exact E1.
    rewrite (IH _ _ _ _ H q), O1; [reflexivity| |].
    + intros d Hd. apply (Hq d n Hd). apply elem_of_cons. now left.
    + intros d n' Hd Hn'. apply (Hq d n' Hd). apply elem_of_cons. now right.
Qed.

(** The FTP traffic of the loop, where the file system is stable: one RETR
    per name that is tried, in the order of the listing. *)
Lemma download_loop_effect names :
  ∀ acc s r s',
    create_stable w (fs s) →
    for_each (download_one w rd dst) names acc s = (r, s') →
    ftp_since s s' (map FtpRetr (List.filter (tried w dst (fs s)) names)).
Proof.
  induction names as [|n names IH]; intros acc s r s' Hst H.
  - inversion H; subst. apply ftp_since_refl.
  - destruct (download_one_spec w rd dst n acc s) as (s1 & ev1 & E1 & G1 & _).
    destruct (download_one_effect n acc s) as (r1 & s1' & E1' & T1 & _).
    rewrite E1 in E1'. inversion E1'; subst r1 s1'. clear E1'.
    cbn [for_each] in H. erewrite bind_Ret in H by exact E1.
    apply IH in H; [|now apply (create_stable_grows w (fs s))].
    cbn [List.filter].
    rewrite (List.filter_ext _ _ (λ x, tried_grows w dst _ _ x Hst G1)) in H.
    destruct (tried w dst (fs s) n); cbn [map].
    + change (FtpRetr n :: ?l) with ([FtpRetr n] ++ l).
      eapply ftp_since_trans; eassumption.
    + change (map FtpRetr ?l) with ([] ++ map FtpRetr l).
      eapply ftp_since_trans; eassumption.
Qed.

(** What the loop leaves in the local file of a name it has tried, when no
    other listed name is written to the same path. *)
Lemma download_loop_content names name d :
  dst = Some d →
  (∀ n, n ∈ names → os_path_join w d n = os_path_join w d name → n = name) →
  ∀ acc s r s',
    create_stable w (fs s) →
    for_each (download_one w rd dst) names acc s = (r, s') →
    (name ∈ names ∧ tried w dst (fs s) name = true
     ∨ fs s !! os_path_join w d name
       = Some (File (if snd (retr rd name)
                     then String.concat "" (fst (retr rd name))
                     else unclosed w (fst (retr rd name))))) →
    fs s' !! os_path_join w d name
    = Some (File (if snd (retr rd name)
                  then String.concat "" (fst (retr rd name))
                  else unclosed w (fst (retr rd name)))).
Proof.
  intros Hdst. induction names as [|n names IH]; intros Hinj acc s r s' Hst H Hc.
  - inversion H; subst. destruct Hc as [[Hin _]|Hc]; [|exact Hc].
    now apply elem_of_nil in Hin.
  - destruct (download_one_spec w rd dst n acc s) as (s1 & ev1 & E1 & G1 & _).
    destruct (download_one_effect n acc s)
      as (r1 & s1' & E1' & _ & O1 & C1 & U1).
    rewrite E1 in E1'. inversion E1'; subst r1 s1'. clear E1'.
    cbn [for_each] in H. erewrite bind_Ret in H by exact E1.
    assert (Hinj' : ∀ n0, n0 ∈ names →
              os_path_join w d n0 = os_path_join w d name → n0 = name).
    { intros n0 Hn0. apply Hinj. apply elem_of_cons. now right. }
    apply (IH Hinj' _ _ _ _ (create_stable_grows w _ _ Hst G1) H).
    destruct (decide (os_path_join w d n = os_path_join w d name)) as [Heq|Hne].
    + assert (n = name) by (apply Hinj; [apply elem_of_cons; now left|exact Heq]).
      subst n. destruct (tried w dst (fs s) name) eqn:Ht.
      * right. now apply C1.
      * destruct Hc as [[_ Hc]|Hc]; [discriminate Hc|].
        right. now rewrite (U1 eq_refl).
    + destruct Hc as [[Hin Ht]|Hc].
      * apply elem_of_cons in Hin as [->|Hin]; [contradiction|].
        left. split; [exact Hin|].
        now rewrite (tried_grows w dst _ _ name Hst G1).
      * right. rewrite O1; [exact Hc|].
        intros d' Hd'. rewrite Hdst in Hd'. inversion Hd'; subst d'. congruence.
Qed.

End Round.

Lemma disconnectFtp_refused ftp h s :
  quit_ok ftp = false →
  disconnectFtp ftp h s
  = (Raise FTPError,
     add_event FtpQuit (logged Normal "Disconnecting from {}..." [AVal h] s)).
Proof.
  intros Hq. unfold disconnectFtp.
  erewrite bind_Ret by (apply writeLog_plain; discriminate).
  erewrite bind_Ret by reflexivity. rewrite Hq.
  erewrite bind_Raise by reflexivity. reflexivity.
Qed.

Section Session.

Context (w : World) (ftp : FtpServer) (hostname sourceDirectory : pyval).
Context (dst : option string) (s : state).
Context (rd : RemoteDir) (lines names : list string).
Context (Hcwd : cwd ftp sourceDirectory = Some rd).
Context (Hlist : list_lines rd = Some lines).
Context (Hnlst : nlst_names rd = Some names).

(** [downloadFiles] with a server that answers CWD, LIST and NLST, whatever
    it answers to QUIT: [s1] and [s2] are the states in which the loop starts
    and ends. *)
Lemma downloadFiles_run :
  ∃ files s1 s2 s',
    downloadFiles w ftp hostname sourceDirectory dst s
    = (if quit_ok ftp then Ret files else Raise FTPError, s')
    ∧ for_each (download_one w rd dst) names [] s1 = (Ret files, s2)
    ∧ fs s1 = fs s ∧ fs s' = fs s2
    ∧ ftp_since s s1 [FtpCwd sourceDirectory; FtpList; FtpNlst]
    ∧ ftp_since s2 s' [FtpQuit].
Proof.
  unfold downloadFiles.
  erewrite bind_Ret by reflexivity.
  erewrite bind_Ret by (rewrite Hcwd; reflexivity).
  erewrite bind_Ret by (apply writeLog_plain; discriminate).
  erewrite bind_Ret by (apply writeLog_plain; discriminate).
  erewrite bind_Ret by reflexivity.
  erewrite bind_Ret by (rewrite Hlist; reflexivity).
  erewrite bind_Ret by apply for_each_log_lines.
  erewrite bind_Ret by reflexivity.
  erewrite bind_Ret by (rewrite Hnlst; reflexivity).
  match goal with
  | |- context [bind (for_each (download_one w rd dst) names []) _ ?st] =>
      set (s1 := st);
      destruct (download_loop_names w rd dst names [] s1)
        as (files & s2 & evs & E & _)
  end.
  assert (F1 : fs s1 = fs s).
  { subst s1. cbn [add_event fs].
    destruct (later_logged_lines lines
                (add_event FtpList
                   (logged Normal "Files at {}:" [AVal sourceDirectory]
                      (logged Normal
                         "This script will only download files, not directories."
                         [] (add_event (FtpCwd sourceDirectory) s)))))
      as [F _].
    rewrite F. cbn [add_event fs]. now rewrite !logged_fs. }
  assert (T1 : ftp_since s s1 [FtpCwd sourceDirectory; FtpList; FtpNlst]).
  { subst s1.
    change [FtpCwd sourceDirectory; FtpList; FtpNlst]
      with ((([] ++ [FtpCwd sourceDirectory]) ++ [FtpList]) ++ [FtpNlst]).
    ftp_since_tac. }
  cbn [app] in E.
  erewrite bind_Ret by exact E.
  erewrite bind_Ret by (apply writeLog_plain; discriminate).
  destruct (quit_ok ftp) eqn:Hq.
  - erewrite bind_Ret by (apply disconnectFtp_ok; exact Hq).
    eexists _, s1, s2, _. split; [reflexivity|]. split; [exact E|].
    split; [exact F1|].
    split; [repeat (cbn [add_event fs]; rewrite ?logged_fs); reflexivity|].
    split; [exact T1|].
    change [FtpQuit] with ([] ++ [FtpQuit]).
    apply ftp_since_local; [reflexivity|]. ftp_since_tac.
  - erewrite bind_Raise by (apply disconnectFtp_refused; exact Hq).
    eexists _, s1, s2, _. split; [reflexivity|]. split; [exact E|].
    split; [exact F1|].
    split; [repeat (cbn [add_event fs]; rewrite ?logged_fs); reflexivity|].
    split; [exact T1|].
    change [FtpQuit] with ([] ++ [FtpQuit]). ftp_since_tac.
Qed.

End Session.

Lemma tried_fs_eq w dst (f f' : gmap string node) name :
  f' = f → tried w dst f' name = tried w dst f name.
Proof. now intros ->. Qed.

Lemma create_stable_eq w (f f' : gmap string node) :
  f' = f → create_stable w f → create_stable w f'.
Proof. now intros ->. Qed.

(** X8.  With a server that answers, and a file system in which writing
    files does not change where files can be created, the commands
    [downloadFiles] sends are, in this order: CWD to the remote path, LIST,
    NLST, one RETR for every listed name other than [.] and [..] whose
    local file could be opened (the path is no directory and the file can be
    created there), in the order of the listing, and QUIT. *)
Theorem session_commands_in_order w ftp hostname src dst s rd lines names :
  cwd ftp src = Some rd → list_lines rd = Some lines →
  nlst_names rd = Some names → quit_ok ftp = true →
  create_stable w (fs s) →
  ∃ files s' evs,
    downloadFiles w ftp hostname src dst s = (Ret files, s')
    ∧ trace s' = trace s ++ evs
    ∧ ftp_events evs
      = [FtpCwd src; FtpList; FtpNlst]
        ++ map FtpRetr (List.filter (tried w dst (fs s)) names)
        ++ [FtpQuit].
Proof.
  intros Hcwd Hlist Hnlst Hquit Hst.
  destruct (downloadFiles_run w ftp hostname src dst s rd lines names
              Hcwd Hlist Hnlst)
    as (files & s1 & s2 & s' & E & EL & F1 & _ & T1 & T3).
  rewrite Hquit in E.
  pose proof (download_loop_effect w rd dst names [] s1 _ _
                (create_stable_eq w _ _ F1 Hst) EL) as T2.
  rewrite (List.filter_ext _ _ (λ x, tried_fs_eq w dst _ _ x F1)) in T2.
  destruct (ftp_since_trans _ _ _ _ _ T1 (ftp_since_trans _ _ _ _ _ T2 T3))
    as (evs & T & F).
  exists files, s', evs. split; [exact E|]. split; [exact T|exact F].
Qed.

(** Applying X8 to the server whose listing holds a name below a local
    directory that does not exist: that name is not asked for. *)
Lemma session_commands_in_order_witness :
  let w := demo_world (Some (DMap one_site)) in
  ∃ files s' evs,
    downloadFiles w broken_server (PStr "ftp.example.com") (PStr "/out")
      (Some "/home/u") demo_state
    = (Ret files, s')
    ∧ trace s' = trace demo_state ++ evs
    ∧ ftp_events evs
      = [FtpCwd (PStr "/out"); FtpList; FtpNlst]
        ++ map FtpRetr
             (List.filter (tried w (Some "/home/u") (fs demo_state))
                ["a.txt"; "x/y.txt"; "part.bin"])
        ++ [FtpQuit].
Proof.
  intros w.
  apply (session_commands_in_order w broken_server (PStr "ftp.example.com")
           (PStr "/out") (Some "/home/u") demo_state broken_dir
           ["-rw-r--r-- a.txt"; "-rw-r--r-- x/y.txt"; "-rw-r--r-- part.bin"]);
    try reflexivity.
  apply demo_create_stable.
Defined.

(** X9.  When the server answers CWD, LIST and NLST but turns QUIT down,
    [downloadFiles] raises: the list of downloaded names is lost for the
    caller, although every file that was fetched is on disk (the file system
    being one in which writing files does not change where files can be
    created). *)
Theorem quit_refused_loses_result w ftp hostname src d s rd lines names :
  cwd ftp src = Some rd → list_lines rd = Some lines →
  nlst_names rd = Some names → quit_ok ftp = false →
  create_stable w (fs s) →
  ∃ s',
    downloadFiles w ftp hostname src (Some d) s = (Raise FTPError, s')
    ∧ ∀ name, name ∈ names →
        fetch_ok w rd (Some d) (fs s) name = true →
        ∃ c, fs s' !! os_path_join w d name = Some (File c).
Proof.
  intros Hcwd Hlist Hnlst Hquit Hst.
  destruct (downloadFiles_run w ftp hostname src (Some d) s rd lines names
              Hcwd Hlist Hnlst)
    as (files & s1 & s2 & s' & E & EL & F1 & F3 & _).
  rewrite Hquit in E. exists s'. split; [exact E|].
  intros name Hin Hf.
  destruct (download_loop_spec w rd (Some d) names [] s1
              (create_stable_eq w _ _ F1 Hst))
    as (s2' & evs & EL' & G & _ & L).
  rewrite EL' in EL. inversion EL; subst s2'. clear EL.
  destruct (fetch_ok_not_dot _ _ _ _ _ Hf) as [Hdot Hdotdot].
  destruct (L name Hin Hdot Hdotdot) as (_ & _ & Hsome).
  rewrite F3. apply (Hsome d eq_refl).
  rewrite F1. rewrite fetch_ok_tried in Hf.
  apply andb_true_iff in Hf as [Ht _]. unfold tried in Ht.
  apply andb_true_iff in Ht as [_ Ht]. exact Ht.
Qed.

(** The server of X8, refusing QUIT. *)
Lemma quit_refused_loses_result_witness :
  let w := demo_world (Some (DMap one_site)) in
  let ftp := {| welcome := "220"; login_ok := λ _ _, true;
                cwd := λ _, Some broken_dir; quit_ok := false |} in
  ∃ s',
    downloadFiles w ftp (PStr "ftp.example.com") (PStr "/out")
      (Some "/home/u") demo_state
    = (Raise FTPError, s')
    ∧ ∀ name, name ∈ ["a.txt"; "x/y.txt"; "part.bin"] →
        fetch_ok w broken_dir (Some "/home/u") (fs demo_state) name = true →
        ∃ c, fs s' !! os_path_join w "/home/u" name = Some (File c).
Proof.
  intros w ftp.
  apply (quit_refused_loses_result w ftp (PStr "ftp.example.com") (PStr "/out")
           "/home/u" demo_state broken_dir
           ["-rw-r--r-- a.txt"; "-rw-r--r-- x/y.txt"; "-rw-r--r-- part.bin"]);
    try reflexivity.
  apply demo_create_stable.
Defined.

Lemma downloadFiles_refused w ftp hostname src dst s :
  (cwd ftp src = None →
   ∃ s', downloadFiles w ftp hostname src dst s = (Raise FTPError, s')
         ∧ fs s' = fs s ∧ ftp_since s s' [FtpCwd src])
  ∧ (∀ rd, cwd ftp src = Some rd → list_lines rd = None →
     ∃ s', downloadFiles w ftp hostname src dst s = (Raise FTPError, s')
           ∧ fs s' = fs s ∧ ftp_since s s' [FtpCwd src; FtpList])
  ∧ (∀ rd lines, cwd ftp src = Some rd → list_lines rd = Some lines →
     nlst_names rd = None →
     ∃ s', downloadFiles w ftp hostname src dst s = (Raise FTPError, s')
           ∧ fs s' = fs s ∧ ftp_since s s' [FtpCwd src; FtpList; FtpNlst]).
Proof.
  split; [|split].
  - intros Hcwd. unfold downloadFiles.
    erewrite bind_Ret by reflexivity.
    erewrite bind_Raise by (rewrite Hcwd; reflexivity).
    eexists. split; [reflexivity|]. split; [reflexivity|].
    change [FtpCwd src] with ([] ++ [FtpCwd src]). ftp_since_tac.
  - intros rd Hcwd Hlist. unfold downloadFiles.
    erewrite bind_Ret by reflexivity.
    erewrite bind_Ret by (rewrite Hcwd; reflexivity).
    erewrite bind_Ret by (apply writeLog_plain; discriminate).
    erewrite bind_Ret by (apply writeLog_plain; discriminate).
    erewrite bind_Ret by reflexivity.
    erewrite bind_Raise by (rewrite Hlist; reflexivity).
    eexists. split; [reflexivity|].
    split; [cbn [add_event fs]; now rewrite !logged_fs|].
    change [FtpCwd src; FtpList] with (([] ++ [FtpCwd src]) ++ [FtpList]).
    ftp_since_tac.
  - intros rd lines Hcwd Hlist Hnlst. unfold downloadFiles.
    erewrite bind_Ret by reflexivity.
    erewrite bind_Ret by (rewrite Hcwd; reflexivity).
    erewrite bind_Ret by (apply writeLog_plain; discriminate).
    erewrite bind_Ret by (apply writeLog_plain; discriminate).
    erewrite bind_Ret by reflexivity.
    erewrite bind_Ret by (rewrite Hlist; reflexivity).
    erewrite bind_Ret by apply for_each_log_lines.
    erewrite bind_Ret by reflexivity.
    erewrite bind_Raise by (rewrite Hnlst; reflexivity).
    eexists. split; [reflexivity|]. split.
    + cbn [add_event fs].
      destruct (later_logged_lines lines
                  (add_event FtpList
                     (logged Normal "Files at {}:" [AVal src]
                        (logged Normal
                           "This script will only download files, not directories."
                           [] (add_event (FtpCwd src) s)))))
        as [F _].
      rewrite F. cbn [add_event fs]. now rewrite !logged_fs.
    + change [FtpCwd src; FtpList; FtpNlst]
        with ((([] ++ [FtpCwd src]) ++ [FtpList]) ++ [FtpNlst]).
      ftp_since_tac.
Qed.


(** X10.  When the server refuses CWD, LIST or NLST, [downloadFiles] raises
    at once: no file is touched, and the FTP traffic stops at the refused
    command, so that nothing is fetched and QUIT is never sent. *)
Theorem listing_refused_stops_session w ftp hostname src dst s :
  (cwd ftp src = None →
   ∃ s', downloadFiles w ftp hostname src dst s = (Raise FTPError, s')
         ∧ fs s' = fs s ∧ ftp_since s s' [FtpCwd src])
  ∧ (∀ rd, cwd ftp src = Some rd → list_lines rd = None →
     ∃ s', downloadFiles w ftp hostname src dst s = (Raise FTPError, s')
           ∧ fs s' = fs s ∧ ftp_since s s' [FtpCwd src; FtpList])
  ∧ (∀ rd lines, cwd ftp src = Some rd → list_lines rd = Some lines →
     nlst_names rd = None →
     ∃ s', downloadFiles w ftp hostname src dst s = (Raise FTPError, s')
           ∧ fs s' = fs s ∧ ftp_since s s' [FtpCwd src; FtpList; FtpNlst]).
Proof. apply downloadFiles_refused. Qed.

(** The example server knows no directory [/nowhere]. *)
Lemma listing_refused_stops_session_witness :
  let w := demo_world (Some (DMap one_site)) in
  ∃ s',
    downloadFiles w demo_server (PStr "ftp.example.com") (PStr "/nowhere")
      (Some "/home/u") demo_state
    = (Raise FTPError, s')
    ∧ fs s' = fs demo_state
    ∧ ftp_since demo_state s' [FtpCwd (PStr "/nowhere")].
Proof.
  intros w.
  apply (proj1 (listing_refused_stops_session w demo_server
                  (PStr "ftp.example.com") (PStr "/nowhere") (Some "/home/u")
                  demo_state)).
  reflexivity.
Defined.

(** X11.  With a server that answers CWD, LIST and NLST, and a file system
    in which writing files does not change where files can be created, the
    local file of every listed name that was fetched (its local file could
    be opened and its transfer ended well, so that the file was closed)
    holds, when [downloadFiles] is over, exactly the blocks the server sent
    for that name, in order, provided that no other listed name is written
    to the same local path. *)
Theorem downloaded_file_content w ftp hostname src d s rd lines names name :
  cwd ftp src = Some rd → list_lines rd = Some lines →
  nlst_names rd = Some names →
  create_stable w (fs s) →
  name ∈ names →
  fetch_ok w rd (Some d) (fs s) name = true →
  (∀ n, n ∈ names → os_path_join w d n = os_path_join w d name → n = name) →
  ∃ r s',
    downloadFiles w ftp hostname src (Some d) s = (r, s')
    ∧ fs s' !! os_path_join w d name
      = Some (File (String.concat "" (fst (retr rd name)))).
Proof.
  intros Hcwd Hlist Hnlst Hst Hin Hf Hinj.
  destruct (downloadFiles_run w ftp hostname src (Some d) s rd lines names
              Hcwd Hlist Hnlst)
    as (files & s1 & s2 & s' & E & EL & F1 & F3 & _).
  eexists _, s'. split; [exact E|]. rewrite F3.
  rewrite fetch_ok_tried in Hf. apply andb_true_iff in Hf as [Ht Hr].
  pose proof (download_loop_content w rd (Some d) names name d eq_refl Hinj
                [] s1 _ _ (create_stable_eq w _ _ F1 Hst) EL) as Hc.
  rewrite Hr in Hc. apply Hc.
  left. split; [exact Hin|]. now rewrite (tried_fs_eq w (Some d) _ _ name F1).
Qed.

(** Applying X11 to the file [a.txt] of the server of X8. *)
Lemma downloaded_file_content_witness :
  let w := demo_world (Some (DMap one_site)) in
  ∃ r s',
    downloadFiles w broken_server (PStr "ftp.example.com") (PStr "/out")
      (Some "/home/u") demo_state
    = (r, s')
    ∧ fs s' !! os_path_join w "/home/u" "a.txt"
      = Some (File (String.concat "" (fst (retr broken_dir "a.txt")))).
Proof.
  intros w.
  apply (downloaded_file_content w broken_server (PStr "ftp.example.com")
           (PStr "/out") "/home/u" demo_state broken_dir
           ["-rw-r--r-- a.txt"; "-rw-r--r-- x/y.txt"; "-rw-r--r-- part.bin"]
           ["a.txt"; "x/y.txt"; "part.bin"] "a.txt");
    try reflexivity.
  - apply demo_create_stable.
  - apply elem_of_cons. now left.
  - intros n Hn. rewrite !elem_of_cons in Hn.
    destruct Hn as [->|[->|[->|Hn]]];
      try reflexivity; try (vm_compute; discriminate).
    now apply elem_of_nil in Hn.
Defined.

(** X12.  Whatever the server answers, [downloadFiles] changes no path of
    the file system other than the local files of the names of the NLST
    listing; without such a listing it changes nothing. *)
Theorem downloadFiles_touches_listed_files_only w ftp hostname src dst s r s' q :
  downloadFiles w ftp hostname src dst s = (r, s') →
  (∀ rd names d n,
     cwd ftp src = Some rd → nlst_names rd = Some names → dst = Some d →
     n ∈ names → q ≠ os_path_join w d n) →
  fs s' !! q = fs s !! q.
Proof.
  intros H Hq.
  destruct (cwd ftp src) as [rd|] eqn:Hcwd.
  2:{ destruct (proj1 (downloadFiles_refused w ftp hostname src dst s)
                  Hcwd) as (s0 & E & F & _).
      rewrite E in H. inversion H; subst. now rewrite F. }
  destruct (list_lines rd) as [lines|] eqn:Hlist.
  2:{ destruct (proj1 (proj2 (downloadFiles_refused w ftp hostname src
                                dst s)) rd Hcwd Hlist) as (s0 & E & F & _).
      rewrite E in H. inversion H; subst. now rewrite F. }
  destruct (nlst_names rd) as [names|] eqn:Hnlst.
  2:{ destruct (proj2 (proj2 (downloadFiles_refused w ftp hostname src
                                dst s)) rd lines Hcwd Hlist Hnlst)
        as (s0 & E & F & _).
      rewrite E in H. inversion H; subst. now rewrite F. }
  destruct (downloadFiles_run w ftp hostname src dst s rd lines names
              Hcwd Hlist Hnlst)
    as (files & s1 & s2 & s0 & E & EL & F1 & F3 & _).
  rewrite E in H. inversion H; subst s0. rewrite F3.
  rewrite (download_loop_frame w rd dst names [] s1 _ _ EL q);
    [now rewrite F1|].
  intros d n Hd Hn. now apply (Hq rd names d n).
Qed.

(** Applying X12 to the example session, for the configuration file. *)
Lemma downloadFiles_touches_listed_files_only_witness :
  let w := demo_world (Some (DMap one_site)) in
  let run :=
    downloadFiles w demo_server (PStr "ftp.example.com") (PStr "/out")
      (Some "/home/u") demo_state in
  fs run.2 !! "/work/ftp.yaml" = fs demo_state !! "/work/ftp.yaml".
Proof.
  intros w run.
  apply (downloadFiles_touches_listed_files_only w demo_server
           (PStr "ftp.example.com") (PStr "/out") (Some "/home/u") demo_state
           run.1 run.2 "/work/ftp.yaml").
  - apply surjective_pairing.
  - intros rd names d n Hcwd Hnlst Hd Hn.
    cbn in Hcwd. inversion Hcwd; subst rd.
    cbn in Hnlst. inversion Hnlst; subst names.
    inversion Hd; subst d.
    rewrite !elem_of_cons in Hn.
    destruct Hn as [->|[->|[->|[->|[->|Hn]]]]];
      try (vm_compute; discriminate).
    now apply elem_of_nil in Hn.
Defined.

(** ** safeExit *)

Lemma printed_nil s : printed [] s = s.
Proof. destruct s. unfold printed. cbn. now rewrite app_nil_r. Qed.

Lemma printed_app l1 l2 s : printed l2 (printed l1 s) = printed (l1 ++ l2) s.
Proof. unfold printed. cbn. now rewrite map_app, app_assoc. Qed.

Lemma print_eq m a s : print m a s = (Ret tt, printed [(m, a)] s).
Proof. reflexivity. Qed.

Lemma getsize_eq w p s :
  is_Some (fs s !! p) → os_path_getsize w p s = (Ret (size_at w (fs s) p), s).
Proof.
  intros [x Hx]. unfold os_path_getsize, size_at.
  erewrite bind_Ret by reflexivity. cbv beta. rewrite Hx.
  destruct x; reflexivity.
Qed.

Lemma getsize_missing w p s :
  fs s !! p = None → os_path_getsize w p s = (Raise OSError, s).
Proof.
  intros Hx. unfold os_path_getsize.
  erewrite bind_Ret by reflexivity. cbv beta. now rewrite Hx.
Qed.

Section SafeExit.

Context (w : World) (d : string).

Lemma sizes_loop files :
  ∀ acc s,
    (∀ f, f ∈ files → is_Some (fs s !! os_path_join w d f)) →
    for_each
      (λ f acc,
         file <- path_join w (Some d) f ;;
         size <- os_path_getsize w file ;;
         ret (acc ++ [(file, size)]))
      files acc s
    = (Ret (acc ++ map (λ f, (os_path_join w d f,
                              size_at w (fs s) (os_path_join w d f))) files), s).
Proof.
  induction files as [|f files IH]; intros acc s Hall.
  - cbn. now rewrite app_nil_r.
  - cbn [for_each]. erewrite bind_Ret.
    2:{ erewrite bind_Ret by reflexivity.
        erewrite bind_Ret
          by (apply getsize_eq, Hall, elem_of_cons; now left).
        reflexivity. }
    rewrite IH by (intros f' Hf'; apply Hall, elem_of_cons; now right).
    cbn [map]. now rewrite <- app_assoc.
Qed.

Lemma sizes_loop_missing files :
  ∀ acc s f0,
    f0 ∈ files → fs s !! os_path_join w d f0 = None →
    for_each
      (λ f acc,
         file <- path_join w (Some d) f ;;
         size <- os_path_getsize w file ;;
         ret (acc ++ [(file, size)]))
      files acc s
    = (Raise OSError, s).
Proof.
  induction files as [|f files IH]; intros acc s f0 Hin Hnone.
  - now apply elem_of_nil in Hin.
  - cbn [for_each].
    destruct (fs s !! os_path_join w d f) as [x|] eqn:Hx.
    + erewrite bind_Ret.
      2:{ erewrite bind_Ret by reflexivity.
          erewrite bind_Ret by (apply getsize_eq; rewrite Hx; eauto).
          reflexivity. }
      apply elem_of_cons in Hin as [->|Hin]; [congruence|].
      now apply (IH _ _ f0).
    + erewrite bind_Raise; [reflexivity|].
      erewrite bind_Ret by reflexivity.
      erewrite bind_Raise; [reflexivity|]. now apply getsize_missing.
Qed.

Lemma print_file_lines (l : list (string * nat)) :
  ∀ s,
    for_each
      (λ file _,
         print "\tFilename: {}\t\tSize: {} bytes."
           [AStr (fst file); ANat (snd file)])
      l tt s
    = (Ret tt,
       printed (map (λ file, ("\tFilename: {}\t\tSize: {} bytes.",
                              [AStr (fst file); ANat (snd file)])) l) s).
Proof.
  induction l as [|x l IH]; intros s.
  - cbn [for_each map]. now rewrite printed_nil.
  - cbn [for_each map]. erewrite bind_Ret by apply print_eq.
    rewrite IH, printed_app. reflexivity.
Qed.

End SafeExit.

Lemma safeExit_present w d files s :
  (∀ f, f ∈ files → is_Some (fs s !! os_path_join w d f)) →
  safeExit w (Some d) files "execution-complete" s
  = (Ret tt, printed (summary w d files (fs s)) s).
Proof.
  intros Hall. unfold safeExit.
  erewrite bind_Ret by (apply sizes_loop; exact Hall).
  cbn [String.eqb Ascii.eqb Bool.eqb]. cbn [app].
  do 6 (erewrite bind_Ret by apply print_eq; rewrite ?printed_app).
  erewrite bind_Ret by apply print_file_lines.
  rewrite printed_app, print_eq, printed_app.
  unfold summary, file_line. rewrite map_map. reflexivity.
Qed.

(** X13.  When the path of every name of the list exists, [safeExit] with
    the marker of [main] prints the summary and changes nothing else: the
    header, the number of names, one line per name with its path and its
    size in the order of the list (the length of a file, and for a directory
    the size the file system gives it), and the closing line; all sizes are
    read before the first line is printed.  With any other marker nothing is
    printed.  When one of the paths does not exist, it raises [OSError] and
    prints nothing. *)
Theorem safeExit_summary w d files s :
  ((∀ f, f ∈ files → is_Some (fs s !! os_path_join w d f)) →
   safeExit w (Some d) files "execution-complete" s
   = (Ret tt, printed (summary w d files (fs s)) s)
   ∧ ∀ marker, marker ≠ "execution-complete" →
       safeExit w (Some d) files marker s = (Ret tt, s))
  ∧ (∀ f marker, f ∈ files → fs s !! os_path_join w d f = None →
     safeExit w (Some d) files marker s = (Raise OSError, s)).
Proof.
  split.
  - intros Hall. split.
    + now apply safeExit_present.
    + intros marker Hm. unfold safeExit.
      erewrite bind_Ret by (apply sizes_loop; exact Hall).
      destruct (String.eqb_spec marker "execution-complete"); [contradiction|].
      reflexivity.
  - intros f marker Hin Hnone. unfold safeExit.
    erewrite bind_Raise; [reflexivity|].
    now apply (sizes_loop_missing w d files [] s f).
Qed.

(** Applying X13 to the example machine after a download. *)
Lemma safeExit_summary_witness :
  let w := demo_world (Some (DMap one_site)) in
  safeExit w (Some "/home/u") ["b.zip"; "notes.txt"] "execution-complete"
    downloaded_state
  = (Ret tt,
     printed (summary w "/home/u" ["b.zip"; "notes.txt"] (fs downloaded_state))
       downloaded_state).
Proof.
  intros w.
  apply (proj1 (safeExit_summary w "/home/u" ["b.zip"; "notes.txt"]
                  downloaded_state)).
  intros f Hf. rewrite !elem_of_cons in Hf.
  destruct Hf as [->|[->|Hf]]; [vm_compute; eauto|vm_compute; eauto|].
  now apply elem_of_nil in Hf.
Defined.

(** ** loadCredentials *)

(** X14.  For a readable configuration file that holds a mapping,
    [loadCredentials] returns a catalog exactly when every entry is a mapping
    with the four keys.  The catalog is then the entries of the file whose
    four values are true, in the order of the file (the others are dropped),
    and the file system is as before. *)
Theorem loadCredentials_catalog w ftpPath content d s :
  fs s !! ftpPath = Some (File content) →
  yaml_safe_load w content = Some (DMap d) →
  NoDup (dict_keys d) →
  ((∃ cat s', loadCredentials w ftpPath s = (Ret cat, s'))
   ↔ Forall (λ kv, entry_complete kv.2 = true) d)
  ∧ ∀ cat s',
      loadCredentials w ftpPath s = (Ret cat, s') →
      cat = List.filter (λ kv, well_formed kv.2) d
      ∧ Forall (λ kv, well_formed kv.2 = true) cat
      ∧ fs s' = fs s.
Proof.
  intros Hfile Hyaml Hkeys. split; [split|].
  - intros (cat & s' & H).
    apply Forall_forall. intros [k e] Hin. simpl.
    destruct (entry_complete e) eqn:Hc; [reflexivity|].
    destruct (loadCredentials_incomplete w ftpPath content d s
                Hfile Hyaml Hkeys k e Hin Hc) as (ex & s1 & E).
    rewrite E in H. discriminate H.
  - intros Hall.
    destruct (loadCredentials_complete w ftpPath content d s
                Hfile Hyaml Hkeys Hall) as (s1 & E & _).
    eauto.
  - intros cat s' H.
    destruct (loadCredentials_Ret_inv w ftpPath content d s
                Hfile Hyaml Hkeys cat s' H) as [-> Hall].
    assert (Hd : Forall (λ kv, entry_complete kv.2 = true) d).
    { apply Forall_forall. intros [k e] Hin. simpl.
      destruct (entry_complete e) eqn:Hc; [reflexivity|].
      destruct (loadCredentials_incomplete w ftpPath content d s
                  Hfile Hyaml Hkeys k e Hin Hc) as (ex & s1 & E).
      rewrite E in H. discriminate H. }
    destruct (loadCredentials_complete w ftpPath content d s
                Hfile Hyaml Hkeys Hd) as (s1 & E & Hfs).
    rewrite E in H. inversion H; subst.
    split; [reflexivity|]. split; [|assumption].
    apply Forall_forall. intros kv Hin.
    now apply list_elem_of_In, List.filter_In in Hin as [_ Hin].
Qed.

(** Applying X14 to a file whose second site has no password. *)
Lemma loadCredentials_catalog_witness :
  ∃ s',
    loadCredentials (demo_world (Some (DMap second_site_no_password)))
      "/work/ftp.yaml" demo_state
    = (Ret [("siteA", site_entry "ftp.example.com" "u" "p" "/out")], s')
    ∧ fs s' = fs demo_state.
Proof.
  destruct (loadCredentials_catalog
              (demo_world (Some (DMap second_site_no_password)))
              "/work/ftp.yaml" "sites" second_site_no_password demo_state)
    as [Hiff Hinv].
  - reflexivity.
  - reflexivity.
  - apply (bool_decide_unpack _). vm_compute. reflexivity.
  - destruct (proj2 Hiff) as (cat & s' & E).
    + repeat constructor.
    + destruct (Hinv cat s' E) as (Hcat & _ & Hfs).
      exists s'. split; [|exact Hfs]. rewrite E, Hcat. reflexivity.
Defined.

(** X15.  What [loadCredentials] does with a configuration it cannot use:
    a path that is not a readable file raises [OSError], a document that is
    not a mapping (an empty file, a list, a scalar) raises [AttributeError],
    both without any effect; a document that cannot be parsed never gives a
    catalog; an empty mapping gives the empty catalog without any effect. *)
Theorem loadCredentials_unusable w ftpPath s :
  ((∀ c, fs s !! ftpPath ≠ Some (File c)) →
   loadCredentials w ftpPath s = (Raise OSError, s))
  ∧ (∀ c, fs s !! ftpPath = Some (File c) →
       (∀ v, yaml_safe_load w c = Some (DNotMap v) →
             loadCredentials w ftpPath s = (Raise AttributeError, s))
       ∧ (yaml_safe_load w c = None →
          ∀ cat s', loadCredentials w ftpPath s ≠ (Ret cat, s'))
       ∧ (yaml_safe_load w c = Some (DMap []) →
          loadCredentials w ftpPath s = (Ret [], s))).
Proof.
  split.
  - intros Hno. unfold loadCredentials.
    erewrite bind_Raise; [reflexivity|].
    unfold open_read. erewrite bind_Ret by reflexivity. cbv beta.
    destruct (fs s !! ftpPath) as [[c|]|] eqn:E; try reflexivity.
    now destruct (Hno c).
  - intros c Hfile.
    assert (Hopen : open_read ftpPath s = (Ret c, s)).
    { unfold open_read. erewrite bind_Ret by reflexivity. cbv beta.
      now rewrite Hfile. }
    split; [|split].
    + intros v Hy. unfold loadCredentials.
      erewrite bind_Ret by exact Hopen. rewrite Hy.
      erewrite bind_Ret by reflexivity. reflexivity.
    + intros Hy cat s' H. unfold loadCredentials in H.
      erewrite bind_Ret in H by exact Hopen. rewrite Hy in H.
      apply bind_inv in H as [(a & s1 & H1 & H2)|(e & H1 & H2)];
        [|discriminate H2].
      apply bind_inv in H1 as [(u & s2 & H1 & H3)|(e & H1 & H3)];
        [|discriminate H3].
      inversion H3; subst. discriminate H2.
    + intros Hy. unfold loadCredentials.
      erewrite bind_Ret by exact Hopen. rewrite Hy.
      erewrite bind_Ret by reflexivity. reflexivity.
Qed.

(** Applying X15 to a path that does not exist. *)
Lemma loadCredentials_unusable_witness :
  loadCredentials (demo_world None) "/work/other.yaml" demo_state
  = (Raise OSError, demo_state).
Proof.
  apply (proj1 (loadCredentials_unusable (demo_world None) "/work/other.yaml"
                  demo_state)).
  intros c. vm_compute. discriminate.
Defined.

(** ** The names the site loop returns *)

Lemma on_disk_no_loss w dst f f' names :
  no_loss f f' → on_disk w dst f names → on_disk w dst f' names.
Proof.
  intros Hl H n Hn. destruct (H n Hn) as (d & -> & Hs). eauto.
Qed.

Lemma on_disk_app w dst f l1 l2 :
  on_disk w dst f l1 → on_disk w dst f l2 → on_disk w dst f (l1 ++ l2).
Proof.
  intros H1 H2 n Hn. apply elem_of_app in Hn as [Hn|Hn]; auto.
Qed.

Lemma downloadFiles_Ret_on_disk w ftp h src dst s files s' :
  downloadFiles w ftp h src dst s = (Ret files, s') →
  on_disk w dst (fs s') files.
Proof.
  intros H.
  destruct (downloadFiles_refused w ftp h src dst s) as (R1 & R2 & R3).
  destruct (cwd ftp src) as [rd|] eqn:Hcwd.
  2:{ destruct (R1 eq_refl) as (s0 & E & _). rewrite E in H. discriminate H. }
  destruct (list_lines rd) as [lines|] eqn:Hlist.
  2:{ destruct (R2 rd eq_refl Hlist) as (s0 & E & _).
      rewrite E in H. discriminate H. }
  destruct (nlst_names rd) as [names|] eqn:Hnlst.
  2:{ destruct (R3 rd lines eq_refl Hlist Hnlst) as (s0 & E & _).
      rewrite E in H. discriminate H. }
  destruct (downloadFiles_run w ftp h src dst s rd lines names Hcwd Hlist Hnlst)
    as (files0 & s1 & s2 & s0 & E & Eloop & F1 & F2 & _).
  rewrite E in H. destruct (quit_ok ftp); [|discriminate H].
  inversion H; subst files0 s0. clear H.
  destruct (download_loop_names w rd dst names [] s1)
    as (files' & s2' & evs & E2 & _ & _ & L).
  rewrite Eloop in E2. cbn [app] in E2. inversion E2; subst files' s2'.
  intros n Hn.
  destruct (L n Hn) as (_ & _ & _ & d & c & Hd & Hc).
  exists d. split; [exact Hd|]. rewrite F2, Hc. eauto.
Qed.

Lemma connectToFTP_Ret_on_disk w e site dst s files s' :
  connectToFTP w e site dst s = (Ret files, s') →
  on_disk w dst (fs s') files.
Proof.
  intros H. unfold connectToFTP in H.
  do 12 (apply bind_inv in H as [(? & ? & _ & H)|(? & _ & H)];
         [|discriminate H]).
  now apply downloadFiles_Ret_on_disk in H.
Qed.

Lemma process_site_Ret_on_disk w cfgs dst u site acc s r s' :
  process_site w cfgs dst u site acc s = (Ret r, s') →
  on_disk w dst (fs s) acc → on_disk w dst (fs s') r.
Proof.
  intros H Hacc.
  assert (Hl : no_loss (fs s) (fs s')).
  { exact (fs_step_process_site w no_loss no_loss_refl no_loss_trans
             no_loss_insert cfgs dst u site acc s _ s' H). }
  unfold process_site in H.
  apply bind_inv in H as [(e & s1 & _ & H)|(? & _ & H)]; [|discriminate H].
  apply bind_inv in H as [(files & s2 & Hc & H)|(? & _ & H)]; [|discriminate H].
  apply bind_inv in H as [([] & s3 & Hu & H)|(? & _ & H)]; [|discriminate H].
  inversion H; subst r s3. clear H.
  apply on_disk_app.
  - now apply (on_disk_no_loss w dst (fs s)).
  - apply (on_disk_no_loss w dst (fs s2)).
    + destruct u.
      * exact (fs_step_unzipZippedFiles w no_loss no_loss_refl no_loss_trans
                 no_loss_insert dst files s2 _ s' Hu).
      * inversion Hu; subst. apply no_loss_refl.
    + now apply connectToFTP_Ret_on_disk in Hc.
Qed.

Lemma site_loop_Ret_on_disk w cfgs dst u sites :
  ∀ acc s r s',
    for_each (process_site w cfgs dst u) sites acc s = (Ret r, s') →
    on_disk w dst (fs s) acc → on_disk w dst (fs s') r.
Proof.
  induction sites as [|site sites IH]; intros acc s r s' H Hacc.
  - inversion H; subst. exact Hacc.
  - cbn [for_each] in H.
    apply bind_inv in H as [(acc1 & s1 & H1 & H)|(? & _ & H)]; [|discriminate H].
    apply (IH acc1 s1 r s' H).
    now apply (process_site_Ret_on_disk w cfgs dst u site acc s acc1 s1).
Qed.

(** X16.  When the loop of [main] over the target sites returns, every name
    it has collected is on disk under the download directory, whatever the
    servers sent, whatever archives were expanded and whatever later sites
    overwrote; so the summary that follows cannot fail: [safeExit] returns
    and leaves the file system as it is. *)
Theorem site_loop_result_on_disk w cfgs dst unzip sites s files s' :
  for_each (process_site w cfgs dst unzip) sites [] s = (Ret files, s') →
  (∀ n, n ∈ files →
     ∃ d, dst = Some d ∧ is_Some (fs s' !! os_path_join w d n))
  ∧ ∃ s'', safeExit w dst files "execution-complete" s' = (Ret tt, s'')
           ∧ fs s'' = fs s'.
Proof.
  intros H.
  assert (Hd : on_disk w dst (fs s') files).
  { apply (site_loop_Ret_on_disk w cfgs dst unzip sites [] s files s' H).
    intros n Hn. now apply elem_of_nil in Hn. }
  split; [exact Hd|].
  destruct dst as [d|].
  - eexists. split.
    + apply safeExit_present. intros f Hf.
      destruct (Hd f Hf) as (d' & Heq & Hs). now inversion Heq; subst.
    + reflexivity.
  - destruct files as [|n files].
    + eexists. split; reflexivity.
    + destruct (Hd n) as (d' & Heq & _); [apply elem_of_cons; now left|].
      discriminate Heq.
Qed.

(** Applying X16 to the run over the one site of the example. *)
Lemma site_loop_result_on_disk_witness :
  let w := demo_world (Some (DMap one_site)) in
  let run :=
    for_each (process_site w one_site (Some "/home/u") true)
      (target_sites one_site ".*_.*") [] demo_state in
  ∃ s'', safeExit w (Some "/home/u") ["a.txt"; "b.zip"] "execution-complete"
           run.2 = (Ret tt, s'')
         ∧ fs s'' = fs run.2.
Proof.
  intros w run.
  apply (site_loop_result_on_disk w one_site (Some "/home/u") true
           (target_sites one_site ".*_.*") demo_state ["a.txt"; "b.zip"] run.2).
  vm_compute. reflexivity.
Defined.

(** ** Archives: files that cannot be read *)

Lemma unzip_one_missing w d i s :
  (∀ c, fs s !! os_path_join w d i ≠ Some (File c)) →
  unzip_one w (Some d) i s = (Raise OSError, s).
Proof.
  intros Hno. unfold unzip_one.
  erewrite bind_Ret by reflexivity.
  assert (Hz : zipfile_is_zipfile w (os_path_join w d i) s = (Ret false, s)).
  { unfold zipfile_is_zipfile. erewrite bind_Ret by reflexivity. cbv beta.
    destruct (fs s !! os_path_join w d i) as [[c|]|] eqn:E; try reflexivity.
    now destruct (Hno c). }
  erewrite bind_Ret by exact Hz. cbv iota.
  erewrite bind_Raise; [reflexivity|].
  unfold tarfile_is_tarfile. erewrite bind_Raise; [reflexivity|].
  unfold open_read. erewrite bind_Ret by reflexivity. cbv beta.
  destruct (fs s !! os_path_join w d i) as [[c|]|] eqn:E; try reflexivity.
  now destruct (Hno c).
Qed.

(** X18.  Nothing in [unzipZippedFiles] catches an error.  When the names
    before [i] have been dealt with and the path of [i] under the download
    directory holds no file (it is missing, or a directory), the zip test
    answers no and the tar test raises: the function raises [OSError] with
    the state as the names before [i] left it, and the names after [i] are
    never looked at, archives or not.  Without a download directory the
    function raises [TypeError] at the first name, and does nothing for an
    empty list. *)
Theorem missing_file_stops_expansion w d before i after s s1 :
  (unzipZippedFiles w (Some d) before s = (Ret tt, s1) →
   (∀ c, fs s1 !! os_path_join w d i ≠ Some (File c)) →
   unzipZippedFiles w (Some d) (before ++ i :: after) s = (Raise OSError, s1))
  ∧ unzipZippedFiles w None (i :: after) s = (Raise TypeError, s)
  ∧ unzipZippedFiles w None [] s = (Ret tt, s).
Proof.
  split; [|split; reflexivity].
  intros Hb Hno.
  apply (unzipZippedFiles_stops w (Some d) before i after s s1 OSError s1 Hb).
  now apply unzip_one_missing.
Qed.

(** Applying X18 to a list that names, between a text file and an archive, a
    file that is not on disk. *)
Lemma missing_file_stops_expansion_witness :
  unzipZippedFiles (demo_world None) (Some "/home/u")
    (["notes.txt"] ++ "ghost.zip" :: ["b.zip"]) downloaded_state
  = (Raise OSError, downloaded_state).
Proof.
  apply (proj1 (missing_file_stops_expansion (demo_world None) "/home/u"
                  ["notes.txt"] "ghost.zip" ["b.zip"] downloaded_state
                  downloaded_state)).
  - vm_compute. reflexivity.
  - intros c. vm_compute. discriminate.
Defined.

(** ** The loop over the options *)

Lemma validateDownloadPath_eq v s :
  ∃ s1, validateDownloadPath v s = (Ret (is_dir (fs s !! v)), s1)
        ∧ fs s1 = fs s ∧ verbose s1 = verbose s.
Proof.
  unfold validateDownloadPath.
  erewrite bind_Ret by apply os_path_exists_eq.
  destruct (fs s !! v) as [[c|]|] eqn:E.
  - rewrite bool_decide_eq_true_2 by eauto. cbn [negb].
    erewrite bind_Ret
      by (unfold os_path_isdir; erewrite bind_Ret by reflexivity;
          cbv beta; rewrite E; reflexivity).
    cbn [negb]. erewrite bind_Ret by (apply writeLog_plain; discriminate).
    eexists. split; [reflexivity|]. split; [apply logged_fs|apply logged_verbose].
  - rewrite bool_decide_eq_true_2 by eauto. cbn [negb].
    erewrite bind_Ret
      by (unfold os_path_isdir; erewrite bind_Ret by reflexivity;
          cbv beta; rewrite E; reflexivity).
    cbn [negb]. eexists. split; [reflexivity|]. split; reflexivity.
  - rewrite bool_decide_eq_false_2 by (intros [x Hx]; discriminate Hx).
    cbn [negb]. erewrite bind_Ret by (apply writeLog_plain; discriminate).
    eexists. split; [reflexivity|]. split; [apply logged_fs|apply logged_verbose].
Qed.

Lemma validateConfigPath_eq v s :
  ∃ s1, validateConfigPath v s
        = (Ret (endswith v "yaml" && bool_decide (is_Some (fs s !! v))), s1)
        ∧ fs s1 = fs s ∧ verbose s1 = verbose s.
Proof.
  unfold validateConfigPath. destruct (endswith v "yaml"); cbn [negb andb].
  - erewrite bind_Ret by apply os_path_exists_eq.
    destruct (bool_decide _); cbn [negb].
    + eexists. split; [reflexivity|]. split; reflexivity.
    + erewrite bind_Ret by (apply writeLog_plain; discriminate).
      eexists. split; [reflexivity|].
      split; [apply logged_fs|apply logged_verbose].
  - erewrite bind_Ret by (apply writeLog_plain; discriminate).
    eexists. split; [reflexivity|].
    split; [apply logged_fs|apply logged_verbose].
Qed.

(** One round of the loop: what it does to the flags and to the logger. *)
Lemma parse_option_step o a0 s a1 s1 :
  parse_option o a0 s = (Ret a1, s1) →
  o ≠ OptH ∧ fs s1 = fs s
  ∧ (verbose s1 = true ↔ verbose s = true ∨ o = OptVerbose)
  ∧ (arg_verbose a1 = true ↔ arg_verbose a0 = true ∨ o = OptVerbose)
  ∧ (preserveOldFiles a1 = true ↔ preserveOldFiles a0 = true ∨ o = OptPreserve)
  ∧ (unzipFiles a1 = true ↔ unzipFiles a0 = true ∨ o = OptUnzip)
  ∧ (targetSiteSpecified a1 = true
     ↔ targetSiteSpecified a0 = true ∨ ∃ v, o = OptSite v)
  ∧ ((targetSiteSpecified a0 = false → targetSite a0 = ".*_.*") →
     targetSiteSpecified a1 = false → targetSite a1 = ".*_.*").
Proof.
  intros H. destruct o; cbn [parse_option] in H.
  - apply bind_inv in H as [(x & s2 & _ & H)|(e & _ & H)]; [|discriminate H].
    apply bind_inv in H as [(y & s3 & _ & H)|(e & _ & H)]; discriminate H.
  - inversion H; subst.
    repeat split; try discriminate; try tauto;
      try (intros [?|?]; [assumption|discriminate]);
      try (intros [?|[? ?]]; [assumption|discriminate]).
  - destruct (validateConfigPath_eq value s) as (s2 & E & Hfs & Hv).
    erewrite bind_Ret in H by exact E. inversion H; subst. cbn.
    rewrite Hv.
    repeat split; try discriminate; try assumption; try tauto;
      try (intros [?|?]; [assumption|discriminate]);
      try (intros [?|[? ?]]; [assumption|discriminate]).
  - destruct (validateDownloadPath_eq value s) as (s2 & E & Hfs & Hv).
    erewrite bind_Ret in H by exact E. inversion H; subst. cbn.
    rewrite Hv.
    repeat split; try discriminate; try assumption; try tauto;
      try (intros [?|?]; [assumption|discriminate]);
      try (intros [?|[? ?]]; [assumption|discriminate]).
  - inversion H; subst. cbn.
    repeat split; try discriminate; try tauto;
      try (intros [?|?]; [assumption|discriminate]);
      try (intros [?|[? ?]]; [assumption|discriminate]).
  - inversion H; subst. destruct s as [f tr v]. cbn.
    repeat split; try discriminate; try tauto;
      try (intros [?|?]; [assumption|discriminate]);
      try (intros [?|[? ?]]; [assumption|discriminate]).
  - inversion H; subst. cbn.
    repeat split; try discriminate; try tauto;
      try (intros [?|?]; [assumption|discriminate]);
      try (intros [?|[? ?]]; [assumption|discriminate]).
  - inversion H; subst. cbn.
    repeat split; try discriminate; try tauto; eauto;
      try (intros [?|?]; [assumption|discriminate]);
      try (intros [?|[? ?]]; [assumption|discriminate]).
Qed.

Lemma parse_loop_flags opts :
  ∀ a0 s a s',
    for_each parse_option opts a0 s = (Ret a, s') →
    (OptH ∉ opts) ∧ fs s' = fs s
    ∧ (verbose s' = true ↔ verbose s = true ∨ OptVerbose ∈ opts)
    ∧ (arg_verbose a = true ↔ arg_verbose a0 = true ∨ OptVerbose ∈ opts)
    ∧ (preserveOldFiles a = true
       ↔ preserveOldFiles a0 = true ∨ OptPreserve ∈ opts)
    ∧ (unzipFiles a = true ↔ unzipFiles a0 = true ∨ OptUnzip ∈ opts)
    ∧ (targetSiteSpecified a = true
       ↔ targetSiteSpecified a0 = true ∨ ∃ v, OptSite v ∈ opts)
    ∧ ((targetSiteSpecified a0 = false → targetSite a0 = ".*_.*") →
       targetSiteSpecified a = false → targetSite a = ".*_.*").
Proof.
  induction opts as [|o opts IH]; intros a0 s a s' H.
  - inversion H; subst.
    repeat split; try tauto;
      try (intros Hin; now apply elem_of_nil in Hin);
      try (intros [?|Hin]; [assumption|now apply elem_of_nil in Hin]);
      try (intros [?|[? Hin]]; [assumption|now apply elem_of_nil in Hin]).
  - cbn [for_each] in H.
    apply bind_inv in H as [(a1 & s1 & H1 & H)|(e & _ & H)]; [|discriminate H].
    apply parse_option_step in H1
      as (N1 & F1 & V1 & A1 & P1 & U1 & T1 & D1).
    apply IH in H as (N2 & F2 & V2 & A2 & P2 & U2 & T2 & D2).
    split; [|split; [congruence|]].
    { intros Hin. apply elem_of_cons in Hin as [Hin|Hin]; [now subst|tauto]. }
    repeat split.
    + intros Hx. apply V2 in Hx as [Hx|Hx].
      * apply V1 in Hx as [Hx|Hx]; [now left|right; subst; apply elem_of_cons; now left].
      * right. apply elem_of_cons. now right.
    + intros [Hx|Hx]; apply V2.
      * left. apply V1. now left.
      * apply elem_of_cons in Hx as [Hx|Hx]; [left; apply V1; now right|now right].
    + intros Hx. apply A2 in Hx as [Hx|Hx].
      * apply A1 in Hx as [Hx|Hx]; [now left|right; subst; apply elem_of_cons; now left].
      * right. apply elem_of_cons. now right.
    + intros [Hx|Hx]; apply A2.
      * left. apply A1. now left.
      * apply elem_of_cons in Hx as [Hx|Hx]; [left; apply A1; now right|now right].
    + intros Hx. apply P2 in Hx as [Hx|Hx].
      * apply P1 in Hx as [Hx|Hx]; [now left|right; subst; apply elem_of_cons; now left].
      * right. apply elem_of_cons. now right.
    + intros [Hx|Hx]; apply P2.
      * left. apply P1. now left.
      * apply elem_of_cons in Hx as [Hx|Hx]; [left; apply P1; now right|now right].
    + intros Hx. apply U2 in Hx as [Hx|Hx].
      * apply U1 in Hx as [Hx|Hx]; [now left|right; subst; apply elem_of_cons; now left].
      * right. apply elem_of_cons. now right.
    + intros [Hx|Hx]; apply U2.
      * left. apply U1. now left.
      * apply elem_of_cons in Hx as [Hx|Hx]; [left; apply U1; now right|now right].
    + intros Hx. apply T2 in Hx as [Hx|[v Hx]].
      * apply T1 in Hx as [Hx|[v Hx]];
          [now left|right; exists v; subst; apply elem_of_cons; now left].
      * right. exists v. apply elem_of_cons. now right.
    + intros [Hx|[v Hx]]; apply T2.
      * left. apply T1. now left.
      * apply elem_of_cons in Hx as [Hx|Hx];
          [left; apply T1; right; eauto|right; eauto].
    + intros Hd. apply D2. now apply D1.
Qed.

(** X19.  The long option [--help] is accepted and then ignored: no branch
    of the loop tests it, so a command line with it runs exactly as the same
    command line without it. *)
Theorem long_help_is_ignored w pre post s :
  main w (Some (pre ++ OptHelpLong :: post)) s = main w (Some (pre ++ post)) s.
Proof.
  assert (E : parse_options (Some (pre ++ OptHelpLong :: post)) s
              = parse_options (Some (pre ++ post)) s).
  { unfold parse_options. rewrite !for_each_app. unfold bind.
    destruct (for_each parse_option pre initial_args s) as [[a|e] s1];
      reflexivity. }
  unfold main, parseArgs. unfold bind at 1 2. unfold bind at 4 5.
  rewrite E. reflexivity.
Qed.

(** X20.  When the loop over the options ends, each flag is set exactly when
    its option was given, wherever it stood and however often; the logger is
    verbose exactly when it was already or [-v] was given; a target site is
    specified exactly when [-s] was given, and it is the match-all sentinel
    otherwise; [-h] was not given and the file system is untouched. *)
Theorem option_flags opts s a s' :
  parse_options (Some opts) s = (Ret a, s') →
  (arg_verbose a = true ↔ OptVerbose ∈ opts)
  ∧ (preserveOldFiles a = true ↔ OptPreserve ∈ opts)
  ∧ (unzipFiles a = true ↔ OptUnzip ∈ opts)
  ∧ (targetSiteSpecified a = true ↔ ∃ v, OptSite v ∈ opts)
  ∧ (targetSiteSpecified a = false → targetSite a = ".*_.*")
  ∧ (verbose s' = true ↔ verbose s = true ∨ OptVerbose ∈ opts)
  ∧ (OptH ∉ opts) ∧ fs s' = fs s.
Proof.
  intros H. unfold parse_options in H.
  apply parse_loop_flags in H as (N & F & V & A & P & U & T & D).
  cbn in A, P, U, T, D.
  repeat split; try tauto.
  - intros Hx. apply A in Hx as [Hx|Hx]; [discriminate Hx|assumption].
  - intros Hx. apply P in Hx as [Hx|Hx]; [discriminate Hx|assumption].
  - intros Hx. apply U in Hx as [Hx|Hx]; [discriminate Hx|assumption].
  - intros Hx. apply T in Hx as [Hx|Hx]; [discriminate Hx|assumption].
Qed.

(** Applying X20 to a command line with [-u], [-s] and [-v]. *)
Lemma option_flags_witness :
  let run :=
    parse_options (Some [OptUnzip; OptSite "siteA"; OptVerbose]) demo_state in
  verbose run.2 = true ↔
  verbose demo_state = true ∨ OptVerbose ∈ [OptUnzip; OptSite "siteA"; OptVerbose].
Proof.
  intros run.
  refine (proj1 (proj2 (proj2 (proj2 (proj2 (proj2
            (option_flags [OptUnzip; OptSite "siteA"; OptVerbose] demo_state
               (mkArgs "ftp.yaml" false "" false true false true true "siteA")
               run.2 _))))))).
  vm_compute. reflexivity.
Defined.

Lemma parse_option_paths o a0 s a1 s1 :
  parse_option o a0 s = (Ret a1, s1) →
  (∀ v, o = OptOutput v →
     outputDIRPath a1 = v
     ∧ customOutputPathFoundAndValidated a1 = is_dir (fs s !! v))
  ∧ ((∀ v, o ≠ OptOutput v) →
     outputDIRPath a1 = outputDIRPath a0
     ∧ customOutputPathFoundAndValidated a1
       = customOutputPathFoundAndValidated a0)
  ∧ (∀ v, o = OptFile v →
     ftpYAMLPath a1 = v
     ∧ customYAMLPathFoundAndValidated a1
       = endswith v "yaml" && bool_decide (is_Some (fs s !! v)))
  ∧ ((∀ v, o ≠ OptFile v) →
     ftpYAMLPath a1 = ftpYAMLPath a0
     ∧ customYAMLPathFoundAndValidated a1
       = customYAMLPathFoundAndValidated a0).
Proof.
  intros H. destruct o; cbn [parse_option] in H.
  - apply bind_inv in H as [(x & s2 & _ & H)|(e & _ & H)]; [|discriminate H].
    apply bind_inv in H as [(y & s3 & _ & H)|(e & _ & H)]; discriminate H.
  - inversion H; subst.
    repeat split; intros; try discriminate; reflexivity.
  - destruct (validateConfigPath_eq value s) as (s2 & E & _).
    erewrite bind_Ret in H by exact E. inversion H; subst. cbn.
    repeat split; intros; try discriminate; try reflexivity;
      try (match goal with Hx : OptFile _ = OptFile _ |- _ =>
             inversion Hx; subst; reflexivity end);
      try (match goal with Hx : ∀ v, OptFile _ ≠ OptFile v |- _ =>
             now destruct (Hx value) end).
  - destruct (validateDownloadPath_eq value s) as (s2 & E & _).
    erewrite bind_Ret in H by exact E. inversion H; subst. cbn.
    repeat split; intros; try discriminate; try reflexivity;
      try (match goal with Hx : OptOutput _ = OptOutput _ |- _ =>
             inversion Hx; subst; reflexivity end);
      try (match goal with Hx : ∀ v, OptOutput _ ≠ OptOutput v |- _ =>
             now destruct (Hx value) end).
  - inversion H; subst. cbn.
    repeat split; intros; try discriminate; reflexivity.
  - inversion H; subst. cbn.
    repeat split; intros; try discriminate; reflexivity.
  - inversion H; subst. cbn.
    repeat split; intros; try discriminate; reflexivity.
  - inversion H; subst. cbn.
    repeat split; intros; try discriminate; reflexivity.
Qed.

Lemma parse_loop_keeps_output opts :
  ∀ a0 s a s',
    for_each parse_option opts a0 s = (Ret a, s') →
    Forall (λ o, ∀ x, o ≠ OptOutput x) opts →
    outputDIRPath a = outputDIRPath a0
    ∧ customOutputPathFoundAndValidated a
      = customOutputPathFoundAndValidated a0.
Proof.
  induction opts as [|o opts IH]; intros a0 s a s' H Hall.
  - inversion H; subst. split; reflexivity.
  - apply Forall_cons in Hall as [Ho Hall]. cbn [for_each] in H.
    apply bind_inv in H as [(a1 & s1 & H1 & H)|(e & _ & H)]; [|discriminate H].
    apply parse_option_paths in H1 as (_ & K & _).
    destruct (K Ho) as [K1 K2].
    destruct (IH _ _ _ _ H Hall) as [L1 L2]. split; congruence.
Qed.

Lemma parse_loop_keeps_file opts :
  ∀ a0 s a s',
    for_each parse_option opts a0 s = (Ret a, s') →
    Forall (λ o, ∀ x, o ≠ OptFile x) opts →
    ftpYAMLPath a = ftpYAMLPath a0
    ∧ customYAMLPathFoundAndValidated a = customYAMLPathFoundAndValidated a0.
Proof.
  induction opts as [|o opts IH]; intros a0 s a s' H Hall.
  - inversion H; subst. split; reflexivity.
  - apply Forall_cons in Hall as [Ho Hall]. cbn [for_each] in H.
    apply bind_inv in H as [(a1 & s1 & H1 & H)|(e & _ & H)]; [|discriminate H].
    apply parse_option_paths in H1 as (_ & _ & _ & K).
    destruct (K Ho) as [K1 K2].
    destruct (IH _ _ _ _ H Hall) as [L1 L2]. split; congruence.
Qed.

(** X21.  Of several [-o] options only the last one counts: the download
    path is its value, and it is taken as validated exactly when that value
    is an existing directory, whatever an earlier [-o] gave; so a valid [-o]
    followed by an invalid one sends the run to the default directory.  The
    same holds for [-f]: the last value counts, validated exactly when it
    ends in [yaml] and exists. *)
Theorem last_path_option_decides pre o post s a s' :
  parse_options (Some (pre ++ o :: post)) s = (Ret a, s') →
  (∀ v, o = OptOutput v → Forall (λ o', ∀ x, o' ≠ OptOutput x) post →
     outputDIRPath a = v
     ∧ customOutputPathFoundAndValidated a = is_dir (fs s !! v))
  ∧ (∀ v, o = OptFile v → Forall (λ o', ∀ x, o' ≠ OptFile x) post →
     ftpYAMLPath a = v
     ∧ customYAMLPathFoundAndValidated a
       = endswith v "yaml" && bool_decide (is_Some (fs s !! v))).
Proof.
  intros H. unfold parse_options in H. rewrite for_each_app in H.
  apply bind_inv in H as [(a0 & s0 & H0 & H)|(e & _ & H)]; [|discriminate H].
  apply parse_loop_flags in H0 as (_ & F0 & _).
  cbn [for_each] in H.
  apply bind_inv in H as [(a1 & s1 & H1 & H)|(e & _ & H)]; [|discriminate H].
  apply parse_option_paths in H1 as (KO & _ & KF & _).
  rewrite F0 in KO, KF. split.
  - intros v Ho Hpost. destruct (KO v Ho) as [K1 K2].
    destruct (parse_loop_keeps_output post _ _ _ _ H Hpost) as [L1 L2].
    split; congruence.
  - intros v Ho Hpost. destruct (KF v Ho) as [K1 K2].
    destruct (parse_loop_keeps_file post _ _ _ _ H Hpost) as [L1 L2].
    split; congruence.
Qed.

(** Applying X21 to a command line whose first [-o] names the home directory
    and whose second [-o] names a path that does not exist. *)
Lemma last_path_option_decides_witness :
  let run :=
    parse_options
      (Some ([OptOutput "/home/u"] ++ OptOutput "/nowhere" :: [OptUnzip]))
      demo_state in
  outputDIRPath (mkArgs "ftp.yaml" false "/nowhere" false false false true
                   false ".*_.*") = "/nowhere"
  ∧ customOutputPathFoundAndValidated
      (mkArgs "ftp.yaml" false "/nowhere" false false false true false ".*_.*")
    = is_dir (fs demo_state !! "/nowhere").
Proof.
  intros run.
  apply (proj1 (last_path_option_decides [OptOutput "/home/u"]
                  (OptOutput "/nowhere") [OptUnzip] demo_state
                  (mkArgs "ftp.yaml" false "/nowhere" false false false true
                     false ".*_.*")
                  run.2 ltac:(vm_compute; reflexivity)) "/nowhere" eq_refl).
  repeat constructor; discriminate.
Defined.

(** ** What reaches the terminal *)

Create HintDb quiet_db.

Section Quiet.

Lemma quiet_ret {A} (a : A) : quiet (ret a).
Proof.
  intros s r s' H Hv. inversion H; subst. split; [assumption|].
  exists []. now rewrite app_nil_r.
Qed.

Lemma quiet_raise {A} e : quiet (@raise A e).
Proof.
  intros s r s' H Hv. inversion H; subst. split; [assumption|].
  exists []. now rewrite app_nil_r.
Qed.

Lemma quiet_get_state : quiet get_state.
Proof.
  intros s r s' H Hv. inversion H; subst. split; [assumption|].
  exists []. now rewrite app_nil_r.
Qed.

Lemma quiet_emit e : silent e → quiet (emit e).
Proof.
  intros He s r s' H Hv. inversion H; subst. split; [assumption|].
  exists [e]. split; [reflexivity|]. now constructor.
Qed.

Lemma quiet_set_fs g : quiet (modify (set_fs g)).
Proof.
  intros s r s' H Hv. inversion H; subst. split; [assumption|].
  exists []. cbn. now rewrite app_nil_r.
Qed.

Lemma quiet_bind {A B} (m : M A) (k : A → M B) :
  quiet m → (∀ a, quiet (k a)) → quiet (bind m k).
Proof.
  intros Hm Hk s r s' H Hv.
  apply bind_inv in H as [(a & s1 & H1 & H2)|(e & H1 & ->)].
  - destruct (Hm _ _ _ H1 Hv) as (V1 & ev1 & T1 & S1).
    destruct (Hk a _ _ _ H2 V1) as (V2 & ev2 & T2 & S2).
    split; [assumption|]. exists (ev1 ++ ev2).
    split; [now rewrite T2, T1, app_assoc|now apply Forall_app].
  - eapply Hm; eassumption.
Qed.

Lemma quiet_try_except {A} (m : M A) (h : exn → M A) :
  quiet m → (∀ e, quiet (h e)) → quiet (try_except m h).
Proof.
  intros Hm Hh s r s' H Hv. unfold try_except in H.
  destruct (m s) as [[a|e] s1] eqn:E.
  - inversion H; subst. eapply Hm; eassumption.
  - destruct (is_Exception e).
    + destruct (Hm _ _ _ E Hv) as (V1 & ev1 & T1 & S1).
      destruct (Hh e _ _ _ H V1) as (V2 & ev2 & T2 & S2).
      split; [assumption|]. exists (ev1 ++ ev2).
      split; [now rewrite T2, T1, app_assoc|now apply Forall_app].
    + inversion H; subst. eapply Hm; eassumption.
Qed.

Lemma quiet_ret_bind {A B} (a : A) (k : A → M B) :
  quiet (k a) → quiet (bind (ret a) k).
Proof. intros H s r s' E. apply (H s r s'). exact E. Qed.

Lemma quiet_for_each {A B} (f : A → B → M B) l :
  (∀ x acc, quiet (f x acc)) → ∀ acc, quiet (for_each f l acc).
Proof.
  intros Hf. induction l as [|x l IH]; intros acc; simpl.
  - apply quiet_ret.
  - apply quiet_bind; auto.
Qed.

(** The end of [writeLog]: the terminal gets the message with [verbose]
    only. *)
Lemma quiet_mirror m a :
  quiet (s <- get_state ;; if verbose s then emit (Console m a) else ret tt).
Proof.
  intros s r s' H Hv. unfold bind, get_state in H. rewrite Hv in H.
  inversion H; subst. split; [assumption|].
  exists []. now rewrite app_nil_r.
Qed.

(** [print] goes through [Logger.write]. *)
Lemma quiet_print m a : quiet (print m a).
Proof.
  intros s r s' H Hv. unfold print, bind, get_state, emit, modify in H.
  inversion H; subst. split; [assumption|].
  exists [Printed m a (verbose s)]. split; [reflexivity|].
  constructor; [exact Hv|constructor].
Qed.

End Quiet.

Ltac q_one :=
  first
    [ solve [eauto with quiet_db]
    | apply quiet_mirror
    | apply quiet_ret
    | apply quiet_raise
    | apply quiet_get_state
    | apply quiet_emit; exact I
    | apply quiet_set_fs
    | apply quiet_bind; [|intros ?]
    | apply quiet_try_except; [|intros ?]
    | apply quiet_for_each; intros ? ?
    | match goal with
      | |- quiet (if ?b then _ else _) => destruct b
      | |- quiet (match ?x with _ => _ end) => destruct x
      end ].

Ltac q_solve := repeat q_one.

Section QuietScript.

Context (w : World).

Lemma quiet_details f : quiet (details f).
Proof. unfold details. q_solve. Qed.
Hint Resolve quiet_details : quiet_db.

Lemma quiet_writeLog m a sev d : quiet (writeLog m a sev d).
Proof. unfold writeLog. q_solve. Qed.
Hint Resolve quiet_writeLog quiet_print : quiet_db.



Lemma quiet_os_path_exists p : quiet (os_path_exists p).
Proof. unfold os_path_exists. q_solve. Qed.

Lemma quiet_os_path_isdir p : quiet (os_path_isdir p).
Proof. unfold os_path_isdir. q_solve. Qed.

Lemma quiet_open_read p : quiet (open_read p).
Proof. unfold open_read. q_solve. Qed.

Lemma quiet_os_path_getsize p : quiet (os_path_getsize w p).
Proof. unfold os_path_getsize. q_solve. Qed.

Lemma quiet_path_join a b : quiet (path_join w a b).
Proof. unfold path_join. q_solve. Qed.

Lemma quiet_getitem {V} k (d : dict V) : quiet (getitem k d).
Proof. unfold getitem. q_solve. Qed.

Lemma quiet_delitem {V} k (d : dict V) : quiet (delitem k d).
Proof. unfold delitem. q_solve. Qed.

Lemma quiet_entry_keys e : quiet (entry_keys e).
Proof. unfold entry_keys. q_solve. Qed.

Lemma quiet_entry_getitem k e : quiet (entry_getitem k e).
Proof. unfold entry_getitem. destruct e; [apply quiet_getitem|q_solve]. Qed.

Hint Resolve quiet_os_path_exists
  quiet_os_path_isdir quiet_open_read quiet_os_path_getsize
  quiet_path_join quiet_getitem quiet_delitem quiet_entry_keys
  quiet_entry_getitem : quiet_db.

Lemma quiet_and_chain e ks : quiet (and_chain e ks).
Proof. induction ks; simpl; q_solve. Qed.
Hint Resolve quiet_and_chain : quiet_db.

Lemma quiet_check_config c d : quiet (check_config c d).
Proof. unfold check_config. q_solve. Qed.
Hint Resolve quiet_check_config : quiet_db.

Lemma quiet_loadCredentials p : quiet (loadCredentials w p).
Proof. unfold loadCredentials. q_solve. Qed.

Lemma quiet_validateConfigPath p : quiet (validateConfigPath p).
Proof. unfold validateConfigPath. q_solve. Qed.

Lemma quiet_validateDownloadPath p : quiet (validateDownloadPath p).
Proof. unfold validateDownloadPath. q_solve. Qed.
Hint Resolve quiet_loadCredentials quiet_validateConfigPath
  quiet_validateDownloadPath : quiet_db.



Lemma quiet_not_found : quiet not_found_in_defaults.
Proof. unfold not_found_in_defaults, exit. q_solve. Qed.
Hint Resolve quiet_not_found : quiet_db.

Lemma quiet_getDefaultConfigPath : quiet (getDefaultConfigPath w).
Proof. unfold getDefaultConfigPath, exit. q_solve. Qed.

Lemma quiet_validate_target a d : quiet (validate_target a d).
Proof. unfold validate_target, exit. q_solve. Qed.

Lemma quiet_safeExit d l m : quiet (safeExit w d l m).
Proof. unfold safeExit. q_solve. Qed.

Lemma quiet_file_close p wr : quiet (file_close p wr).
Proof. unfold file_close. q_solve. Qed.

Lemma quiet_ftp_answer {A} (o : option A) : quiet (ftp_answer o).
Proof. unfold ftp_answer. q_solve. Qed.

Lemma quiet_extract x : quiet (extract x).
Proof. unfold extract. q_solve. Qed.
Hint Resolve quiet_getDefaultConfigPath quiet_validate_target
  quiet_safeExit quiet_file_close quiet_ftp_answer
  quiet_extract : quiet_db.

Lemma quiet_disconnectFtp ftp h : quiet (disconnectFtp ftp h).
Proof. unfold disconnectFtp. q_solve. Qed.
Hint Resolve quiet_disconnectFtp : quiet_db.


Lemma quiet_open_wb p : quiet (open_wb w p).
Proof. unfold open_wb. q_solve. Qed.

Lemma quiet_file_write p b wr : quiet (file_write w p b wr).
Proof. unfold file_write. cbv zeta. q_solve. Qed.
Hint Resolve quiet_open_wb quiet_file_write : quiet_db.

Lemma quiet_retrbinary rd n p : quiet (retrbinary w rd n p).
Proof. unfold retrbinary. q_solve. Qed.
Hint Resolve quiet_retrbinary : quiet_db.

Lemma quiet_download_one rd d n acc : quiet (download_one w rd d n acc).
Proof. unfold download_one. q_solve. Qed.
Hint Resolve quiet_download_one : quiet_db.

Lemma quiet_downloadFiles ftp h src d : quiet (downloadFiles w ftp h src d).
Proof. unfold downloadFiles. q_solve. Qed.
Hint Resolve quiet_downloadFiles : quiet_db.

Lemma quiet_connectToFTP e site d : quiet (connectToFTP w e site d).
Proof. unfold connectToFTP. q_solve. Qed.

Hint Resolve quiet_connectToFTP : quiet_db.

Lemma quiet_unzip_one d i : quiet (unzip_one w d i).
Proof.
  unfold unzip_one, zipfile_is_zipfile, tarfile_is_tarfile,
    zipfile_extractall, tarfile_extractall.
  q_solve.
Qed.
Hint Resolve quiet_unzip_one : quiet_db.

Lemma quiet_unzipZippedFiles d l : quiet (unzipZippedFiles w d l).
Proof. unfold unzipZippedFiles. q_solve. Qed.
Hint Resolve quiet_unzipZippedFiles : quiet_db.

Lemma quiet_process_site cfgs d u site acc :
  quiet (process_site w cfgs d u site acc).
Proof. unfold process_site. q_solve. Qed.
Hint Resolve quiet_process_site : quiet_db.

Lemma quiet_run_sites p b : quiet (run_sites w p b).
Proof. unfold run_sites. q_solve. Qed.
Hint Resolve quiet_run_sites : quiet_db.


Lemma quiet_purge dir : quiet (purge w dir "SureDone_" true).
Proof.
  unfold purge, re_compile.
  change (compiled w "SureDone_") with (Some (contains "SureDone_")).
  cbv iota beta. apply quiet_ret_bind.
  q_solve.
Qed.
Hint Resolve quiet_purge : quiet_db.

Lemma quiet_getDefaultDownloadPath b : quiet (getDefaultDownloadPath w b).
Proof. unfold getDefaultDownloadPath. q_solve. Qed.
Hint Resolve quiet_getDefaultDownloadPath : quiet_db.

Lemma quiet_resolve_paths a : quiet (resolve_paths w a).
Proof. unfold resolve_paths. q_solve. Qed.
Hint Resolve quiet_resolve_paths : quiet_db.




(** Every option but [-h] and [-v] leaves the logger as it is. *)
Lemma quiet_parse_option o a :
  o ≠ OptH → o ≠ OptVerbose → quiet (parse_option o a).
Proof.
  intros H1 H2. destruct o; try contradiction; cbn [parse_option]; q_solve.
Qed.

Lemma quiet_parse_loop opts :
  OptH ∉ opts → OptVerbose ∉ opts →
  ∀ a, quiet (for_each parse_option opts a).
Proof.
  induction opts as [|o opts IH]; intros H1 H2 a; cbn [for_each].
  - apply quiet_ret.
  - apply not_elem_of_cons in H1 as [H1 H1'].
    apply not_elem_of_cons in H2 as [H2 H2'].
    apply quiet_bind; [apply quiet_parse_option; congruence|].
    intros a1. now apply IH.
Qed.

Lemma quiet_main_options opts :
  OptH ∉ opts → OptVerbose ∉ opts → quiet (main w (Some opts)).
Proof.
  intros H1 H2. unfold main, parseArgs, parse_options.
  apply quiet_bind; [|intros ?; q_solve].
  apply quiet_bind; [now apply quiet_parse_loop|intros ?; q_solve].
Qed.

End QuietScript.

(** X22.  Without [-v] and [-h] a run shows nothing on the terminal, however
    it ends: the logger stays as it was, every log line goes to the log file
    only, and what [print] writes, the summary of [safeExit] included, passes
    through [Logger.write], which keeps it from the terminal. *)
Theorem quiet_run_shows_nothing w opts s r s' :
  verbose s = false → OptVerbose ∉ opts → OptH ∉ opts →
  main w (Some opts) s = (r, s') →
  verbose s' = false
  ∧ ∃ evs, trace s' = trace s ++ evs ∧ Forall silent evs.
Proof.
  intros Hv H1 H2 H.
  exact (quiet_main_options w opts H2 H1 s r s' H Hv).
Qed.

(** Applying X22 to the run with [-u] on the example machine. *)
Lemma quiet_run_shows_nothing_witness :
  let run := main (demo_world (Some (DMap one_site))) (Some [OptUnzip])
               demo_state in
  verbose run.2 = false
  ∧ ∃ evs, trace run.2 = trace demo_state ++ evs ∧ Forall silent evs.
Proof.
  intros run.
  apply (quiet_run_shows_nothing (demo_world (Some (DMap one_site)))
           [OptUnzip] demo_state run.1 run.2).
  - reflexivity.
  - apply not_elem_of_cons. split; [discriminate|apply not_elem_of_nil].
  - apply not_elem_of_cons. split; [discriminate|apply not_elem_of_nil].
  - apply surjective_pairing.
Defined.

(** ** Local file handles *)

Lemma handle_events_app l1 l2 :
  handle_events (l1 ++ l2) = handle_events l1 ++ handle_events l2.
Proof. apply filter_app. Qed.

Lemma handles_since_refl s : handles_since s s [].
Proof. exists []. split; [now rewrite app_nil_r|reflexivity]. Qed.

Lemma handles_since_trans s1 s2 s3 l1 l2 :
  handles_since s1 s2 l1 → handles_since s2 s3 l2 →
  handles_since s1 s3 (l1 ++ l2).
Proof.
  intros (e1 & T1 & F1) (e2 & T2 & F2). exists (e1 ++ e2).
  split; [rewrite T2, T1; now rewrite app_assoc|].
  now rewrite handle_events_app, F1, F2.
Qed.

Lemma handles_since_event e s0 s l :
  is_handle e = true → handles_since s0 s l →
  handles_since s0 (add_event e s) (l ++ [e]).
Proof.
  intros He H. eapply handles_since_trans; [exact H|].
  exists [e]. split; [reflexivity|].
  unfold handle_events. rewrite filter_cons. destruct (decide _); [reflexivity|].
  contradiction.
Qed.

Lemma handles_since_other e s0 s l :
  is_handle e = false → handles_since s0 s l →
  handles_since s0 (add_event e s) l.
Proof.
  intros He H. rewrite <- (app_nil_r l). eapply handles_since_trans; [exact H|].
  exists [e]. split; [reflexivity|].
  unfold handle_events. rewrite filter_cons. destruct (decide _); [congruence|].
  reflexivity.
Qed.

Lemma handles_since_logged s0 s l sev m a :
  handles_since s0 s l → handles_since s0 (logged sev m a s) l.
Proof.
  intros H. unfold logged. destruct (verbose s).
  - apply handles_since_other; [reflexivity|].
    now apply handles_since_other.
  - now apply handles_since_other.
Qed.

Lemma handles_since_logged_lines lines :
  ∀ s0 s l, handles_since s0 s l → handles_since s0 (logged_lines lines s) l.
Proof.
  unfold logged_lines. induction lines as [|i lines IH]; intros s0 s l H.
  - exact H.
  - cbn [foldl]. apply IH. now apply handles_since_logged.
Qed.

Lemma handles_since_set_fs g s0 s l :
  handles_since s0 s l → handles_since s0 (set_fs g s) l.
Proof. intros H. exact H. Qed.

Ltac handles_tac :=
  repeat first
    [ apply handles_since_refl
    | apply handles_since_logged
    | apply handles_since_logged_lines
    | apply handles_since_set_fs
    | apply handles_since_event; [reflexivity|]
    | apply handles_since_other; [reflexivity|] ].

Lemma handles_since_transferred w rd name p s :
  handles_since s (transferred w rd name p s) [FileOpen p].
Proof.
  unfold transferred. change [FileOpen p] with ([] ++ [FileOpen p]).
  handles_tac.
Qed.

Lemma handles_since_closed rd name p s :
  handles_since s (closed rd name p s) [FileOpen p; FileClose p].
Proof.
  unfold closed.
  change [FileOpen p; FileClose p] with (([] ++ [FileOpen p]) ++ [FileClose p]).
  handles_tac.
Qed.

Lemma round_handles_grows w rd dst f f' name :
  create_stable w f → grows f f' →
  round_handles w rd dst f' name = round_handles w rd dst f name.
Proof.
  intros Hst H. unfold round_handles.
  now rewrite (tried_grows w dst f f' name Hst H).
Qed.

Section Handles.

Context (w : World) (rd : RemoteDir) (dst : option string).

Lemma download_one_handles name acc s :
  ∃ r s',
    download_one w rd dst name acc s = (r, s')
    ∧ handles_since s s' (round_handles w rd dst (fs s) name).
Proof.
  destruct (String.eqb_spec name ".") as [->|Hdot].
  { eexists _, s. split; [reflexivity|].
    unfold round_handles, tried. cbn. destruct dst; apply handles_since_refl. }
  destruct (String.eqb_spec name "..") as [->|Hdotdot].
  { eexists _, s. split; [reflexivity|].
    unfold round_handles, tried. cbn. destruct dst; apply handles_since_refl. }
  unfold round_handles, tried. rewrite (not_dot_test name Hdot Hdotdot).
  cbn [andb].
  destruct dst as [d|].
  2:{ rewrite (download_one_no_path w rd name acc s Hdot Hdotdot).
      eexists _, _. split; [reflexivity|]. handles_tac. }
  destruct (openable w (fs s) (os_path_join w d name)) eqn:Hd.
  2:{ rewrite (download_one_not_opened w rd name acc s Hdot Hdotdot d Hd).
      eexists _, _. split; [reflexivity|]. handles_tac. }
  destruct (snd (retr rd name)) eqn:Hr.
  - rewrite (download_one_fetched w rd name acc s Hdot Hdotdot d Hd Hr).
    eexists _, _. split; [reflexivity|]. apply handles_since_closed.
  - rewrite (download_one_failed w rd name acc s Hdot Hdotdot d Hd Hr).
    eexists _, _. split; [reflexivity|].
    apply handles_since_logged. apply handles_since_transferred.
Qed.

Lemma download_loop_handles names :
  ∀ acc s r s',
    create_stable w (fs s) →
    for_each (download_one w rd dst) names acc s = (r, s') →
    handles_since s s' (concat (map (round_handles w rd dst (fs s)) names)).
Proof.
  induction names as [|n names IH]; intros acc s r s' Hst H.
  - inversion H; subst. apply handles_since_refl.
  - destruct (download_one_spec w rd dst n acc s) as (s1 & ev1 & E1 & G1 & _).
    destruct (download_one_handles n acc s) as (r1 & s1' & E1' & T1).
    rewrite E1 in E1'. inversion E1'; subst r1 s1'. clear E1'.
    cbn [for_each] in H. erewrite bind_Ret in H by exact E1.
    apply IH in H; [|now apply (create_stable_grows w (fs s))].
    cbn [map concat].
    eapply handles_since_trans; [exact T1|].
    erewrite map_ext; [exact H|].
    intros x. cbv beta. symmetry. now apply round_handles_grows.
Qed.

End Handles.

(** X23.  With a server that answers CWD, LIST and NLST, and a file system
    in which writing files does not change where files can be created, the
    local files [downloadFiles] opens and closes are, in the order of the
    listing: for every name that is tried (a name other than [.] and [..]
    whose path is no directory and where a file can be created), its file is
    opened, and closed when the transfer ended well.  The file of a failed
    transfer is never closed, and nothing else is opened. *)
Theorem handles_of_session w ftp hostname src dst s rd lines names :
  cwd ftp src = Some rd → list_lines rd = Some lines →
  nlst_names rd = Some names →
  create_stable w (fs s) →
  ∃ r s',
    downloadFiles w ftp hostname src dst s = (r, s')
    ∧ handles_since s s'
        (concat (map (round_handles w rd dst (fs s)) names)).
Proof.
  intros Hcwd Hlist Hnlst Hst. unfold downloadFiles.
  erewrite bind_Ret by reflexivity.
  erewrite bind_Ret by (rewrite Hcwd; reflexivity).
  erewrite bind_Ret by (apply writeLog_plain; discriminate).
  erewrite bind_Ret by (apply writeLog_plain; discriminate).
  erewrite bind_Ret by reflexivity.
  erewrite bind_Ret by (rewrite Hlist; reflexivity).
  erewrite bind_Ret by apply for_each_log_lines.
  erewrite bind_Ret by reflexivity.
  erewrite bind_Ret by (rewrite Hnlst; reflexivity).
  match goal with
  | |- context [bind (for_each (download_one w rd dst) names []) _ ?st] =>
      set (s1 := st);
      destruct (download_loop_names w rd dst names [] s1)
        as (files & s2 & evs & E & _)
  end.
  cbn [app] in E.
  assert (F1 : fs s1 = fs s).
  { subst s1. cbn [add_event fs].
    destruct (later_logged_lines lines
                (add_event FtpList
                   (logged Normal "Files at {}:" [AVal src]
                      (logged Normal
                         "This script will only download files, not directories."
                         [] (add_event (FtpCwd src) s)))))
      as [F _].
    rewrite F. cbn [add_event fs]. now rewrite !logged_fs. }
  assert (T1 : handles_since s s1 []).
  { subst s1. handles_tac. }
  assert (T2 : handles_since s1 s2
                 (concat (map (round_handles w rd dst (fs s)) names))).
  { rewrite <- F1. eapply download_loop_handles; [|exact E].
    now rewrite F1. }
  assert (T : handles_since s s2
                (concat (map (round_handles w rd dst (fs s)) names))).
  { change (concat (map (round_handles w rd dst (fs s)) names))
      with ([] ++ concat (map (round_handles w rd dst (fs s)) names)).
    eapply handles_since_trans; eassumption. }
  erewrite bind_Ret by exact E.
  erewrite bind_Ret by (apply writeLog_plain; discriminate).
  destruct (quit_ok ftp) eqn:Hq.
  - erewrite bind_Ret by (apply disconnectFtp_ok; exact Hq).
    eexists _, _. split; [reflexivity|]. handles_tac. exact T.
  - erewrite bind_Raise by (apply disconnectFtp_refused; exact Hq).
    eexists _, _. split; [reflexivity|]. handles_tac. exact T.
Qed.

(** Applying X23 to the server whose listing holds a file, a name below a
    local directory that does not exist, and a file whose transfer breaks:
    the first is opened and closed, the second is not opened, the third is
    opened and left open. *)
Lemma handles_of_session_witness :
  ∃ r s',
    downloadFiles (demo_world None) broken_server (PStr "ftp.example.com")
      (PStr "/out") (Some "/home/u") demo_state = (r, s')
    ∧ handles_since demo_state s'
        [FileOpen "/home/u/a.txt"; FileClose "/home/u/a.txt";
         FileOpen "/home/u/part.bin"].
Proof.
  apply (handles_of_session (demo_world None) broken_server
           (PStr "ftp.example.com") (PStr "/out") (Some "/home/u") demo_state
           broken_dir
           ["-rw-r--r-- a.txt"; "-rw-r--r-- x/y.txt"; "-rw-r--r-- part.bin"]
           ["a.txt"; "x/y.txt"; "part.bin"]);
    try reflexivity.
  apply demo_create_stable.
Defined.

(** ** Refused connections *)

(** X24.  For a site entry with the four keys: when the host refuses the
    connection, [connectToFTP] raises with the connection attempt as its only
    FTP traffic, and the login is never sent; when the server turns the login
    down, it raises after the connection and the login.  In both cases the
    file system is untouched, no directory is listed and no QUIT is sent. *)
Theorem refused_site_sends_no_listing w f site out s host user password rp :
  dict_get "site" f = Some host → dict_get "user" f = Some user →
  dict_get "password" f = Some password →
  dict_get "remote_path" f = Some rp →
  (ftp_connect w host = None →
   ∃ s', connectToFTP w (EMap f) site out s = (Raise FTPError, s')
         ∧ fs s' = fs s ∧ ftp_since s s' [FtpConnect host])
  ∧ (∀ ftp, ftp_connect w host = Some ftp →
       login_ok ftp user (py_str password) = false →
       ∃ s', connectToFTP w (EMap f) site out s = (Raise FTPError, s')
             ∧ fs s' = fs s
             ∧ ftp_since s s'
                 [FtpConnect host; FtpLogin user (py_str password)]).
Proof.
  intros H1 H2 H3 H4. split.
  - intros Hc.
    rewrite (connectToFTP_refused w out f site host user password rp s
               H1 H2 H3 H4 Hc).
    eexists. split; [reflexivity|]. split.
    + cbn [add_event fs]. apply logged_fs.
    + change [FtpConnect host] with ([] ++ [FtpConnect host]). ftp_since_tac.
  - intros ftp Hc Hl.
    rewrite (connectToFTP_login_refused w out f site host user password rp ftp
               s H1 H2 H3 H4 Hc Hl).
    eexists. split; [reflexivity|]. split.
    + cbn [add_event fs]. apply logged_fs.
    + change [FtpConnect host; FtpLogin user (py_str password)]
        with (([] ++ [FtpConnect host]) ++ [FtpLogin user (py_str password)]).
      ftp_since_tac.
Qed.

(** Applying X24 to a site whose host is down. *)
Lemma refused_site_sends_no_listing_witness :
  ∃ s',
    connectToFTP (demo_world None)
      (site_entry "down.example.com" "u" "p" "/out") "siteA" (Some "/home/u")
      demo_state
    = (Raise FTPError, s')
    ∧ fs s' = fs demo_state
    ∧ ftp_since demo_state s' [FtpConnect (PStr "down.example.com")].
Proof.
  apply (proj1 (refused_site_sends_no_listing (demo_world None)
                  [("site", PStr "down.example.com"); ("user", PStr "u");
                   ("password", PStr "p"); ("remote_path", PStr "/out")]
                  "siteA" (Some "/home/u") demo_state
                  (PStr "down.example.com") (PStr "u") (PStr "p") (PStr "/out")
                  eq_refl eq_refl eq_refl eq_refl)).
  reflexivity.
Defined.
